(** * The chain porter of taproot-assets (tapfreighter/chain_porter.go)

    A shallow embedding of the transfer state machine of the ChainPorter
    and of its helpers, and the properties of the specification that are
    stated about them.

    The porter is a coordinator: almost every line is a call to a
    collaborator (asset wallet, Bitcoin wallet, chain bridge, export log,
    proof archive, courier).  The collaborators are Go interfaces whose
    implementations live outside this file, so a porter function is
    embedded as a program over an alphabet of calls ([porterE]); a run of
    the program against a handler that answers the calls yields the
    result, the final world of the handler and the log of calls with
    their answers.  Properties are stated about every handler. *)

From stdpp Require Import gmap strings list sorting.

Set Default Proof Using "Type".
Open Scope N_scope.

(** ** Go values: errors, results, panics *)

(** The error values the porter builds or inspects. *)
Inductive error : Type :=
| ErrNew (msg : string)                (* errors.New, fmt.Errorf without %w *)
| ErrWrap (msg : string) (err : error) (* fmt.Errorf("msg: %w", err)        *)
| ErrDoubleSpend                       (* lnwallet.ErrDoubleSpend           *)
| BackoffExecError (msg : string).     (* *proof.BackoffExecError           *)

#[global] Instance error_eq_dec : EqDecision error.
Proof. solve_decision. Defined.

(** [err.Error()]: the constant text of the format string, then the
    wrapped error. *)
Fixpoint Error (e : error) : string :=
  match e with
  | ErrNew msg => msg
  | ErrWrap msg err => msg +:+ ": " +:+ Error err
  | ErrDoubleSpend => "transaction rejected: output already spent"
  | BackoffExecError msg => msg
  end.

(** [errors.Is(err, lnwallet.ErrDoubleSpend)]: walks the chain of wrapped
    errors. *)
Fixpoint errors_Is_ErrDoubleSpend (e : error) : bool :=
  match e with
  | ErrDoubleSpend => true
  | ErrWrap _ err => errors_Is_ErrDoubleSpend err
  | _ => false
  end.

(** [errors.As(err, &backoffExecErr)] with a [*proof.BackoffExecError]
    target. *)
Fixpoint errors_As_BackoffExecError (e : error) : bool :=
  match e with
  | BackoffExecError _ => true
  | ErrWrap _ err => errors_As_BackoffExecError err
  | _ => false
  end.

(** [strings.Contains(s, sub)]. *)
Definition strings_Contains (s sub : string) : bool :=
  match String.index 0 sub s with
  | Some _ => true
  | None => false
  end.

(** A Go function returning [(T, error)]. *)
Inductive result (A : Type) : Type :=
| Ok (a : A)
| Err (e : error).
Arguments Ok {A} a.
Arguments Err {A} e.

(** How a call ends: it returns, or the goroutine panics. *)
Inductive outcome (R : Type) : Type :=
| Done (r : R)
| Panicked (msg : string).
Arguments Done {R} r.
Arguments Panicked {R} msg.

Definition bytes := list Byte.byte.

(** ** The data model

    One module per Go struct, so that fields keep the names of the source
    ([PrevID.ScriptKey], [TransferOutput.ScriptKey], ...).  The structs of
    the packages asset, proof, tappsbt, tapsend and of parcel.go are
    declared outside chain_porter.go: they are modelled from the data
    model of the spec (§3, §4.3) with the fields chain_porter.go reads or
    writes; what the porter only passes on is kept in opaque form. *)

(** [wire.OutPoint] *)
Module OutPoint.
Record t := mk { Hash : N; Index : N }.
#[global] Instance eq_dec : EqDecision t.
Proof. solve_decision. Defined.
#[global] Instance countable : Countable t.
Proof.
  apply (inj_countable' (fun o => (Hash o, Index o)) (fun p => mk p.1 p.2)).
  by intros [].
Defined.
End OutPoint.
Abbreviation OutPoint := OutPoint.t.

(** [wire.TxOut] *)
Module TxOut.
Record t := mk { Value : Z; PkScript : bytes }.
End TxOut.
Abbreviation TxOut := TxOut.t.

(** [wire.MsgTx] *)
Module MsgTx.
Record t := mk { TxIn : list OutPoint; TxOut : list TxOut }.
End MsgTx.
Abbreviation MsgTx := MsgTx.t.

(** [wire.MsgBlock] *)
Module MsgBlock.
Record t := mk { Header : bytes; Transactions : list MsgTx }.
End MsgBlock.
Abbreviation MsgBlock := MsgBlock.t.

(** [btcec.PublicKey], [asset.SerializedKey] (33 bytes) and [asset.ID]
    (32 bytes), each as the number its bytes spell. *)
Definition PublicKey := N.
Definition SerializedKey := N.
Definition AssetID := N.

(** Modelled from the spec: [asset.PrevID], an input prev-ID (asset id,
    prevout, pre-transfer script key; §4.3). *)
Module PrevID.
Record t := mk { OutPoint : OutPoint; ID : AssetID; ScriptKey : SerializedKey }.
#[global] Instance eq_dec : EqDecision t.
Proof. solve_decision. Defined.
#[global] Instance countable : Countable t.
Proof.
  apply (inj_countable' (fun p => (OutPoint p, ID p, ScriptKey p))
                        (fun q => mk q.1.1 q.1.2 q.2)).
  by intros [].
Defined.
End PrevID.
Abbreviation PrevID := PrevID.t.

(** Modelled from the spec: [asset.Witness], the witness data of an
    output; [PrevID] is a pointer in the source. *)
Module Witness.
Record t := mk { PrevID : option PrevID; TxWitness : list bytes }.
End Witness.
Abbreviation Witness := Witness.t.

(** Modelled from the spec: [asset.TweakedScriptKey], the raw key and the
    tweak of a script key this node can derive. *)
Module TweakedScriptKey.
Record t := mk { RawKey : PublicKey; Tweak : bytes }.
End TweakedScriptKey.

(** Modelled from the spec: [asset.ScriptKey], the public key and the
    embedded pointer to the tweak information, nil for a key this node
    cannot derive. *)
Module ScriptKey.
Record t := mk { PubKey : PublicKey;
                 TweakedScriptKey : option TweakedScriptKey.t }.
End ScriptKey.
Abbreviation ScriptKey := ScriptKey.t.

(** Modelled from the spec: [asset.Asset]; [ID] is the value of the method
    [ID()]. *)
Module Asset.
Record t := mk { ID : AssetID; Amount : N; ScriptKey : ScriptKey;
                 PrevWitnesses : list Witness }.
End Asset.
Abbreviation Asset := Asset.t.

(** Modelled from the spec: [commitment.TapCommitment], the asset
    commitment tree of an input, by the assets it commits to. *)
Definition TapCommitment := list Asset.

(** Modelled from the spec: [proof.Blob] and [proof.File]; a file is the
    ordered chain of proof records (glossary), each kept in its encoded
    form. *)
Definition Blob := bytes.
Module File.
Record t := mk { Version : N; Proofs : list Blob }.
End File.
Abbreviation File := File.t.

(** Modelled from the spec: [proof.Proof], a proof suffix.
    [AdditionalInputs] is the one field the porter writes; all others are
    in [Core], read through the functions of the proof package. *)
Module Proof.
Record t := mk { Core : bytes; AdditionalInputs : list File }.
Definition set_AdditionalInputs (fs : list File) (p : t) : t :=
  mk (Core p) fs.
End Proof.
Abbreviation Proof := Proof.t.

(** Modelled from the spec: [proof.BaseProofParams], the confirmation data
    a suffix takes (block, height, transaction, index; §4.3). *)
Module BaseProofParams.
Record t := mk { Block : MsgBlock; BlockHeight : N; Tx : MsgTx;
                 TxIndex : Z }.
End BaseProofParams.
Abbreviation BaseProofParams := BaseProofParams.t.

(** Modelled from the spec: [proof.Locator] (asset id, script key,
    outpoint; §4.3); [AssetID] and [OutPoint] are pointers. *)
Module Locator.
Record t := mk { AssetID : option AssetID; ScriptKey : PublicKey;
                 OutPoint : option OutPoint }.
End Locator.
Abbreviation Locator := Locator.t.

(** Modelled from the spec: [proof.AnnotatedProof], a locator (embedded)
    and the encoded file. *)
Module AnnotatedProof.
Record t := mk { Locator : Locator; Blob : Blob }.
End AnnotatedProof.
Abbreviation AnnotatedProof := AnnotatedProof.t.

(** Modelled from the spec: [proof.Recipient], whom a courier delivers
    to. *)
Module Recipient.
Record t := mk { ScriptKey : PublicKey; AssetID : AssetID; Amount : N }.
End Recipient.
Abbreviation Recipient := Recipient.t.

(** [chainntnfs.TxConfirmation]; heights and indexes are uint32. *)
Module TxConfirmation.
Record t := mk { BlockHash : option N; BlockHeight : N; TxIndex : N;
                 Tx : MsgTx; Block : MsgBlock }.
End TxConfirmation.
Abbreviation TxConfirmation := TxConfirmation.t.

(** Modelled from the spec: [tappsbt.VInput], [tappsbt.VOutput] and
    [tappsbt.VPacket], a virtual packet with its inputs and outputs. *)
Module VInput.
Record t := mk { PrevID : PrevID }.
End VInput.
Abbreviation VInput := VInput.t.

Module VOutput.
Record t := mk { Amount : N; Asset : Asset; ScriptKey : ScriptKey;
                 ProofSuffix : Proof }.
Definition set_ProofSuffix (s : Proof) (o : t) : t :=
  mk (Amount o) (Asset o) (ScriptKey o) s.
End VOutput.
Abbreviation VOutput := VOutput.t.

Module VPacket.
Record t := mk { Inputs : list VInput; Outputs : list VOutput }.
Definition set_Outputs (os : list VOutput) (v : t) : t := mk (Inputs v) os.
End VPacket.
Abbreviation VPacket := VPacket.t.

(** Modelled from the spec: [tapsend.FundedPsbt] and
    [tapsend.AnchorTransaction], the funded, signed Bitcoin transaction
    plus the list of wallet UTXOs it locked (§3). *)
Module FundedPsbt.
Record t := mk { Pkt : bytes; ChangeOutputIndex : Z;
                 LockedUTXOs : list OutPoint }.
End FundedPsbt.
Abbreviation FundedPsbt := FundedPsbt.t.

Module AnchorTransaction.
Record t := mk { FundedPsbt : option FundedPsbt; FinalTx : MsgTx;
                 ChainFees : Z }.
End AnchorTransaction.
Abbreviation AnchorTransaction := AnchorTransaction.t.

(** Modelled from the spec: [FundedVPacket], the answer of
    [FundAddressSend] (virtual packet and input commitments, §4.4 S1). *)
Module FundedVPacket.
Record t := mk { VPacket : VPacket;
                 InputCommitments : gmap PrevID TapCommitment }.
End FundedVPacket.
Abbreviation FundedVPacket := FundedVPacket.t.

(** Modelled from the spec: [AnchorVTxnsParams]; the fee rate is in
    sat/kw. *)
Module AnchorVTxnsParams.
Record t := mk { FeeRate : N; ActivePackets : list VPacket;
                 PassivePackets : list VPacket }.
End AnchorVTxnsParams.
Abbreviation AnchorVTxnsParams := AnchorVTxnsParams.t.

(** Modelled from the spec: [TransferInput], [Anchor], [TransferOutput] and
    [OutboundParcel], the persisted parcel of §3. *)
Module TransferInput.
Record t := mk { PrevID : PrevID; Amount : N }.
End TransferInput.
Abbreviation TransferInput := TransferInput.t.

Module Anchor.
Record t := mk { OutPoint : OutPoint; Value : Z }.
End Anchor.
Abbreviation Anchor := Anchor.t.

Module TransferOutput.
Record t := mk { Anchor : Anchor; ScriptKey : ScriptKey;
                 ScriptKeyLocal : bool; Amount : N;
                 WitnessData : list Witness; ProofSuffix : bytes;
                 ProofCourierAddr : string }.
End TransferOutput.
Abbreviation TransferOutput := TransferOutput.t.

Module OutboundParcel.
Record t := mk { AnchorTx : MsgTx; AnchorTxHeightHint : N;
                 Inputs : list TransferInput;
                 Outputs : list TransferOutput;
                 PassiveAssets : list VPacket }.
End OutboundParcel.
Abbreviation OutboundParcel := OutboundParcel.t.

(** Modelled from the spec: [parcelKit], the two response channels of a
    parcel (§3), each by the number of its channel. *)
Module parcelKit.
Record t := mk { respChan : N; errChan : N }.
End parcelKit.
Abbreviation parcelKit := parcelKit.t.

(** Modelled from the spec: the three parcel variants of §3 (the interface
    [Parcel] and its implementations are declared in parcel.go). *)
Inductive Parcel : Type :=
| AddressParcel (kit : parcelKit) (destAddrs : list string)
                (transferFeeRate : option N)
| PreSignedParcel (kit : parcelKit) (vPkts : list VPacket)
                  (inputCommitments : gmap PrevID TapCommitment)
| PendingParcel (kit : parcelKit) (outboundPkg : OutboundParcel).

(** Modelled from the spec: [SendState] with the total order of §3, a small
    unsigned integer in the source (the porter compares states with [<]
    and has a default case for values outside the enumeration). *)
Definition SendState := N.
Definition SendStateVirtualCommitmentSelect : SendState := 0.
Definition SendStateVirtualSign : SendState := 1.
Definition SendStateAnchorSign : SendState := 2.
Definition SendStateStorePreBroadcast : SendState := 3.
Definition SendStateBroadcast : SendState := 4.
Definition SendStateWaitTxConf : SendState := 5.
Definition SendStateStoreProofs : SendState := 6.
Definition SendStateTransferProofs : SendState := 7.
Definition SendStateComplete : SendState := 8.

(** Modelled from the spec: [sendPackage] with the fields of §3 (the struct
    is declared in parcel.go).  Pointer fields that start out nil are
    options; [FinalProofs] is a map, nil until [storeProofs] makes it. *)
Module sendPackage.
Record t := mk {
  SendState : SendState;
  Parcel : Parcel;
  VirtualPackets : list VPacket;
  InputCommitments : gmap PrevID TapCommitment;
  PassiveAssets : list VPacket;
  AnchorTx : option AnchorTransaction;
  OutboundPkg : option OutboundParcel;
  FinalProofs : option (gmap SerializedKey AnnotatedProof);
  TransferTxConfEvent : option TxConfirmation }.

Definition set_SendState (s : N) (p : t) : t :=
  mk s (Parcel p) (VirtualPackets p) (InputCommitments p) (PassiveAssets p)
     (AnchorTx p) (OutboundPkg p) (FinalProofs p) (TransferTxConfEvent p).
Definition set_VirtualPackets (v : list VPacket) (p : t) : t :=
  mk (SendState p) (Parcel p) v (InputCommitments p) (PassiveAssets p)
     (AnchorTx p) (OutboundPkg p) (FinalProofs p) (TransferTxConfEvent p).
Definition set_InputCommitments (c : gmap PrevID TapCommitment) (p : t) : t :=
  mk (SendState p) (Parcel p) (VirtualPackets p) c (PassiveAssets p)
     (AnchorTx p) (OutboundPkg p) (FinalProofs p) (TransferTxConfEvent p).
Definition set_PassiveAssets (v : list VPacket) (p : t) : t :=
  mk (SendState p) (Parcel p) (VirtualPackets p) (InputCommitments p) v
     (AnchorTx p) (OutboundPkg p) (FinalProofs p) (TransferTxConfEvent p).
Definition set_AnchorTx (a : option AnchorTransaction) (p : t) : t :=
  mk (SendState p) (Parcel p) (VirtualPackets p) (InputCommitments p)
     (PassiveAssets p) a (OutboundPkg p) (FinalProofs p)
     (TransferTxConfEvent p).
Definition set_OutboundPkg (o : option OutboundParcel) (p : t) : t :=
  mk (SendState p) (Parcel p) (VirtualPackets p) (InputCommitments p)
     (PassiveAssets p) (AnchorTx p) o (FinalProofs p)
     (TransferTxConfEvent p).
Definition set_FinalProofs
    (f : option (gmap SerializedKey AnnotatedProof)) (p : t) : t :=
  mk (SendState p) (Parcel p) (VirtualPackets p) (InputCommitments p)
     (PassiveAssets p) (AnchorTx p) (OutboundPkg p) f
     (TransferTxConfEvent p).
Definition set_TransferTxConfEvent (c : option TxConfirmation) (p : t) : t :=
  mk (SendState p) (Parcel p) (VirtualPackets p) (InputCommitments p)
     (PassiveAssets p) (AnchorTx p) (OutboundPkg p) (FinalProofs p) c.
End sendPackage.
Abbreviation sendPackage := sendPackage.t.

(** Modelled from the spec: [AssetConfirmEvent] (anchor txid, block hash,
    height, tx index, final-proof map, passive-proof map; §4.4 S8);
    height and index are int32 in this struct. *)
Module AssetConfirmEvent.
Record t := mk {
  AnchorTXID : N;
  BlockHash : N;
  BlockHeight : Z;
  TxIndex : Z;
  FinalProofs : option (gmap SerializedKey AnnotatedProof);
  PassiveAssetProofFiles : gmap AssetID (list AnnotatedProof) }.
End AssetConfirmEvent.
Abbreviation AssetConfirmEvent := AssetConfirmEvent.t.

(** [AssetSendEvent] *)
Module AssetSendEvent.
Record t := mk {
  timestamp : N;
  SendState : SendState;
  Error : option error;
  Parcel : Parcel;
  VirtualPackets : list VPacket;
  PassivePackets : list VPacket;
  AnchorTx : option AnchorTransaction;
  Transfer : option OutboundParcel }.
End AssetSendEvent.
Abbreviation AssetSendEvent := AssetSendEvent.t.

(** Modelled from the spec: [fn.EventReceiver], a subscriber, by its
    subscription ID (§4.6). *)
Module EventReceiver.
Record t := mk { ID : N }.
End EventReceiver.
Abbreviation EventReceiver := EventReceiver.t.

(** [ChainPorter]: the state of the porter itself is its subscriber map;
    the configuration is the set of collaborators below. *)
Module ChainPorter.
Record t := mk { subscribers : gmap N EventReceiver }.
End ChainPorter.
Abbreviation ChainPorter := ChainPorter.t.

(** Conversions [int32(x)] and [int(x)] of a uint32. *)
Definition int32_of_uint32 (x : N) : Z :=
  let z := Z.of_N (x mod 2 ^ 32) in
  if (z <? 2 ^ 31)%Z then z else (z - 2 ^ 32)%Z.
Definition int_of_uint32 (x : N) : Z := Z.of_N (x mod 2 ^ 32).

(** ** Collaborators

    The calls the porter makes on the interfaces of its configuration
    ([ChainPorterConfig]) and on its channels, each with the type of its
    answer.  A call that writes through a pointer argument answers with
    the value behind the pointer after the call. *)

(** Which case of the [select] in [waitForTransferTxConf] fired. *)
Inductive SelectOutcome : Type :=
| SelConfirmed (confEvent : TxConfirmation) (* confEvent = <-confNtfn.Confirmed *)
| SelErr (err : error)                      (* err := <-errChan                 *)
| SelCtxDone                                (* <-confCtx.Done()                 *)
| SelQuit.                                  (* <-p.Quit                         *)

Inductive porterE : Type -> Type :=
(* cfg.AssetWallet *)
| FundAddressSend (destAddrs : list string) : porterE (result FundedVPacket)
| SignVirtualPacket (vPkt : VPacket) : porterE (VPacket * option error)
| CreatePassiveAssets (vPkts : list VPacket)
    (inputCommitments : gmap PrevID TapCommitment)
    : porterE (result (list VPacket))
| SignPassiveAssets (passiveAssets : list VPacket)
    : porterE (list VPacket * option error)
| AnchorVirtualTransactions (params : AnchorVTxnsParams)
    : porterE (result AnchorTransaction)
(* cfg.Wallet *)
| ImportTaprootOutput (key : PublicKey) : porterE (option error)
| UnlockInput (op : OutPoint) : porterE (option error)
(* cfg.ChainBridge *)
| EstimateFee (confTarget : N) : porterE (result N)
| CurrentHeight : porterE (result N)
| PublishTransaction (tx : MsgTx) : porterE (option error)
| RegisterConfirmationsNtfn (txHash : N) (pkScript : bytes)
    (numConfs heightHint : N) (includeBlock : bool) : porterE (result N)
| SelectConf (confNtfn : N) : porterE SelectOutcome
(* cfg.ExportLog *)
| LogPendingParcel (parcel : OutboundParcel) (leaseID : bytes) (expiry : N)
    : porterE (option error)
| ConfirmParcelDelivery (conf : AssetConfirmEvent) : porterE (option error)
(* cfg.ProofWriter, cfg.ProofReader, proof.BaseVerifier, cfg.ProofWatcher *)
| ImportProofs (replace : bool) (proofs : list AnnotatedProof)
    : porterE (option error)
| FetchProof (id : Locator) : porterE (result Blob)
| Verify (blob : Blob) : porterE (option error)
| WatchProofs (proofs : list Proof) : porterE (option error)
(* cfg.ProofCourierDispatcher and the courier handle it returns *)
| NewCourier (addr : string) (recipient : Recipient) : porterE (result N)
| SetSubscribers (courier : N) (subscribers : gmap N EventReceiver)
    : porterE unit
| DeliverProof (courier : N) (proof : AnnotatedProof) : porterE (option error)
| Close (courier : N) : porterE unit
(* ConvertToTransfer of parcel.go, which asks cfg.KeyRing for every key *)
| ConvertToTransfer (currentHeight : N) (activeTransfers : list VPacket)
    (anchorTx : option AnchorTransaction) (passiveAssets : list VPacket)
    : porterE (result OutboundParcel)
(* channels, clock, log and goroutines *)
| QuitClosed : porterE bool                 (* select on p.Quit with default *)
| ErrChanSend (kit : parcelKit) (err : error) : porterE unit
| DeliverTxBroadcastResp (pkg : sendPackage) : porterE unit
| SubscriberSend (sub : EventReceiver) (event : AssetSendEvent)
    : porterE unit                          (* sub.NewItemCreated.ChanIn() <- *)
| TimeNow : porterE N
| LogExecutingState (s : SendState) : porterE unit
| GoTransferReceiverProof (pkg : sendPackage) : porterE unit.

(** One entry of the log of a run: a call and its answer. *)
Inductive entry : Type :=
| Entry (X : Type) (e : porterE X) (x : X).
Arguments Entry {X} e x.

(** ** Programs over the collaborators *)

Inductive Prog (R : Type) : Type :=
| Ret (r : R)
| Panic (msg : string)
| Vis (X : Type) (e : porterE X) (k : X -> Prog R).
Arguments Ret {R} r.
Arguments Panic {R} msg.
Arguments Vis {R X} e k.

Definition call {X : Type} (e : porterE X) : Prog X := Vis e Ret.

Fixpoint bind {A B : Type} (p : Prog A) (f : A -> Prog B) : Prog B :=
  match p with
  | Ret a => f a
  | Panic msg => Panic msg
  | Vis e k => Vis e (fun x => bind (k x) f)
  end.

#[global] Instance Prog_ret : MRet Prog := @Ret.
#[global] Instance Prog_bind : MBind Prog := fun A B f p => bind p f.

(** A handler answers every call from its world (the state of the
    collaborators). *)
Definition handler (W : Type) : Type := forall X : Type, porterE X -> W -> X * W.

(** [run h p w]: how [p] ends against [h] from world [w], the final world
    and the log. *)
Fixpoint run {W R : Type} (h : handler W) (p : Prog R) (w : W)
    : outcome R * W * list entry :=
  match p with
  | Ret r => (Done r, w, [])
  | Panic msg => (Panicked msg, w, [])
  | Vis e k =>
      let '(x, w1) := h _ e w in
      let '(o, w2, t) := run h (k x) w1 in
      (o, w2, Entry e x :: t)
  end.

(** [wp p Q]: [Q] holds of the log and the end of [p] whatever the
    collaborators answer. *)
Fixpoint wp {R : Type} (p : Prog R) (Q : list entry -> outcome R -> Prop)
    : Prop :=
  match p with
  | Ret r => Q [] (Done r)
  | Panic msg => Q [] (Panicked msg)
  | Vis e k => forall x, wp (k x) (fun t o => Q (Entry e x :: t) o)
  end.

(** ** Reading a log

    What a log tells about one collaborator, in the order of the calls. *)

(** The outpoints on which [UnlockInput] was called. *)
Definition unlockCall (en : entry) : list OutPoint :=
  match en with
  | Entry e _ => match e with UnlockInput op => [op] | _ => [] end
  end.
Definition unlockCalls (t : list entry) : list OutPoint :=
  flat_map unlockCall t.

(** The answers of [PublishTransaction]. *)
Definition publishAnswer (en : entry) : list (option error) :=
  match en with
  | Entry e x =>
      match e in porterE X return X -> list (option error) with
      | PublishTransaction _ => fun x => [x]
      | _ => fun _ => []
      end x
  end.
Definition publishAnswers (t : list entry) : list (option error) :=
  flat_map publishAnswer t.

(** The answers of [AnchorVirtualTransactions]. *)
Definition anchorAnswer (en : entry) : list (result AnchorTransaction) :=
  match en with
  | Entry e x =>
      match e in porterE X return X -> list (result AnchorTransaction) with
      | AnchorVirtualTransactions _ => fun x => [x]
      | _ => fun _ => []
      end x
  end.
Definition anchorAnswers (t : list entry) : list (result AnchorTransaction) :=
  flat_map anchorAnswer t.

(** The registrations for a confirmation, by transaction hash. *)
Definition registerCall (en : entry) : list N :=
  match en with
  | Entry e _ =>
      match e with
      | RegisterConfirmationsNtfn txHash _ _ _ _ => [txHash]
      | _ => []
      end
  end.
Definition registerCalls (t : list entry) : list N := flat_map registerCall t.

(** The cases the [select] of [waitForTransferTxConf] took. *)
Definition selectAnswer (en : entry) : list SelectOutcome :=
  match en with
  | Entry e x =>
      match e in porterE X return X -> list SelectOutcome with
      | SelectConf _ => fun x => [x]
      | _ => fun _ => []
      end x
  end.
Definition selectAnswers (t : list entry) : list SelectOutcome :=
  flat_map selectAnswer t.

(** The states [advanceState] announced it executes. *)
Definition executingState (en : entry) : list SendState :=
  match en with
  | Entry e _ => match e with LogExecutingState s => [s] | _ => [] end
  end.
Definition executingStates (t : list entry) : list SendState :=
  flat_map executingState t.

(** The fetches from the proof archive, with their answers. *)
Definition fetchCall (en : entry) : list (Locator * result Blob) :=
  match en with
  | Entry e x =>
      match e in porterE X return X -> list (Locator * result Blob) with
      | FetchProof id => fun x => [(id, x)]
      | _ => fun _ => []
      end x
  end.
Definition fetchCalls (t : list entry) : list (Locator * result Blob) :=
  flat_map fetchCall t.

(** The imports into the proof archive and the verifications. *)
Definition importCall (en : entry) : list (bool * list AnnotatedProof) :=
  match en with
  | Entry e _ =>
      match e with
      | ImportProofs replace proofs => [(replace, proofs)]
      | _ => []
      end
  end.
Definition importCalls (t : list entry) : list (bool * list AnnotatedProof) :=
  flat_map importCall t.

Definition verifyCall (en : entry) : list Blob :=
  match en with
  | Entry e _ => match e with Verify blob => [blob] | _ => [] end
  end.
Definition verifyCalls (t : list entry) : list Blob := flat_map verifyCall t.

(** The confirmations written to the export log. *)
Definition confirmCall (en : entry) : list AssetConfirmEvent :=
  match en with
  | Entry e _ => match e with ConfirmParcelDelivery conf => [conf] | _ => [] end
  end.
Definition confirmCalls (t : list entry) : list AssetConfirmEvent :=
  flat_map confirmCall t.

(** The events sent to subscribers. *)
Definition sentEvent (en : entry) : list AssetSendEvent :=
  match en with
  | Entry e _ => match e with SubscriberSend _ event => [event] | _ => [] end
  end.
Definition sentEvents (t : list entry) : list AssetSendEvent :=
  flat_map sentEvent t.

(** The calls on the courier dispatcher and on couriers. *)
Inductive courierCall : Type :=
| CallNewCourier (addr : string) (recipient : Recipient) (answer : result N)
| CallSetSubscribers (courier : N) (subscribers : gmap N EventReceiver)
| CallDeliverProof (courier : N) (proof : AnnotatedProof)
    (answer : option error)
| CallClose (courier : N).

Definition courierCallOf (en : entry) : list courierCall :=
  match en with
  | Entry e x =>
      match e in porterE X return X -> list courierCall with
      | NewCourier addr recipient => fun x => [CallNewCourier addr recipient x]
      | SetSubscribers c subs => fun _ => [CallSetSubscribers c subs]
      | DeliverProof c proof => fun x => [CallDeliverProof c proof x]
      | Close c => fun _ => [CallClose c]
      | _ => fun _ => []
      end x
  end.
Definition courierCalls (t : list entry) : list courierCall :=
  flat_map courierCallOf t.

(** An entry that is no call on the wallet lock, the publisher, the anchor
    builder or the confirmation notifier, and no line of the state log. *)
Definition quiet (en : entry) : Prop :=
  unlockCall en = [] ∧ publishAnswer en = [] ∧ anchorAnswer en = []
  ∧ registerCall en = [] ∧ selectAnswer en = [] ∧ executingState en = [].

(** An entry that is no import into the archive, no verification and no
    confirmation in the export log. *)
Definition readOnly (en : entry) : Prop :=
  importCall en = [] ∧ verifyCall en = [] ∧ confirmCall en = [].



(** [always P p]: every entry of every log of [p] satisfies [P]. *)
Definition always {R : Type} (P : entry -> Prop) (p : Prog R) : Prop :=
  wp p (fun t _ => Forall P t).

(** The events sent to subscribers, each with the subscriber it went
    to. *)
Definition subscriberSend (en : entry)
    : list (EventReceiver * AssetSendEvent) :=
  match en with
  | Entry e _ =>
      match e with SubscriberSend sub event => [(sub, event)] | _ => [] end
  end.
Definition subscriberSends (t : list entry)
    : list (EventReceiver * AssetSendEvent) :=
  flat_map subscriberSend t.

(** The errors sent on the error channel of a parcel. *)
Definition errChanSend (en : entry) : list (parcelKit * error) :=
  match en with
  | Entry e _ => match e with ErrChanSend kit err => [(kit, err)] | _ => [] end
  end.
Definition errChanSends (t : list entry) : list (parcelKit * error) :=
  flat_map errChanSend t.

(** What [Stop] works on: the porter with [stopOnce] (whether its function
    has run) and the quit channel (whether it is closed). *)
Module Stoppable.
Record t := mk { porter : ChainPorter; stopOnce : bool; Quit : bool }.
End Stoppable.

#[global] Instance EventReceiver_eq_dec : EqDecision EventReceiver.
Proof. solve_decision. Defined.

(** The keys given to [ImportTaprootOutput], with its answers. *)
Definition importKeyCall (en : entry) : list (PublicKey * option error) :=
  match en with
  | Entry e x =>
      match e in porterE X return X -> list (PublicKey * option error) with
      | ImportTaprootOutput key => fun x => [(key, x)]
      | _ => fun _ => []
      end x
  end.
Definition importKeyCalls (t : list entry) : list (PublicKey * option error) :=
  flat_map importKeyCall t.

(** The fee estimates asked for, with the answers. *)
Definition estimateCall (en : entry) : list (N * result N) :=
  match en with
  | Entry e x =>
      match e in porterE X return X -> list (N * result N) with
      | EstimateFee confTarget => fun x => [(confTarget, x)]
      | _ => fun _ => []
      end x
  end.
Definition estimateCalls (t : list entry) : list (N * result N) :=
  flat_map estimateCall t.

(** The parameters [AnchorVirtualTransactions] was called with. *)
Definition anchorParam (en : entry) : list AnchorVTxnsParams :=
  match en with
  | Entry e _ =>
      match e with AnchorVirtualTransactions params => [params] | _ => [] end
  end.
Definition anchorParams (t : list entry) : list AnchorVTxnsParams :=
  flat_map anchorParam t.

(** The packets given to [SignVirtualPacket], each with the packet after
    the call and the error. *)
Definition signCall (en : entry)
    : list (VPacket * (VPacket * option error)) :=
  match en with
  | Entry e x =>
      match e in porterE X
            return X -> list (VPacket * (VPacket * option error)) with
      | SignVirtualPacket vPkt => fun x => [(vPkt, x)]
      | _ => fun _ => []
      end x
  end.
Definition signCalls (t : list entry)
    : list (VPacket * (VPacket * option error)) :=
  flat_map signCall t.

(** The parcels written to the export log as pending, with the answers. *)
Definition pendingLog (en : entry) : list (OutboundParcel * option error) :=
  match en with
  | Entry e x =>
      match e in porterE X return X -> list (OutboundParcel * option error) with
      | LogPendingParcel parcel _ _ => fun x => [(parcel, x)]
      | _ => fun _ => []
      end x
  end.
Definition pendingLogs (t : list entry)
    : list (OutboundParcel * option error) :=
  flat_map pendingLog t.

(** The transactions given to [PublishTransaction] and the packages whose
    broadcast response was delivered. *)
Definition publishCall (en : entry) : list MsgTx :=
  match en with
  | Entry e _ => match e with PublishTransaction tx => [tx] | _ => [] end
  end.
Definition publishCalls (t : list entry) : list MsgTx :=
  flat_map publishCall t.

Definition broadcastResp (en : entry) : list sendPackage :=
  match en with
  | Entry e _ => match e with DeliverTxBroadcastResp pkg => [pkg] | _ => [] end
  end.
Definition broadcastResps (t : list entry) : list sendPackage :=
  flat_map broadcastResp t.

(** The calls on the verifier, the proof archive and the proof watcher
    that write or check: verifications, imports and watches, with the
    answers. *)
Inductive archiveCall : Type :=
| CallVerify (blob : Blob) (answer : option error)
| CallImport (replace : bool) (proofs : list AnnotatedProof)
    (answer : option error)
| CallWatch (proofs : list Proof) (answer : option error).

Definition archiveCallOf (en : entry) : list archiveCall :=
  match en with
  | Entry e x =>
      match e in porterE X return X -> list archiveCall with
      | Verify blob => fun x => [CallVerify blob x]
      | ImportProofs replace proofs => fun x => [CallImport replace proofs x]
      | WatchProofs proofs => fun x => [CallWatch proofs x]
      | _ => fun _ => []
      end x
  end.
Definition archiveCalls (t : list entry) : list archiveCall :=
  flat_map archiveCallOf t.

(** The confirmations written to the export log, with the answers. *)
Definition confirmAnswer (en : entry)
    : list (AssetConfirmEvent * option error) :=
  match en with
  | Entry e x =>
      match e in porterE X
            return X -> list (AssetConfirmEvent * option error) with
      | ConfirmParcelDelivery conf => fun x => [(conf, x)]
      | _ => fun _ => []
      end x
  end.
Definition confirmAnswers (t : list entry)
    : list (AssetConfirmEvent * option error) :=
  flat_map confirmAnswer t.


(** ** Functions and constants of other packages

    Pure functions the porter calls that are declared outside
    chain_porter.go (packages wire, txscript, schnorr, btcec, asset, proof,
    tapsend, tappsbt, and parcel.go of this package).  The porter is
    verified for every implementation of them. *)
Class External : Type := {
  (* wire, txscript, schnorr, btcec *)
  TxHash : MsgTx -> N;
  ExtractWitnessProgramInfo : bytes -> result bytes;
  schnorr_ParsePubKey : bytes -> result PublicKey;
  btcec_ParsePubKey : SerializedKey -> result PublicKey;
  (* asset *)
  ToSerialized : PublicKey -> SerializedKey;
  IsUnSpendable : ScriptKey -> result bool;
  IsBurnKey : PublicKey -> Witness -> bool;
  (* proof; the methods with a pointer receiver give the new value *)
  UpdateTransitionProof : BaseProofParams -> Proof -> Proof * option error;
  Proof_Decode : bytes -> result Proof;
  Proof_OutPoint : Proof -> OutPoint;
  Proof_Witnesses : Proof -> list Witness;     (* p.Asset.Witnesses() *)
  File_Decode : Blob -> result File;
  File_Encode : File -> result Blob;
  AppendProof : File -> Proof -> result File;
  ParseCourierAddress : string -> result string;
  (* tapsend, tappsbt *)
  ValidateVPacketVersions : list VPacket -> option error;
  ExtractUnSpendable : TapCommitment -> list Asset;
  SendConfTarget : N;
  FirstNonSplitRootOutput : VPacket -> result VOutput;
  (* parcel.go, wallet.go *)
  validateReadyForPublish :
    sendPackage -> gmap OutPoint (list Asset) -> option error;
  defaultWalletLeaseIdentifier : bytes;
  defaultBroadcastCoinLeaseDuration : N
}.

Section Porter.
Context `{External}.

(** ** chain_porter.go *)

(** [unlockInputs]: the body of the loop only logs the error of
    [UnlockInput]. *)
Fixpoint unlockInputs_range (ops : list OutPoint) : Prog unit :=
  match ops with
  | [] => Ret tt
  | op :: ops' => _ ← call (UnlockInput op); unlockInputs_range ops'
  end.

(** The outpoints [unlockInputs] walks over: those the funded PSBT of the
    anchor transaction locked, none when [AnchorTx] or its [FundedPsbt] is
    nil. *)
Definition lockedBy (anchorTx : AnchorTransaction) : list OutPoint :=
  match AnchorTransaction.FundedPsbt anchorTx with
  | None => []
  | Some psbt => FundedPsbt.LockedUTXOs psbt
  end.

Definition lockedUTXOs (pkg : sendPackage) : list OutPoint :=
  match sendPackage.AnchorTx pkg with
  | None => []
  | Some anchorTx => lockedBy anchorTx
  end.

(** Every caller passes [&currentPkg], so [pkg] is never nil. *)
Definition unlockInputs (pkg : sendPackage) : Prog unit :=
  match sendPackage.AnchorTx pkg with
  | None => Ret tt
  | Some anchorTx =>
      match AnchorTransaction.FundedPsbt anchorTx with
      | None => Ret tt
      | Some psbt => unlockInputs_range (FundedPsbt.LockedUTXOs psbt)
      end
  end.

Definition fetchInputProof (input : PrevID) : Prog (result File) :=
  match btcec_ParsePubKey (PrevID.ScriptKey input) with
  | Err err => Ret (Err (ErrWrap "error parsing script key" err))
  | Ok scriptKey =>
      let inputProofLocator :=
        Locator.mk (Some (PrevID.ID input)) scriptKey
                   (Some (PrevID.OutPoint input)) in
      r ← call (FetchProof inputProofLocator);
      match r with
      | Err err =>
          Ret (Err (ErrWrap "error fetching input proof -- locator" err))
      | Ok inputProofBytes =>
          match File_Decode inputProofBytes with
          | Err err => Ret (Err (ErrWrap "error decoding input proof" err))
          | Ok inputProofFile => Ret (Ok inputProofFile)
          end
      end
  end.

(** The loop [for idx := 1; idx < len(inputs); idx++] of
    [updateAssetProofFile], over [inputs[1:]]; it gives the suffix as it
    stands when the loop ends or returns. *)
Fixpoint updateAssetProofFile_additional (rest : list PrevID)
    (proofSuffix : Proof) : Prog (Proof * option error) :=
  match rest with
  | [] => Ret (proofSuffix, None)
  | input :: rest' =>
      r ← fetchInputProof input;
      match r with
      | Err err =>
          Ret (proofSuffix,
               Some (ErrWrap "error fetching additional input proof" err))
      | Ok additionalInputProofFile =>
          updateAssetProofFile_additional rest'
            (Proof.set_AdditionalInputs
               (Proof.AdditionalInputs proofSuffix
                  ++ [additionalInputProofFile]) proofSuffix)
      end
  end.

(** [updateAssetProofFile] writes through the pointer [proofSuffix]: the
    first component of the answer is the suffix after the call. *)
Definition updateAssetProofFile (inputs : list PrevID) (proofSuffix : Proof)
    (newScriptKey : ScriptKey) (confEvent : option TxConfirmation)
    : Prog (Proof * result AnnotatedProof) :=
  match confEvent with
  | None => Panic "invalid memory address or nil pointer dereference"
  | Some confEvent =>
      let '(proofSuffix, uerr) :=
        UpdateTransitionProof
          (BaseProofParams.mk (TxConfirmation.Block confEvent)
             (TxConfirmation.BlockHeight confEvent)
             (TxConfirmation.Tx confEvent)
             (int_of_uint32 (TxConfirmation.TxIndex confEvent)))
          proofSuffix in
      match uerr with
      | Some err =>
          Ret (proofSuffix,
               Err (ErrWrap "error updating transition proof" err))
      | None =>
          match inputs with
          | [] => Panic "index out of range [0] with length 0"
          | firstInput :: additional =>
              r ← fetchInputProof firstInput;
              match r with
              | Err err =>
                  Ret (proofSuffix,
                       Err (ErrWrap "error fetching input proof" err))
              | Ok inputProofFile =>
                  '(proofSuffix, aerr) ←
                    updateAssetProofFile_additional additional proofSuffix;
                  match aerr with
                  | Some err => Ret (proofSuffix, Err err)
                  | None =>
                      match AppendProof inputProofFile proofSuffix with
                      | Err err =>
                          Ret (proofSuffix,
                               Err (ErrWrap "error appending proof" err))
                      | Ok inputProofFile =>
                          match File_Encode inputProofFile with
                          | Err err =>
                              Ret (proofSuffix,
                                   Err (ErrWrap "error encoding proof" err))
                          | Ok outputProofBuf =>
                              let outputProofLocator :=
                                Locator.mk (Some (PrevID.ID firstInput))
                                  (ScriptKey.PubKey newScriptKey)
                                  (Some (Proof_OutPoint proofSuffix)) in
                              Ret (proofSuffix,
                                   Ok (AnnotatedProof.mk outputProofLocator
                                         outputProofBuf))
                          end
                      end
                  end
              end
          end
      end
  end.

(** The loop of [storeProofs] over [sendPkg.PassiveAssets], from index
    [idx] on.  [updateAssetProofFile] writes through
    [passiveOut.ProofSuffix], which the package still points to, so the
    package is threaded through the loop. *)
Fixpoint storeProofs_passive (todo : list VPacket) (idx : nat)
    (sendPkg : sendPackage)
    (passiveAssetProofFiles : list AnnotatedProof)
    (passiveAssetProofSuffixes : list Proof)
    : Prog (sendPackage * result (list AnnotatedProof * list Proof)) :=
  match todo with
  | [] =>
      Ret (sendPkg, Ok (passiveAssetProofFiles, passiveAssetProofSuffixes))
  | vPkt :: todo' =>
      match VPacket.Outputs vPkt with
      | [] => Panic "index out of range [0] with length 0"
      | passiveOut :: _ =>
          let inputs := map VInput.PrevID (VPacket.Inputs vPkt) in
          '(proofSuffix, r) ←
            updateAssetProofFile inputs (VOutput.ProofSuffix passiveOut)
              (Asset.ScriptKey (VOutput.Asset passiveOut))
              (sendPackage.TransferTxConfEvent sendPkg);
          let passiveOut := VOutput.set_ProofSuffix proofSuffix passiveOut in
          let vPkt :=
            VPacket.set_Outputs (<[0%nat:=passiveOut]> (VPacket.Outputs vPkt))
              vPkt in
          let sendPkg :=
            sendPackage.set_PassiveAssets
              (<[idx:=vPkt]> (sendPackage.PassiveAssets sendPkg)) sendPkg in
          match r with
          | Err err =>
              Ret (sendPkg,
                   Err (ErrWrap "failed to generate an updated proof file for passive asset" err))
          | Ok newAnnotatedProofFile =>
              storeProofs_passive todo' (S idx) sendPkg
                (passiveAssetProofFiles ++ [newAnnotatedProofFile])
                (passiveAssetProofSuffixes
                   ++ [VOutput.ProofSuffix passiveOut])
          end
      end
  end.

(** The two nested loops of [storeProofs] that collect the inputs an
    output spends. *)
Definition inputsForAsset (inputs : list TransferInput)
    (parsedSuffix : Proof) : list PrevID :=
  flat_map
    (fun inp =>
       flat_map
         (fun witness =>
            match Witness.PrevID witness with
            | Some prevID =>
                if decide (TransferInput.PrevID inp = prevID)
                then [TransferInput.PrevID inp] else []
            | None => []
            end)
         (Proof_Witnesses parsedSuffix))
    inputs.

(** [asset.ScriptKey]: the test [TweakedScriptKey != nil]. *)
Definition hasTweakedScriptKey (k : ScriptKey) : bool :=
  match ScriptKey.TweakedScriptKey k with
  | Some _ => true
  | None => false
  end.

(** [sendPkg.FinalProofs[key] = proof]; [storeProofs] has made the map. *)
Definition FinalProofs_store (key : SerializedKey) (proof : AnnotatedProof)
    (sendPkg : sendPackage) : sendPackage :=
  sendPackage.set_FinalProofs
    (Some (<[key:=proof]> (default ∅ (sendPackage.FinalProofs sendPkg))))
    sendPkg.

(** The loop of [storeProofs] over [parcel.Outputs]. *)
Fixpoint storeProofs_outputs (parcel : OutboundParcel)
    (todo : list TransferOutput) (sendPkg : sendPackage)
    : Prog (sendPackage * option error) :=
  match todo with
  | [] => Ret (sendPkg, None)
  | out :: todo' =>
      match Proof_Decode (TransferOutput.ProofSuffix out) with
      | Err err =>
          Ret (sendPkg, Some (ErrWrap "error decoding proof suffix" err))
      | Ok parsedSuffix =>
          '(parsedSuffix, r) ←
            updateAssetProofFile
              (inputsForAsset (OutboundParcel.Inputs parcel) parsedSuffix)
              parsedSuffix (TransferOutput.ScriptKey out)
              (sendPackage.TransferTxConfEvent sendPkg);
          match r with
          | Err err =>
              Ret (sendPkg,
                   Some (ErrWrap "failed to generate an updated proof file for output" err))
          | Ok outputProof =>
              let serializedScriptKey :=
                ToSerialized (ScriptKey.PubKey (TransferOutput.ScriptKey out)) in
              let sendPkg :=
                FinalProofs_store serializedScriptKey outputProof sendPkg in
              verr ← call (Verify (AnnotatedProof.Blob outputProof));
              match verr with
              | Some err =>
                  Ret (sendPkg, Some (ErrWrap "error verifying proof" err))
              | None =>
                  ierr ← call (ImportProofs false [outputProof]);
                  match ierr with
                  | Some err =>
                      Ret (sendPkg,
                           Some (ErrWrap "error importing proof" err))
                  | None =>
                      if hasTweakedScriptKey (TransferOutput.ScriptKey out)
                         && TransferOutput.ScriptKeyLocal out
                      then
                        werr ← call (WatchProofs [parsedSuffix]);
                        match werr with
                        | Some err =>
                            Ret (sendPkg,
                                 Some (ErrWrap "error watching proof" err))
                        | None => storeProofs_outputs parcel todo' sendPkg
                        end
                      else storeProofs_outputs parcel todo' sendPkg
                  end
              end
          end
      end
  end.

(** [storeProofs] works on the package behind its pointer: the answer is
    the package after the call and the error. *)
Definition storeProofs (sendPkg : sendPackage)
    : Prog (sendPackage * option error) :=
  let parcel := sendPackage.OutboundPkg sendPkg in
  '(sendPkg, r) ←
    storeProofs_passive (sendPackage.PassiveAssets sendPkg) 0 sendPkg [] [];
  match r with
  | Err err => Ret (sendPkg, Some err)
  | Ok (passiveAssetProofFiles, passiveAssetProofSuffixes) =>
      ierr ← call (ImportProofs false passiveAssetProofFiles);
      match ierr with
      | Some err =>
          Ret (sendPkg, Some (ErrWrap "error importing passive proof" err))
      | None =>
          werr ← (if bool_decide (0 < length passiveAssetProofSuffixes)%nat
                  then call (WatchProofs passiveAssetProofSuffixes)
                  else Ret None);
          match werr with
          | Some err =>
              Ret (sendPkg, Some (ErrWrap "error watching proof" err))
          | None =>
              match parcel with
              | None =>
                  Panic "invalid memory address or nil pointer dereference"
              | Some parcel =>
                  if bool_decide (length (OutboundParcel.Inputs parcel) = 0%nat)
                  then
                    Ret (sendPackage.set_SendState SendStateTransferProofs
                           sendPkg, None)
                  else
                    let sendPkg :=
                      sendPackage.set_FinalProofs (Some ∅) sendPkg in
                    '(sendPkg, err) ←
                      storeProofs_outputs parcel
                        (OutboundParcel.Outputs parcel) sendPkg;
                    match err with
                    | Some err => Ret (sendPkg, Some err)
                    | None =>
                        Ret (sendPackage.set_SendState
                               SendStateTransferProofs sendPkg, None)
                    end
              end
          end
      end
  end.

(** [publishSubscriberEvent]: one send per subscriber, in the order
    [map_to_list] gives (the order of a Go map range is not fixed). *)
Fixpoint publishSubscriberEvent_range (subs : list (N * EventReceiver))
    (event : AssetSendEvent) : Prog unit :=
  match subs with
  | [] => Ret tt
  | (_, sub) :: subs' =>
      _ ← call (SubscriberSend sub event);
      publishSubscriberEvent_range subs' event
  end.

Definition publishSubscriberEvent (p : ChainPorter) (event : AssetSendEvent)
    : Prog unit :=
  publishSubscriberEvent_range (map_to_list (ChainPorter.subscribers p)) event.

(** [newAssetSendEvent]; [fn.CopyAll] and [Copy] give equal values. *)
Definition newAssetSendEvent (executedState : SendState) (pkg : sendPackage)
    : Prog AssetSendEvent :=
  now ← call TimeNow;
  Ret (AssetSendEvent.mk now executedState None (sendPackage.Parcel pkg)
         (sendPackage.VirtualPackets pkg) (sendPackage.PassiveAssets pkg)
         (sendPackage.AnchorTx pkg) (sendPackage.OutboundPkg pkg)).

Definition newAssetSendErrorEvent (err : error) (executedState : SendState)
    (pkg : sendPackage) : Prog AssetSendEvent :=
  now ← call TimeNow;
  Ret (AssetSendEvent.mk now executedState (Some err)
         (sendPackage.Parcel pkg) (sendPackage.VirtualPackets pkg)
         (sendPackage.PassiveAssets pkg) (sendPackage.AnchorTx pkg)
         (sendPackage.OutboundPkg pkg)).

(** Modelled from the spec: [fn.ParSlice] (package fn) runs the function
    on every element of the slice, in parallel, and gives an error when
    one of the calls did (§4.4 S8).  Here the calls run one after the
    other in slice order and the first error in that order is returned. *)
Fixpoint ParSlice {V : Type} (s : list V) (f : V -> Prog (option error))
    : Prog (option error) :=
  match s with
  | [] => Ret None
  | v :: s' =>
      e ← f v;
      es ← ParSlice s' f;
      Ret (match e with Some err => Some err | None => es end)
  end.

(** The search of [deliver] through [pkg.FinalProofs] for the file of a
    script key. *)
Definition findReceiverProof
    (finalProofs : option (gmap SerializedKey AnnotatedProof))
    (key : PublicKey) : option AnnotatedProof :=
  snd <$>
    (snd <$>
       list_find
         (fun kv : SerializedKey * AnnotatedProof =>
            Locator.ScriptKey (AnnotatedProof.Locator kv.2) = key)
         (map_to_list (default ∅ finalProofs))).

(** The test of [deliver] for a burn output. *)
Definition isBurnOutput (out : TransferOutput) : bool :=
  match TransferOutput.WitnessData out with
  | [] => false
  | witness :: _ =>
      IsBurnKey (ScriptKey.PubKey (TransferOutput.ScriptKey out)) witness
  end.

(** The closure [deliver] of [transferReceiverProof]. *)
Definition deliver (p : ChainPorter) (pkg : sendPackage)
    (out : TransferOutput) : Prog (option error) :=
  let key := ScriptKey.PubKey (TransferOutput.ScriptKey out) in
  if hasTweakedScriptKey (TransferOutput.ScriptKey out)
     && TransferOutput.ScriptKeyLocal out
  then Ret None
  else
    match IsUnSpendable (TransferOutput.ScriptKey out) with
    | Err err =>
        Ret (Some (ErrWrap "error checking if script key is unspendable" err))
    | Ok unSpendable =>
        if unSpendable then Ret None
        else if isBurnOutput out then Ret None
        else if bool_decide (String.length (TransferOutput.ProofCourierAddr out) = 0%nat)
        then Ret None
        else
          match findReceiverProof (sendPackage.FinalProofs pkg) key with
          | None =>
              Ret (Some (ErrNew "no proof found for output with script key"))
          | Some receiverProof =>
              match ParseCourierAddress (TransferOutput.ProofCourierAddr out) with
              | Err err =>
                  Ret (Some (ErrWrap "failed to parse proof courier address" err))
              | Ok proofCourierAddr =>
                  match Locator.AssetID (AnnotatedProof.Locator receiverProof) with
                  | None =>
                      Panic "invalid memory address or nil pointer dereference"
                  | Some assetID =>
                      let recipient :=
                        Recipient.mk key assetID (TransferOutput.Amount out) in
                      r ← call (NewCourier proofCourierAddr recipient);
                      match r with
                      | Err err =>
                          Ret (Some (ErrWrap "unable to initiate proof courier service handle" err))
                      | Ok courier =>
                          _ ← call (SetSubscribers courier
                                      (ChainPorter.subscribers p));
                          err ← call (DeliverProof courier receiverProof);
                          (* defer courier.Close() *)
                          _ ← call (Close courier);
                          match err with
                          | None => Ret None
                          | Some err =>
                              if errors_As_BackoffExecError err then Ret None
                              else
                                Ret (Some (ErrWrap "failed to deliver proof via courier service" err))
                          end
                      end
                  end
              end
          end
    end.

(** The loop of [transferReceiverProof] over
    [pkg.OutboundPkg.PassiveAssets]. *)
Fixpoint transferReceiverProof_passive (todo : list VPacket)
    (passiveAssetProofFiles : gmap AssetID (list AnnotatedProof))
    : Prog (result (gmap AssetID (list AnnotatedProof))) :=
  match todo with
  | [] => Ret (Ok passiveAssetProofFiles)
  | passivePkt :: todo' =>
      match VPacket.Outputs passivePkt with
      | [] => Panic "index out of range [0] with length 0"
      | passiveOut :: _ =>
          let id := Asset.ID (VOutput.Asset passiveOut) in
          let proofLocator :=
            Locator.mk (Some id)
              (ScriptKey.PubKey (VOutput.ScriptKey passiveOut))
              (Some (Proof_OutPoint (VOutput.ProofSuffix passiveOut))) in
          r ← call (FetchProof proofLocator);
          match r with
          | Err err =>
              Ret (Err (ErrWrap "error fetching passive asset proof file" err))
          | Ok proofFileBlob =>
              transferReceiverProof_passive todo'
                (<[id := default [] (passiveAssetProofFiles !! id)
                           ++ [AnnotatedProof.mk proofLocator proofFileBlob]]>
                   passiveAssetProofFiles)
          end
      end
  end.

(** [transferReceiverProof] works on the package behind its pointer. *)
Definition transferReceiverProof (p : ChainPorter) (pkg : sendPackage)
    : Prog (sendPackage * option error) :=
  match sendPackage.OutboundPkg pkg with
  | None => Panic "invalid memory address or nil pointer dereference"
  | Some outboundPkg =>
      err ← ParSlice (OutboundParcel.Outputs outboundPkg) (deliver p pkg);
      match err with
      | Some err => Ret (pkg, Some (ErrWrap "error delivering proof(s)" err))
      | None =>
          r ← transferReceiverProof_passive
                (OutboundParcel.PassiveAssets outboundPkg) ∅;
          match r with
          | Err err => Ret (pkg, Some err)
          | Ok passiveAssetProofFiles =>
              match sendPackage.TransferTxConfEvent pkg with
              | None =>
                  Panic "invalid memory address or nil pointer dereference"
              | Some confEvent =>
                  match TxConfirmation.BlockHash confEvent with
                  | None =>
                      Panic "invalid memory address or nil pointer dereference"
                  | Some blockHash =>
                      cerr ← call (ConfirmParcelDelivery
                        (AssetConfirmEvent.mk
                           (TxHash (OutboundParcel.AnchorTx outboundPkg))
                           blockHash
                           (int32_of_uint32 (TxConfirmation.BlockHeight confEvent))
                           (int32_of_uint32 (TxConfirmation.TxIndex confEvent))
                           (sendPackage.FinalProofs pkg)
                           passiveAssetProofFiles));
                      match cerr with
                      | Some err =>
                          Ret (pkg,
                               Some (ErrWrap "unable to log parcel delivery confirmation" err))
                      | None =>
                          event ← newAssetSendEvent SendStateComplete pkg;
                          _ ← publishSubscriberEvent p event;
                          Ret (sendPackage.set_SendState SendStateComplete pkg,
                               None)
                      end
                  end
              end
          end
      end
  end.

(** [waitForTransferTxConf] works on the package behind its pointer.  The
    [select] is one call whose answer tells the case that fired; the
    notifier hands over a confirmation that is not nil. *)
Definition waitForTransferTxConf (pkg : sendPackage)
    : Prog (sendPackage * option error) :=
  match sendPackage.OutboundPkg pkg with
  | None => Panic "invalid memory address or nil pointer dereference"
  | Some outboundPkg =>
      let txHash := TxHash (OutboundParcel.AnchorTx outboundPkg) in
      match MsgTx.TxOut (OutboundParcel.AnchorTx outboundPkg) with
      | [] => Panic "index out of range [0] with length 0"
      | txOut0 :: _ =>
          r ← call (RegisterConfirmationsNtfn txHash (TxOut.PkScript txOut0) 1
                      (OutboundParcel.AnchorTxHeightHint outboundPkg) true);
          match r with
          | Err err =>
              Ret (pkg,
                   Some (ErrWrap "unable to register for package tx conf" err))
          | Ok confNtfn =>
              sel ← call (SelectConf confNtfn);
              match sel with
              | SelConfirmed confEvent =>
                  Ret (sendPackage.set_SendState SendStateStoreProofs
                         (sendPackage.set_TransferTxConfEvent (Some confEvent)
                            pkg),
                       None)
              | SelErr err =>
                  Ret (pkg,
                       Some (ErrWrap "error whilst waiting for package tx confirmation" err))
              | SelCtxDone =>
                  (* confEvent == nil *)
                  Ret (pkg,
                       Some (ErrNew "got empty package tx confirmation event in batch"))
              | SelQuit => Ret (pkg, None)
              end
          end
      end
  end.

(** The loop of [importLocalAddresses] over [parcel.Outputs]. *)
Fixpoint importLocalAddresses_range (parcel : OutboundParcel)
    (todo : list TransferOutput) : Prog (option error) :=
  match todo with
  | [] => Ret None
  | out :: todo' =>
      if negb (TransferOutput.ScriptKeyLocal out)
      then importLocalAddresses_range parcel todo'
      else
        let anchorOutputIndex :=
          OutPoint.Index (Anchor.OutPoint (TransferOutput.Anchor out)) in
        match MsgTx.TxOut (OutboundParcel.AnchorTx parcel)
                !! N.to_nat anchorOutputIndex with
        | None => Panic "index out of range"
        | Some anchorOutput =>
            match ExtractWitnessProgramInfo (TxOut.PkScript anchorOutput) with
            | Err err => Ret (Some err)
            | Ok witProgram =>
                match schnorr_ParsePubKey witProgram with
                | Err err => Ret (Some err)
                | Ok anchorOutputKey =>
                    ierr ← call (ImportTaprootOutput anchorOutputKey);
                    match ierr with
                    | None => importLocalAddresses_range parcel todo'
                    | Some err =>
                        if strings_Contains (Error err) "already exists"
                        then importLocalAddresses_range parcel todo'
                        else Ret (Some err)
                    end
                end
            end
        end
  end.

Definition importLocalAddresses (parcel : option OutboundParcel)
    : Prog (option error) :=
  match parcel with
  | None => Panic "invalid memory address or nil pointer dereference"
  | Some parcel =>
      importLocalAddresses_range parcel (OutboundParcel.Outputs parcel)
  end.

(** [logPacket] writes to the log only, but indexes [vPkt.Outputs[0]] when
    the packet has no split root output. *)
Definition logPacket (vPkt : VPacket) : Prog unit :=
  match FirstNonSplitRootOutput vPkt with
  | Ok _ => Ret tt
  | Err _ =>
      match VPacket.Outputs vPkt with
      | [] => Panic "index out of range [0] with length 0"
      | _ :: _ => Ret tt
      end
  end.

(** The signing loop of the state [SendStateVirtualSign]; the packets are
    signed in place. *)
Fixpoint stateStep_sign (todo : list VPacket) (signed : list VPacket)
    : Prog (list VPacket * option error) :=
  match todo with
  | [] => Ret (signed, None)
  | vPkt :: todo' =>
      _ ← logPacket vPkt;
      '(vPkt, serr) ← call (SignVirtualPacket vPkt);
      match serr with
      | Some err =>
          Ret (signed ++ vPkt :: todo',
               Some (ErrWrap "unable to sign and commit virtual packet" err))
      | None => stateStep_sign todo' (signed ++ [vPkt])
      end
  end.

(** The logging loop of the state [SendStateAnchorSign]. *)
Fixpoint stateStep_logPackets (todo : list VPacket) : Prog unit :=
  match todo with
  | [] => Ret tt
  | vPkt :: todo' => _ ← logPacket vPkt; stateStep_logPackets todo'
  end.

(** The assets pruned from the input commitments, by outpoint. *)
Definition prunedAssetsOf (inputCommitments : gmap PrevID TapCommitment)
    : gmap OutPoint (list Asset) :=
  foldl
    (fun (prunedAssets : gmap OutPoint (list Asset))
         (kv : PrevID * TapCommitment) =>
       let op := PrevID.OutPoint kv.1 in
       <[op := default [] (prunedAssets !! op) ++ ExtractUnSpendable kv.2]>
         prunedAssets)
    ∅ (map_to_list inputCommitments).

(** The parcel of a package that is an address parcel with a manual fee
    rate. *)
Definition manualFeeRate (parcel : Parcel) : option N :=
  match parcel with
  | AddressParcel _ _ transferFeeRate => transferFeeRate
  | _ => None
  end.

(** [stateStep] takes the package by value and returns a pointer to its
    copy ([None] is the nil pointer) and the error. *)
Definition stateStep (currentPkg : sendPackage)
    : Prog (option sendPackage * option error) :=
  let state := sendPackage.SendState currentPkg in
  if state =? SendStateVirtualCommitmentSelect then
    match sendPackage.Parcel currentPkg with
    | AddressParcel _ destAddrs _ =>
        r ← call (FundAddressSend destAddrs);
        match r with
        | Err err =>
            Ret (None, Some (ErrWrap "unable to fund address send" err))
        | Ok fundSendRes =>
            let currentPkg :=
              sendPackage.set_VirtualPackets
                [FundedVPacket.VPacket fundSendRes] currentPkg in
            let currentPkg :=
              sendPackage.set_InputCommitments
                (FundedVPacket.InputCommitments fundSendRes) currentPkg in
            Ret (Some (sendPackage.set_SendState SendStateVirtualSign
                         currentPkg), None)
        end
    | _ =>
        Ret (None, Some (ErrNew "unable to cast parcel to address parcel"))
    end
  else if state =? SendStateVirtualSign then
    let vPackets := sendPackage.VirtualPackets currentPkg in
    match ValidateVPacketVersions vPackets with
    | Some err => Ret (None, Some err)
    | None =>
        '(vPackets, serr) ← stateStep_sign vPackets [];
        match serr with
        | Some err => Ret (None, Some err)
        | None =>
            let currentPkg :=
              sendPackage.set_VirtualPackets vPackets currentPkg in
            Ret (Some (sendPackage.set_SendState SendStateAnchorSign
                         currentPkg), None)
        end
    end
  else if state =? SendStateAnchorSign then
    fr ← match manualFeeRate (sendPackage.Parcel currentPkg) with
         | Some feeRate => Ret (Ok feeRate)
         | None => call (EstimateFee SendConfTarget)
         end;
    match fr with
    | Err err => Ret (None, Some (ErrWrap "unable to estimate fee" err))
    | Ok feeRate =>
        _ ← stateStep_logPackets (sendPackage.VirtualPackets currentPkg);
        pr ← call (CreatePassiveAssets (sendPackage.VirtualPackets currentPkg)
                     (sendPackage.InputCommitments currentPkg));
        match pr with
        | Err err =>
            Ret (None, Some (ErrWrap "unable to create passive assets" err))
        | Ok passiveAssets =>
            '(passiveAssets, serr) ← call (SignPassiveAssets passiveAssets);
            let currentPkg :=
              sendPackage.set_PassiveAssets passiveAssets currentPkg in
            match serr with
            | Some err =>
                Ret (None, Some (ErrWrap "unable to sign passive assets" err))
            | None =>
                ar ← call (AnchorVirtualTransactions
                             (AnchorVTxnsParams.mk feeRate
                                (sendPackage.VirtualPackets currentPkg)
                                (sendPackage.PassiveAssets currentPkg)));
                match ar with
                | Err err =>
                    Ret (None,
                         Some (ErrWrap "unable to anchor virtual transactions" err))
                | Ok anchorTx =>
                    let currentPkg :=
                      sendPackage.set_AnchorTx (Some anchorTx) currentPkg in
                    let prunedAssets :=
                      prunedAssetsOf (sendPackage.InputCommitments currentPkg) in
                    match validateReadyForPublish currentPkg prunedAssets with
                    | Some err =>
                        _ ← unlockInputs currentPkg;
                        Ret (None,
                             Some (ErrWrap "unable to validate send package" err))
                    | None =>
                        Ret (Some (sendPackage.set_SendState
                                     SendStateStorePreBroadcast currentPkg),
                             None)
                    end
                end
            end
        end
    end
  else if state =? SendStateStorePreBroadcast then
    hr ← call CurrentHeight;
    match hr with
    | Err err =>
        _ ← unlockInputs currentPkg;
        Ret (None, Some (ErrWrap "unable to get current height" err))
    | Ok currentHeight =>
        cr ← call (ConvertToTransfer currentHeight
                     (sendPackage.VirtualPackets currentPkg)
                     (sendPackage.AnchorTx currentPkg)
                     (sendPackage.PassiveAssets currentPkg));
        match cr with
        | Err err =>
            _ ← unlockInputs currentPkg;
            Ret (None,
                 Some (ErrWrap "unable to prepare parcel for storage" err))
        | Ok parcel =>
            let currentPkg :=
              sendPackage.set_OutboundPkg (Some parcel) currentPkg in
            now ← call TimeNow;
            lerr ← call (LogPendingParcel parcel defaultWalletLeaseIdentifier
                           (now + defaultBroadcastCoinLeaseDuration));
            match lerr with
            | Some err =>
                _ ← unlockInputs currentPkg;
                Ret (None,
                     Some (ErrWrap "unable to write send pkg to disk" err))
            | None =>
                Ret (Some (sendPackage.set_SendState SendStateBroadcast
                             currentPkg), None)
            end
        end
    end
  else if state =? SendStateBroadcast then
    ierr ← importLocalAddresses (sendPackage.OutboundPkg currentPkg);
    match ierr with
    | Some err =>
        _ ← unlockInputs currentPkg;
        Ret (None, Some (ErrWrap "unable to import local addresses" err))
    | None =>
        match sendPackage.OutboundPkg currentPkg with
        | None => Panic "invalid memory address or nil pointer dereference"
        | Some outboundPkg =>
            perr ← call (PublishTransaction
                           (OutboundParcel.AnchorTx outboundPkg));
            match perr with
            | Some err =>
                if errors_Is_ErrDoubleSpend err then
                  _ ← unlockInputs currentPkg;
                  Ret (None,
                       Some (ErrWrap "unable to broadcast transaction" err))
                else
                  Ret (None,
                       Some (ErrWrap "unable to broadcast transaction" err))
            | None =>
                _ ← call (DeliverTxBroadcastResp currentPkg);
                Ret (Some (sendPackage.set_SendState SendStateWaitTxConf
                             currentPkg), None)
            end
        end
    end
  else if state =? SendStateWaitTxConf then
    '(currentPkg, err) ← waitForTransferTxConf currentPkg;
    Ret (Some currentPkg, err)
  else if state =? SendStateStoreProofs then
    '(currentPkg, err) ← storeProofs currentPkg;
    Ret (Some currentPkg, err)
  else if state =? SendStateTransferProofs then
    let currentPkg := sendPackage.set_SendState SendStateComplete currentPkg in
    (* go func() { p.transferReceiverProof(&currentPkg) ... }() *)
    _ ← call (GoTransferReceiverProof currentPkg);
    Ret (Some currentPkg, None)
  else
    Ret (Some currentPkg, Some (ErrNew "unknown state")).

(** The goroutine started by the state [SendStateTransferProofs]. *)
Definition transferReceiverProof_goroutine (p : ChainPorter)
    (currentPkg : sendPackage) : Prog unit :=
  '(currentPkg, err) ← transferReceiverProof p currentPkg;
  match err with
  | Some err =>
      event ← newAssetSendErrorEvent err SendStateTransferProofs currentPkg;
      publishSubscriberEvent p event
  | None => Ret tt
  end.

(** [advanceState]: the loop runs while the state is below
    [SendStateComplete]; [fuel] bounds the number of rounds and [None]
    tells that it ran out.  The non-blocking [select] on the quit channel
    is the call [QuitClosed].  Of the log lines only the one that opens a
    round is a call, as it records the state that is executed;
    [log.Errorf] has no effect that is observed here. *)
Fixpoint advanceState (fuel : nat) (p : ChainPorter) (pkg : sendPackage)
    (kit : parcelKit) : Prog (option unit) :=
  if sendPackage.SendState pkg <? SendStateComplete then
    match fuel with
    | O => Ret None
    | S fuel' =>
        _ ← call (LogExecutingState (sendPackage.SendState pkg));
        quit ← call QuitClosed;
        if (quit : bool) then Ret (Some tt)
        else
          let stateToExecute := sendPackage.SendState pkg in
          '(updatedPkg, err) ← stateStep pkg;
          match err with
          | Some err =>
              _ ← call (ErrChanSend kit err);
              event ← newAssetSendErrorEvent err stateToExecute pkg;
              _ ← publishSubscriberEvent p event;
              Ret (Some tt)
          | None =>
              match updatedPkg with
              | None =>
                  Panic "invalid memory address or nil pointer dereference"
              | Some updatedPkg =>
                  _ ← (if sendPackage.SendState pkg <? SendStateComplete
                       then event ← newAssetSendEvent stateToExecute updatedPkg;
                            publishSubscriberEvent p event
                       else Ret tt);
                  advanceState fuel' p updatedPkg kit
              end
          end
    end
  else Ret (Some tt).

(** [RegisterSubscriber] and [RemoveSubscriber] work on the subscriber map
    under its mutex: the answer is the porter after the call and the
    error; [RemoveSubscriber] also tells on which receivers it called
    [Stop]. *)
Definition RegisterSubscriber (p : ChainPorter) (receiver : EventReceiver)
    (deliverExisting deliverFrom : bool) : ChainPorter * option error :=
  (ChainPorter.mk
     (<[EventReceiver.ID receiver := receiver]> (ChainPorter.subscribers p)),
   None).

Definition RemoveSubscriber (p : ChainPorter) (subscriber : EventReceiver)
    : ChainPorter * list EventReceiver * option error :=
  match ChainPorter.subscribers p !! EventReceiver.ID subscriber with
  | None => (p, [], Some (ErrNew "subscriber with ID not found"))
  | Some _ =>
      (ChainPorter.mk
         (delete (EventReceiver.ID subscriber) (ChainPorter.subscribers p)),
       [subscriber], None)
  end.

(** ** The order of the states *)

(** One successful step either moves the state forward, or leaves the
    state [SendStateWaitTxConf] as it is. *)
Definition advances (s s' : SendState) : Prop :=
  s < s' ∨ (s = SendStateWaitTxConf ∧ s' = s).

(** The outpoints a failing step is to call [UnlockInput] on, from the
    state of the package and the log of the step: in [SendStateAnchorSign]
    those of the anchor transaction just built, if one was; in
    [SendStateStorePreBroadcast] those of the package; in
    [SendStateBroadcast] those of the package when the failure is that of
    importing the local addresses (nothing was published) or a double
    spend; none in every other case. *)
Definition unlockPolicy (pkg : sendPackage) (t : list entry)
    : list OutPoint :=
  let state := sendPackage.SendState pkg in
  if state =? SendStateAnchorSign then
    match anchorAnswers t with
    | [Ok anchorTx] => lockedBy anchorTx
    | _ => []
    end
  else if state =? SendStateStorePreBroadcast then lockedUTXOs pkg
  else if state =? SendStateBroadcast then
    match publishAnswers t with
    | [] => lockedUTXOs pkg
    | [Some err] =>
        if errors_Is_ErrDoubleSpend err then lockedUTXOs pkg else []
    | _ => []
    end
  else [].

(** The states a run of [advanceState] may announce when it starts from a
    package in state [s]: the first is [s], each next one is reached from
    the one before by a successful step, and all are below
    [SendStateComplete]. *)
Definition stateTrail (s : SendState) (l : list SendState) : Prop :=
  match l with [] => True | s0 :: _ => s0 = s end
  ∧ Sorted advances l
  ∧ Forall (fun s0 => s0 < SendStateComplete) l.

(** ** Words of the claims about the proof files *)

(** [loc] is the locator under which [fetchInputProof] asks the archive
    for the proof file of [input]. *)
Definition locatorOfInput (input : PrevID) (loc : Locator) : Prop :=
  ∃ scriptKey, btcec_ParsePubKey (PrevID.ScriptKey input) = Ok scriptKey
    ∧ loc = Locator.mk (Some (PrevID.ID input)) scriptKey
              (Some (PrevID.OutPoint input)).

(** The archive was asked for the file of [input] and answered with a
    blob that decodes to [file]. *)
Definition fetched (input : PrevID) (c : Locator * result Blob)
    (file : File) : Prop :=
  ∃ blob, locatorOfInput input c.1 ∧ c.2 = Ok blob
    ∧ File_Decode blob = Ok file.

(** The inputs of the passive packets of a package. *)
Definition passiveInputs (passiveAssets : list VPacket) : list PrevID :=
  flat_map (fun vPkt => map VInput.PrevID (VPacket.Inputs vPkt)) passiveAssets.

(** [file] is filed under the script key of the asset of the first output
    of the passive packet [vPkt]. *)
Definition fileOfPassive (file : AnnotatedProof) (vPkt : VPacket) : Prop :=
  ∃ passiveOut, head (VPacket.Outputs vPkt) = Some passiveOut
    ∧ Locator.ScriptKey (AnnotatedProof.Locator file)
      = ScriptKey.PubKey (Asset.ScriptKey (VOutput.Asset passiveOut)).

(** No input of the parcel has a [PrevID] equal to the [PrevID] of a
    witness of the suffix. *)
Definition noInputMatches (inputs : list TransferInput) (parsedSuffix : Proof)
    : Prop :=
  ∀ inp witness, inp ∈ inputs -> witness ∈ Proof_Witnesses parsedSuffix ->
    Witness.PrevID witness ≠ Some (TransferInput.PrevID inp).

(** The parameters [updateAssetProofFile] hands to
    [UpdateTransitionProof]. *)
Definition proofParams (confEvent : TxConfirmation) : BaseProofParams :=
  BaseProofParams.mk (TxConfirmation.Block confEvent)
    (TxConfirmation.BlockHeight confEvent) (TxConfirmation.Tx confEvent)
    (int_of_uint32 (TxConfirmation.TxIndex confEvent)).

(** Every fetch of the entry is for one of [inputs]. *)
Definition fetchesOf (inputs : list PrevID) (en : entry) : Prop :=
  ∀ c, c ∈ fetchCall en -> ∃ input, input ∈ inputs ∧ locatorOfInput input c.1.

(** The messages of the errors of the passive stage of [storeProofs]. *)
Definition passiveStageError (err : error) : Prop :=
  ∃ inner,
    err = ErrWrap "failed to generate an updated proof file for passive asset" inner
    ∨ err = ErrWrap "error importing passive proof" inner
    ∨ err = ErrWrap "error watching proof" inner.

(** ** Words of the claims about the delivery *)







(** ** The quit channel *)

(** The handler treats the quit channel of the porter as Go does a closed
    channel: [closed] tells from the world whether it is closed; once
    closed it stays closed, the [select] of [waitForTransferTxConf] takes
    the quit case only when it is closed, and the test of [advanceState]
    then sees it closed. *)
Definition quitMonotone {W : Type} (h : handler W) (closed : W -> bool)
    : Prop :=
  (∀ (X : Type) (e : porterE X) (w : W),
     closed w = true -> closed (h X e w).2 = true)
  ∧ (∀ (confNtfn : N) (w : W),
       (h _ (SelectConf confNtfn) w).1 = SelQuit ->
       closed (h _ (SelectConf confNtfn) w).2 = true)
  ∧ (∀ w : W, closed w = true -> (h _ QuitClosed w).1 = true).

(** ** What the steps do

    The case analyses of the properties below, as predicates on the log
    and the end of a run. *)

(** The step of the state [SendStateBroadcast], by the answers of
    [PublishTransaction]. *)
Definition BroadcastPost (pkg : sendPackage) (t : list entry)
    (o : outcome (option sendPackage * option error)) : Prop :=
  registerCalls t = [] ∧ executingStates t = [] ∧ anchorAnswers t = []
  ∧ selectAnswers t = []
  ∧ match publishAnswers t with
    | [] =>
        (∃ e, o = Done (None, Some (ErrWrap "unable to import local addresses" e))
              ∧ unlockCalls t = lockedUTXOs pkg)
        ∨ (∃ msg, o = Panicked msg ∧ unlockCalls t = [])
    | [None] =>
        o = Done (Some (sendPackage.set_SendState SendStateWaitTxConf pkg),
                  None)
        ∧ unlockCalls t = []
    | [Some err] =>
        o = Done (None, Some (ErrWrap "unable to broadcast transaction" err))
        ∧ unlockCalls t
          = (if errors_Is_ErrDoubleSpend err then lockedUTXOs pkg else [])
    | _ => False
    end.

(** What [stateStep] does to the state and to the wallet locks. *)
Definition StepPost (pkg : sendPackage) (t : list entry)
    (o : outcome (option sendPackage * option error)) : Prop :=
  executingStates t = []
  ∧ match o with
    | Done (Some pkg', None) =>
        advances (sendPackage.SendState pkg) (sendPackage.SendState pkg')
        ∧ unlockCalls t = []
    | Done (_, Some _) => unlockCalls t = unlockPolicy pkg t
    | Done (None, None) => False
    | Panicked _ => True
    end.

(** What [storeProofs] does for a parcel without inputs. *)
Definition NoInputsPost (pkg : sendPackage) (t : list entry)
    (o : outcome (sendPackage * option error)) : Prop :=
  verifyCalls t = []
  ∧ Forall (fun c => ∃ input, input ∈ passiveInputs (sendPackage.PassiveAssets pkg)
                       ∧ locatorOfInput input c.1)
      (fetchCalls t)
  ∧ (importCalls t = []
     ∨ ∃ files, importCalls t = [(false, files)]
         ∧ Forall2 fileOfPassive files (sendPackage.PassiveAssets pkg))
  ∧ forall pkg' err, o = Done (pkg', err) ->
      sendPackage.FinalProofs pkg' = sendPackage.FinalProofs pkg
      ∧ match err with
        | None =>
            sendPackage.SendState pkg' = SendStateTransferProofs
            ∧ ∃ files, importCalls t = [(false, files)]
        | Some e =>
            passiveStageError e
            ∧ sendPackage.SendState pkg' = sendPackage.SendState pkg
        end.



(** ** The porter and its subscribers *)

(** [NewChainPorter]: the subscriber map starts out empty; the
    configuration is the handler of a run. *)
Definition NewChainPorter : ChainPorter := ChainPorter.mk ∅.

(** Every subscriber is filed under its own ID. *)
Definition wellKeyed (p : ChainPorter) : Prop :=
  ∀ id sub, ChainPorter.subscribers p !! id = Some sub ->
    EventReceiver.ID sub = id.

(** The loop of [Stop] over the subscriber map, which deletes from the map
    it ranges over: an entry that is deleted before the range reaches it
    is not produced.  [todo] is the map as it was when the range started,
    in the order of the range. *)
Fixpoint Stop_range (todo : list (N * EventReceiver))
    (subscribers : gmap N EventReceiver) (stopped : list EventReceiver)
    : gmap N EventReceiver * list EventReceiver :=
  match todo with
  | [] => (subscribers, stopped)
  | (id, subscriber) :: todo' =>
      match subscribers !! id with
      | None => Stop_range todo' subscribers stopped
      | Some _ =>
          (* subscriber.Stop(); delete(p.subscribers, subscriber.ID()) *)
          Stop_range todo'
            (delete (EventReceiver.ID subscriber) subscribers)
            (stopped ++ [subscriber])
      end
  end.

(** [Stop]: the answer is the porter after the call, the receivers on
    which [Stop] was called, and the error.  [p.Wg.Wait()] waits for the
    goroutines of the porter and changes nothing here. *)
Definition Stop (s : Stoppable.t)
    : Stoppable.t * list EventReceiver * option error :=
  if Stoppable.stopOnce s then (s, [], None)
  else
    let subscribers := ChainPorter.subscribers (Stoppable.porter s) in
    let '(subscribers, stopped) :=
      Stop_range (map_to_list subscribers) subscribers [] in
    (Stoppable.mk (ChainPorter.mk subscribers) true true, stopped, None).

(** ** Words about the import of the local addresses *)

(** The key [importLocalAddresses] imports for an output: the Taproot key
    of the output of the anchor transaction the output is anchored in.
    [None]: the transaction has no output of that index. *)
Definition anchorOutputKeyOf (parcel : OutboundParcel) (out : TransferOutput)
    : option (result PublicKey) :=
  match MsgTx.TxOut (OutboundParcel.AnchorTx parcel)
          !! N.to_nat (OutPoint.Index
                         (Anchor.OutPoint (TransferOutput.Anchor out))) with
  | None => None
  | Some anchorOutput =>
      Some match ExtractWitnessProgramInfo (TxOut.PkScript anchorOutput) with
           | Err err => Err err
           | Ok witProgram => schnorr_ParsePubKey witProgram
           end
  end.

(** The outputs of a parcel that go to this node. *)
Definition localOutputs (outputs : list TransferOutput)
    : list TransferOutput :=
  filter (fun out => TransferOutput.ScriptKeyLocal out = true) outputs.

(** An answer of [ImportTaprootOutput] after which the porter goes on:
    nil, or an error that says the output is known. *)
Definition importAccepted (answer : option error) : bool :=
  match answer with
  | None => true
  | Some err => strings_Contains (Error err) "already exists"
  end.

(** What a run of [importLocalAddresses] over the local outputs [locals]
    looks like: it makes import calls only, for the keys of the local
    outputs in order; either every answer was accepted, and the run went
    through all of them or stopped at the next output for its key; or the
    last answer was refused and is what the run returns. *)
Definition ImportPost (parcel : OutboundParcel)
    (locals : list TransferOutput) (t : list entry)
    (o : outcome (option error)) : Prop :=
  let imports := importKeyCalls t in
  length t = length imports
  ∧ ((fun c : PublicKey * option error => Some (Ok c.1)) <$> imports)
      `prefix_of` (anchorOutputKeyOf parcel <$> locals)
  ∧ ((Forall (fun c => importAccepted c.2 = true) imports
      ∧ match o with
        | Done None => length imports = length locals
        | Done (Some err) =>
            ∃ out, locals !! length imports = Some out
                   ∧ anchorOutputKeyOf parcel out = Some (Err err)
        | Panicked _ =>
            ∃ out, locals !! length imports = Some out
                   ∧ anchorOutputKeyOf parcel out = None
        end)
     ∨ (∃ init key err,
          imports = init ++ [(key, Some err)]
          ∧ Forall (fun c => importAccepted c.2 = true) init
          ∧ importAccepted (Some err) = false
          ∧ o = Done (Some err))).

(** ** Words about single steps *)

(** What a successful step does to the state: it moves it to the next
    one, or it is the wait for the confirmation that ended on the quit
    channel and left the package as it was. *)
Definition SuccessorPost (pkg : sendPackage) (t : list entry)
    (o : outcome (option sendPackage * option error)) : Prop :=
  ∀ pkg', o = Done (Some pkg', None) ->
    sendPackage.SendState pkg' = sendPackage.SendState pkg + 1
    ∨ (sendPackage.SendState pkg = SendStateWaitTxConf ∧ pkg' = pkg
       ∧ selectAnswers t = [SelQuit]).


(** ** Words about the loop *)


(** ** Words about the stored proofs *)

(** Every import of the list is that of one proof, without replacing, and
    comes directly after a verification of the blob of that proof that
    answered nil. *)
Fixpoint verifiedImports (calls : list archiveCall) : Prop :=
  match calls with
  | [] => True
  | CallVerify blob answer :: rest =>
      match answer, rest with
      | None, CallImport replace proofs _ :: rest' =>
          replace = false
          ∧ (∃ proof, proofs = [proof] ∧ blob = AnnotatedProof.Blob proof)
          ∧ verifiedImports rest'
      | _, _ => verifiedImports rest
      end
  | CallImport _ _ _ :: _ => False
  | CallWatch _ _ :: rest => verifiedImports rest
  end.

(** Every proof of the map is filed under the serialized script key of
    its locator. *)
Definition keyedByScriptKey (m : gmap SerializedKey AnnotatedProof) : Prop :=
  ∀ key proof, m !! key = Some proof ->
    ToSerialized (Locator.ScriptKey (AnnotatedProof.Locator proof)) = key.

(** The keys under which [storeProofs] files the proofs of the outputs. *)
Definition outputKeys (outputs : list TransferOutput) : gset SerializedKey :=
  list_to_set
    ((fun out => ToSerialized (ScriptKey.PubKey (TransferOutput.ScriptKey out)))
       <$> outputs).

(** ** Words about the confirmation of a delivery *)

(** The locator under which [transferReceiverProof] asks the archive for
    the proof file of a passive packet (that of its first output); [None]
    when the packet has no output. *)
Definition passiveLocator (passivePkt : VPacket) : option Locator :=
  match VPacket.Outputs passivePkt with
  | [] => None
  | passiveOut :: _ =>
      Some (Locator.mk (Some (Asset.ID (VOutput.Asset passiveOut)))
              (ScriptKey.PubKey (VOutput.ScriptKey passiveOut))
              (Some (Proof_OutPoint (VOutput.ProofSuffix passiveOut))))
  end.

(** The proof files the archive has answered for the asset [id], in the
    order of the fetches, each with the locator it was asked under. *)
Definition fetchedFilesOf (id : AssetID) (calls : list (Locator * result Blob))
    : list AnnotatedProof :=
  flat_map
    (fun c : Locator * result Blob =>
       match c.2 with
       | Ok blob =>
           if decide (Locator.AssetID c.1 = Some id)
           then [AnnotatedProof.mk c.1 blob] else []
       | Err _ => []
       end)
    calls.

(** What [transferReceiverProof] writes to the export log and tells the
    subscribers, for a package with the parcel [parcel].  Without a
    confirmation in the export log it sends no event and does not return
    nil.  It writes at most one confirmation: that of the anchor
    transaction of the parcel in the block of the confirmation event of
    the package, with the final proofs of the package and, for every
    asset, the proof files the archive answered for the passive packets
    of the parcel; it returns nil, with the state [SendStateComplete],
    exactly when the export log answers nil, and then sends each
    subscriber one event of that state; on an error of the export log it
    sends no event. *)
Definition TransferPost (p : ChainPorter) (pkg : sendPackage)
    (parcel : OutboundParcel) (t : list entry)
    (o : outcome (sendPackage * option error)) : Prop :=
  match confirmAnswers t with
  | [] => subscriberSends t = [] ∧ ∀ pkg', o ≠ Done (pkg', None)
  | [(conf, answer)] =>
      (∃ confEvent blockHash,
         sendPackage.TransferTxConfEvent pkg = Some confEvent
         ∧ TxConfirmation.BlockHash confEvent = Some blockHash
         ∧ conf = AssetConfirmEvent.mk
                    (TxHash (OutboundParcel.AnchorTx parcel)) blockHash
                    (int32_of_uint32 (TxConfirmation.BlockHeight confEvent))
                    (int32_of_uint32 (TxConfirmation.TxIndex confEvent))
                    (sendPackage.FinalProofs pkg)
                    (AssetConfirmEvent.PassiveAssetProofFiles conf)
         ∧ (TxConfirmation.BlockHeight confEvent < 2 ^ 31 ->
            AssetConfirmEvent.BlockHeight conf
            = Z.of_N (TxConfirmation.BlockHeight confEvent)))
      ∧ Some <$> (fetchCalls t).*1
        = passiveLocator <$> OutboundParcel.PassiveAssets parcel
      ∧ (∀ assetID,
           default [] (AssetConfirmEvent.PassiveAssetProofFiles conf !! assetID)
           = fetchedFilesOf assetID (fetchCalls t))
      ∧ match answer with
        | None =>
            o = Done (sendPackage.set_SendState SendStateComplete pkg, None)
            ∧ ∃ now,
                subscriberSends t
                = (fun kv : N * EventReceiver =>
                     (kv.2,
                      AssetSendEvent.mk now SendStateComplete None
                        (sendPackage.Parcel pkg)
                        (sendPackage.VirtualPackets pkg)
                        (sendPackage.PassiveAssets pkg)
                        (sendPackage.AnchorTx pkg)
                        (sendPackage.OutboundPkg pkg)))
                  <$> map_to_list (ChainPorter.subscribers p)
        | Some err =>
            o = Done (pkg,
                      Some (ErrWrap "unable to log parcel delivery confirmation"
                              err))
            ∧ subscriberSends t = []
        end
  | _ => False
  end.

(** ** The passive stage of [storeProofs] *)

(** [annotated] is the proof file [updateAssetProofFile] makes of
    [proofSuffix] for [inputs] when the archive has given the answers
    [calls], and [suffix] is what the suffix has become: the confirmation
    is there and the suffix has taken its block, height, transaction and
    index; the archive was asked, in order, for the file of every input and
    every answer decoded; the files of the inputs after the first are
    appended to the additional inputs of the suffix; the blob is the
    encoding of the file of the first input with that suffix appended, and
    the locator is made of the asset ID of the first input, the public key
    of the new script key and the outpoint of the suffix. *)
Definition updatedFile (confEvent : option TxConfirmation)
    (inputs : list PrevID) (proofSuffix : Proof) (newScriptKey : ScriptKey)
    (calls : list (Locator * result Blob)) (suffix : Proof)
    (annotated : AnnotatedProof) : Prop :=
  ∃ conf firstInput enriched trunk files extended,
    confEvent = Some conf
    ∧ head inputs = Some firstInput
    ∧ UpdateTransitionProof (proofParams conf) proofSuffix = (enriched, None)
    ∧ Forall3 fetched inputs calls (trunk :: files)
    ∧ suffix = Proof.set_AdditionalInputs
                 (Proof.AdditionalInputs enriched ++ files) enriched
    ∧ AppendProof trunk suffix = Ok extended
    ∧ File_Encode extended = Ok (AnnotatedProof.Blob annotated)
    ∧ AnnotatedProof.Locator annotated
      = Locator.mk (Some (PrevID.ID firstInput))
          (ScriptKey.PubKey newScriptKey) (Some (Proof_OutPoint suffix)).

(** The file and the suffix [storeProofs] makes for the passive packet
    [vPkt]: the updated file of the suffix of its first output, for the
    inputs of the packet, under the script key of the asset of that
    output. *)
Definition passiveFile (confEvent : option TxConfirmation) (vPkt : VPacket)
    (calls : list (Locator * result Blob)) (suffix : Proof)
    (file : AnnotatedProof) : Prop :=
  ∃ passiveOut,
    head (VPacket.Outputs vPkt) = Some passiveOut
    ∧ updatedFile confEvent (map VInput.PrevID (VPacket.Inputs vPkt))
        (VOutput.ProofSuffix passiveOut)
        (Asset.ScriptKey (VOutput.Asset passiveOut)) calls suffix file.

(** The files and suffixes of the passive packets, one per packet and in
    their order, with the answers of the archive in the order of the
    calls. *)
Inductive passiveFiles (confEvent : option TxConfirmation)
    : list VPacket -> list (Locator * result Blob) -> list Proof ->
      list AnnotatedProof -> Prop :=
| passiveFiles_nil : passiveFiles confEvent [] [] [] []
| passiveFiles_cons vPkt rest calls calls' suffix file suffixes files :
    passiveFile confEvent vPkt calls suffix file ->
    passiveFiles confEvent rest calls' suffixes files ->
    passiveFiles confEvent (vPkt :: rest) (calls ++ calls')
      (suffix :: suffixes) (file :: files).

(** The fetch of the file of [input] fails: its script key does not
    parse and the archive is not asked, or the archive is asked under the
    locator of the input and its answer is no file (an error, or a blob
    that does not decode). *)
Definition fetchFails (input : PrevID) (calls : list (Locator * result Blob))
    : Prop :=
  (∃ err, btcec_ParsePubKey (PrevID.ScriptKey input) = Err err ∧ calls = [])
  ∨ ∃ c, calls = [c] ∧ locatorOfInput input c.1
      ∧ ∀ file, ¬ fetched input c file.

(** The fetches for [inputs] stop at the first that fails. *)
Definition fetchesFail (inputs : list PrevID)
    (calls : list (Locator * result Blob)) : Prop :=
  ∃ got input rest callsGot callsLast files,
    inputs = got ++ input :: rest
    ∧ calls = callsGot ++ callsLast
    ∧ Forall3 fetched got callsGot files
    ∧ fetchFails input callsLast.

(** [updateAssetProofFile] makes no file, by a panic when [panics] and
    with an error otherwise, in the order of its steps: the confirmation is
    nil (panic); the transition proof is not updated; there is no input
    (panic); a fetch fails; the suffix cannot be appended to the file of
    the first input or the result has no encoding.  [calls] are the
    answers of the archive until then. *)
Definition updateFails (confEvent : option TxConfirmation)
    (inputs : list PrevID) (proofSuffix : Proof)
    (calls : list (Locator * result Blob)) (panics : bool) : Prop :=
  match confEvent with
  | None => calls = [] ∧ panics = true
  | Some conf =>
      match UpdateTransitionProof (proofParams conf) proofSuffix with
      | (_, Some _) => calls = [] ∧ panics = false
      | (enriched, None) =>
          (inputs = [] ∧ calls = [] ∧ panics = true)
          ∨ (fetchesFail inputs calls ∧ panics = false)
          ∨ (∃ trunk files,
               Forall3 fetched inputs calls (trunk :: files)
               ∧ panics = false
               ∧ ¬ ∃ extended blob,
                     AppendProof trunk
                       (Proof.set_AdditionalInputs
                          (Proof.AdditionalInputs enriched ++ files) enriched)
                     = Ok extended
                     ∧ File_Encode extended = Ok blob)
      end
  end.

(** [storeProofs] makes no file for the passive packet [vPkt]: the packet
    has no output (panic), or the update of the suffix of its first output
    fails. *)
Definition passiveFails (confEvent : option TxConfirmation) (vPkt : VPacket)
    (calls : list (Locator * result Blob)) (panics : bool) : Prop :=
  match VPacket.Outputs vPkt with
  | [] => calls = [] ∧ panics = true
  | passiveOut :: _ =>
      updateFails confEvent (map VInput.PrevID (VPacket.Inputs vPkt))
        (VOutput.ProofSuffix passiveOut) calls panics
  end.

(** The passive stage has stopped at a packet: the files of the packets
    before it were made, and the making of its file failed. *)
Definition passiveStuck (confEvent : option TxConfirmation)
    (passive : list VPacket) (calls : list (Locator * result Blob))
    (panics : bool) : Prop :=
  ∃ made vPkt rest calls1 calls2 suffixes files,
    passive = made ++ vPkt :: rest
    ∧ calls = calls1 ++ calls2
    ∧ passiveFiles confEvent made calls1 suffixes files
    ∧ passiveFails confEvent vPkt calls2 panics.

(** [storeProofs] has returned nil for [pkg]: the state is
    [SendStateTransferProofs] and the final proofs are as they were. *)
Definition advancedToTransfer (pkg : sendPackage)
    (o : outcome (sendPackage * option error)) : Prop :=
  ∃ pkg', o = Done (pkg', None)
    ∧ sendPackage.SendState pkg' = SendStateTransferProofs
    ∧ sendPackage.FinalProofs pkg' = sendPackage.FinalProofs pkg.

(** [storeProofs] has returned [err] for [pkg]: the state and the final
    proofs are as they were. *)
Definition stoppedWith (pkg : sendPackage) (err : error)
    (o : outcome (sendPackage * option error)) : Prop :=
  ∃ pkg', o = Done (pkg', Some err)
    ∧ sendPackage.SendState pkg' = sendPackage.SendState pkg
    ∧ sendPackage.FinalProofs pkg' = sendPackage.FinalProofs pkg.

End Porter.

(** ** A concrete setting

    One implementation of the external functions and collaborators that
    answer every call with success, used to run the porter on concrete
    packages. *)
Module Example.

Definition proofOf (core : bytes) : Proof := Proof.mk core [].

#[global] Instance external : External := {|
  TxHash := fun tx => N.of_nat (length (MsgTx.TxOut tx));
  ExtractWitnessProgramInfo := fun pkScript => Ok pkScript;
  schnorr_ParsePubKey := fun program => Ok (N.of_nat (length program));
  btcec_ParsePubKey := fun key => Ok key;
  ToSerialized := fun key => key;
  IsUnSpendable := fun key => Ok (ScriptKey.PubKey key =? 0);
  IsBurnKey := fun _ witness =>
    bool_decide (length (Witness.TxWitness witness) = 2%nat);
  UpdateTransitionProof := fun params suffix =>
    (Proof.mk (Proof.Core suffix ++ [Byte.x01])
       (Proof.AdditionalInputs suffix), None);
  Proof_Decode := fun b => Ok (proofOf b);
  Proof_OutPoint := fun suffix =>
    OutPoint.mk (N.of_nat (length (Proof.Core suffix))) 0;
  Proof_Witnesses := fun suffix =>
    [Witness.mk
       (Some (PrevID.mk (OutPoint.mk (N.of_nat (length (Proof.Core suffix))) 0)
                7 11))
       []];
  File_Decode := fun blob => Ok (File.mk 0 [blob]);
  File_Encode := fun file => Ok (concat (File.Proofs file));
  AppendProof := fun file suffix =>
    Ok (File.mk (File.Version file)
          (File.Proofs file
             ++ [Proof.Core suffix
                   ++ concat (flat_map File.Proofs
                                (Proof.AdditionalInputs suffix))]));
  ParseCourierAddress := fun addr => Ok addr;
  ValidateVPacketVersions := fun _ => None;
  ExtractUnSpendable := fun _ => [];
  SendConfTarget := 6;
  FirstNonSplitRootOutput := fun vPkt =>
    match VPacket.Outputs vPkt with
    | out :: _ => Ok out
    | [] => Err (ErrNew "no split root output found in virtual packet")
    end;
  validateReadyForPublish := fun _ _ => None;
  defaultWalletLeaseIdentifier := [Byte.x01];
  defaultBroadcastCoinLeaseDuration := 600
|}.

Definition op1 : OutPoint := OutPoint.mk 1 0.
Definition op2 : OutPoint := OutPoint.mk 2 1.

Definition key (k : PublicKey) : ScriptKey := ScriptKey.mk k None.
Definition localKey (k : PublicKey) : ScriptKey :=
  ScriptKey.mk k (Some (TweakedScriptKey.mk k [])).

Definition anchorTx : AnchorTransaction :=
  AnchorTransaction.mk (Some (FundedPsbt.mk [] 0 [op1; op2]))
    (MsgTx.mk [op1; op2] [TxOut.mk 1000 [Byte.x51]]) 250.

Definition msgTx : MsgTx := MsgTx.mk [op1; op2] [TxOut.mk 1000 [Byte.x51]].

Definition confEvent : TxConfirmation :=
  TxConfirmation.mk (Some 99) 800000 3 msgTx (MsgBlock.mk [] [msgTx]).

Definition vPacket : VPacket :=
  VPacket.mk
    [VInput.mk (PrevID.mk op1 7 11)]
    [VOutput.mk 5000 (Asset.mk 7 5000 (key 21) []) (key 21) (proofOf [])].

Definition kit : parcelKit := parcelKit.mk 1 2.

(** What a collaborator answers when all goes well. *)
Definition answer (X : Type) (e : porterE X) : X :=
  match e in porterE X return X with
  | FundAddressSend _ => Ok (FundedVPacket.mk vPacket ∅)
  | SignVirtualPacket vPkt => (vPkt, None)
  | CreatePassiveAssets _ _ => Ok []
  | SignPassiveAssets passiveAssets => (passiveAssets, None)
  | AnchorVirtualTransactions _ => Ok anchorTx
  | ImportTaprootOutput _ => None
  | UnlockInput _ => None
  | EstimateFee _ => Ok 253
  | CurrentHeight => Ok 799999
  | PublishTransaction _ => None
  | RegisterConfirmationsNtfn _ _ _ _ _ => Ok 1
  | SelectConf _ => SelConfirmed confEvent
  | LogPendingParcel _ _ _ => None
  | ConfirmParcelDelivery _ => None
  | ImportProofs _ _ => None
  | FetchProof id => Ok [Byte.x00]
  | Verify _ => None
  | WatchProofs _ => None
  | NewCourier _ _ => Ok 5
  | SetSubscribers _ _ => tt
  | DeliverProof _ _ => None
  | Close _ => tt
  | ConvertToTransfer currentHeight _ _ passiveAssets =>
      Ok (OutboundParcel.mk msgTx currentHeight
            [TransferInput.mk (PrevID.mk op1 7 11) 5000]
            [TransferOutput.mk (Anchor.mk (OutPoint.mk 1 0) 1000) (key 21)
               false 5000 [] [Byte.x00] "universerpc://courier:10029"]
            passiveAssets)
  | QuitClosed => false
  | ErrChanSend _ _ => tt
  | DeliverTxBroadcastResp _ => tt
  | SubscriberSend _ _ => tt
  | TimeNow => 1700000000
  | LogExecutingState _ => tt
  | GoTransferReceiverProof _ => tt
  end.

(** The handler without a world: every call succeeds. *)
Definition allGood : handler unit := fun X e w => (answer X e, w).

(** As [allGood], with the answer of one call replaced. *)
Definition importFails : handler unit := fun X e w =>
  (match e in porterE X return X with
   | ImportTaprootOutput _ => Some (ErrNew "wallet is locked")
   | e' => answer _ e'
   end, w).

Definition doubleSpend : handler unit := fun X e w =>
  (match e in porterE X return X with
   | PublishTransaction _ =>
       Some (ErrWrap "rpc error: code = Unknown desc" ErrDoubleSpend)
   | e' => answer _ e'
   end, w).

Definition logFails : handler unit := fun X e w =>
  (match e in porterE X return X with
   | LogPendingParcel _ _ _ => Some (ErrNew "database is locked")
   | e' => answer _ e'
   end, w).

(** The porter is stopped while the runner waits for the confirmation:
    the world tells whether the quit channel is closed. *)
Definition shuttingDown : handler bool := fun X e w =>
  match e in porterE X return X * bool with
  | SelectConf _ => (SelQuit, true)
  | QuitClosed => (w, w)
  | e' => (answer _ e', w)
  end.

Definition remoteOut : TransferOutput :=
  TransferOutput.mk (Anchor.mk (OutPoint.mk 1 0) 1000) (key 21) false 1200
    [] [Byte.x00] "universerpc://courier:10029".

Definition changeOut : TransferOutput :=
  TransferOutput.mk (Anchor.mk (OutPoint.mk 1 0) 1000) (localKey 22) true
    3800 [] [Byte.x00] "".

Definition input1 : PrevID := PrevID.mk op1 7 11.
Definition input2 : PrevID := PrevID.mk op2 7 12.

Definition parcel : OutboundParcel :=
  OutboundParcel.mk msgTx 799999 [TransferInput.mk input1 5000]
    [remoteOut; changeOut] [].

(** A package of a send with change, as it stands in the state [s] after
    the anchor transaction was built and the parcel stored. *)
Definition pkgAt (s : SendState) : sendPackage :=
  sendPackage.mk s (AddressParcel kit ["taprt1qqqsqq"] None) [vPacket] ∅ []
    (Some anchorTx) (Some parcel) None (Some confEvent).

(** A fresh package for an address parcel. *)
Definition pkgNew : sendPackage :=
  sendPackage.mk SendStateVirtualCommitmentSelect
    (AddressParcel kit ["taprt1qqqsqq"] None) [] ∅ [] None None None None.

(** A package that only carries a passive asset. *)
Definition pkgPassiveOnly : sendPackage :=
  sendPackage.mk SendStateStoreProofs (PreSignedParcel kit [] ∅) [] ∅
    [vPacket] (Some anchorTx)
    (Some (OutboundParcel.mk msgTx 799999 [] [] [vPacket])) None
    (Some confEvent).

(** A package whose only output has a suffix without a witness for the
    input of the parcel. *)
Definition strayOut : TransferOutput :=
  TransferOutput.mk (Anchor.mk (OutPoint.mk 1 0) 1000) (key 21) false 5000
    [] [] "universerpc://courier:10029".

Definition strayParcel : OutboundParcel :=
  OutboundParcel.mk msgTx 799999 [TransferInput.mk input1 5000]
    [strayOut] [].

Definition pkgStray : sendPackage :=
  sendPackage.mk SendStateStoreProofs (PreSignedParcel kit [] ∅) [] ∅ []
    (Some anchorTx) (Some strayParcel) None (Some confEvent).

(** The package of [pkgAt] when its proofs are stored. *)
Definition finalProof : AnnotatedProof :=
  AnnotatedProof.mk (Locator.mk (Some 7) 21 (Some op1)) [Byte.x00; Byte.x01].

Definition pkgStored : sendPackage :=
  sendPackage.set_FinalProofs (Some {[ 21 := finalProof ]})
    (pkgAt SendStateComplete).

Definition porter : ChainPorter :=
  ChainPorter.mk {[ 1 := EventReceiver.mk 1 ]}.

(** The value a run ended with, [d] if it panicked. *)
Definition returned {R : Type} (d : R) (o : outcome R) : R :=
  match o with
  | Done r => r
  | Panicked _ => d
  end.

End Example.
(** More packages of the concrete setting. *)
Module Example2.
Import Example.

(** A pre-signed parcel that was given the first state of an address
    parcel. *)
Definition pkgPreSigned : sendPackage :=
  sendPackage.mk SendStateVirtualCommitmentSelect (PreSignedParcel kit [] ∅)
    [] ∅ [] None None None None.

(** The porter of the example with its stop state. *)
Definition running : Stoppable.t := Stoppable.mk porter false false.

(** The event of a completed transfer of the example package. *)
Definition completeEvent : AssetSendEvent :=
  let pkg := pkgAt SendStateComplete in
  AssetSendEvent.mk 0 SendStateComplete None (sendPackage.Parcel pkg)
    (sendPackage.VirtualPackets pkg) (sendPackage.PassiveAssets pkg)
    (sendPackage.AnchorTx pkg) (sendPackage.OutboundPkg pkg).

End Example2.


(** * Properties *)

(** ** Runs and logs *)

Section Semantics.
Context {W : Type} (h : handler W).

Lemma run_bind {A B : Type} (p : Prog A) (f : A -> Prog B) (w : W) :
  run h (p ≫= f) w =
  match run h p w with
  | (Done a, w1, t1) =>
      let '(o, w2, t2) := run h (f a) w1 in (o, w2, t1 ++ t2)
  | (Panicked msg, w1, t1) => (Panicked msg, w1, t1)
  end.
Proof.
  revert w. induction p as [a|msg|X e k IH]; intros w; simpl.
  - change (Ret a ≫= f) with (f a). by destruct (run h (f a) w) as [[o w2] t2].
  - done.
  - change (Vis e k ≫= f) with (Vis e (fun x => k x ≫= f)). simpl.
    destruct (h X e w) as [x w1]. rewrite IH.
    destruct (run h (k x) w1) as [[[a|msg] w2] t]; [|done].
    by destruct (run h (f a) w2) as [[o w3] t3].
Qed.

Lemma wp_run {R : Type} (p : Prog R) (Q : list entry -> outcome R -> Prop)
    (w : W) :
  wp p Q -> Q (run h p w).2 (run h p w).1.1.
Proof.
  revert Q w. induction p as [a|msg|X e k IH]; intros Q w Hwp; simpl in *.
  - done.
  - done.
  - destruct (h X e w) as [x w1]. specialize (IH x _ w1 (Hwp x)).
    by destruct (run h (k x) w1) as [[o w2] t].
Qed.

Lemma run_bind_outcome {A B : Type} (p : Prog A) (f : A -> Prog B)
    (w w1 : W) (a : A) (t1 : list entry) :
  run h p w = (Done a, w1, t1) ->
  (run h (p ≫= f) w).1.1 = (run h (f a) w1).1.1.
Proof.
  intros Hp. rewrite run_bind, Hp.
  by destruct (run h (f a) w1) as [[o w2] t2].
Qed.

Lemma run_bind_ext {A B : Type} (p : Prog A) (f g : A -> Prog B) (w : W) :
  (forall a w1 t1, run h p w = (Done a, w1, t1) ->
                   run h (f a) w1 = run h (g a) w1) ->
  run h (p ≫= f) w = run h (p ≫= g) w.
Proof.
  intros Hfg. rewrite !run_bind.
  destruct (run h p w) as [[[a|msg] w1] t1]; [|done].
  by rewrite (Hfg a w1 t1).
Qed.

Lemma run_call {X : Type} (e : porterE X) (w : W) :
  run h (call e) w = (Done (h X e w).1, (h X e w).2, [Entry e (h X e w).1]).
Proof. simpl. by destruct (h X e w). Qed.

End Semantics.

Lemma wp_mono {R : Type} (p : Prog R) (Q Q' : list entry -> outcome R -> Prop) :
  (forall t o, Q t o -> Q' t o) -> wp p Q -> wp p Q'.
Proof.
  revert Q Q'. induction p as [a|msg|X e k IH]; intros Q Q' HQ Hwp; simpl in *.
  - by apply HQ.
  - by apply HQ.
  - intros x. eapply IH; [|apply Hwp]. intros t o. apply HQ.
Qed.

Lemma wp_bind {A B : Type} (p : Prog A) (f : A -> Prog B)
    (Q : list entry -> outcome B -> Prop) :
  wp p (fun t o =>
          match o with
          | Done a => wp (f a) (fun t' o' => Q (t ++ t') o')
          | Panicked msg => Q t (Panicked msg)
          end) ->
  wp (p ≫= f) Q.
Proof.
  revert Q. induction p as [a|msg|X e k IH]; intros Q Hwp; simpl in *.
  - done.
  - done.
  - change (Vis e k ≫= f) with (Vis e (fun x => k x ≫= f)). simpl.
    intros x. apply IH. eapply wp_mono; [|apply Hwp].
    intros t [a|msg]; simpl; [|done].
    apply wp_mono. done.
Qed.

Lemma wp_call {X : Type} (e : porterE X)
    (Q : list entry -> outcome X -> Prop) :
  (forall x, Q [Entry e x] (Done x)) -> wp (call e) Q.
Proof. intros HQ x. apply HQ. Qed.

(** A property of a run, from a property of all runs. *)
Lemma wp_run_eq {W R : Type} (h : handler W) (p : Prog R)
    (Q : list entry -> outcome R -> Prop) (w w' : W) (o : outcome R)
    (t : list entry) :
  wp p Q -> run h p w = (o, w', t) -> Q t o.
Proof. intros Hwp Hrun. pose proof (wp_run h p Q w Hwp) as HQ. by rewrite Hrun in HQ. Qed.


Lemma always_ret {R : Type} (P : entry -> Prop) (r : R) : always P (Ret r).
Proof. by constructor. Qed.

Lemma always_panic {R : Type} (P : entry -> Prop) (msg : string) :
  always P (@Panic R msg).
Proof. by constructor. Qed.

Lemma always_call {X : Type} (P : entry -> Prop) (e : porterE X) :
  (forall x, P (Entry e x)) -> always P (call e).
Proof. intros HP x. simpl. by repeat constructor. Qed.

Lemma always_vis {X R : Type} (P : entry -> Prop) (e : porterE X)
    (k : X -> Prog R) :
  (forall x, P (Entry e x)) -> (forall x, always P (k x)) ->
  always P (Vis e k).
Proof.
  intros HP Hk x. eapply wp_mono; [|apply Hk].
  intros t o Ht. by constructor.
Qed.

Lemma always_bind {A B : Type} (P : entry -> Prop) (p : Prog A)
    (f : A -> Prog B) :
  always P p -> (forall a, always P (f a)) -> always P (bind p f).
Proof.
  intros Hp Hf. apply (wp_bind p f). eapply wp_mono; [|exact Hp].
  intros t [a|msg] Ht; simpl; [|done].
  eapply wp_mono; [|apply Hf]. intros t' o' Ht'. by apply Forall_app.
Qed.

Lemma always_impl {R : Type} (P P' : entry -> Prop) (p : Prog R) :
  (forall en, P en -> P' en) -> always P p -> always P' p.
Proof.
  intros HP. apply wp_mono. intros t _ Ht. eapply Forall_impl; [exact Ht|exact HP].
Qed.

(** Two properties of all runs hold together. *)
Lemma wp_conj {R : Type} (p : Prog R)
    (Q1 Q2 : list entry -> outcome R -> Prop) :
  wp p Q1 -> wp p Q2 -> wp p (fun t o => Q1 t o ∧ Q2 t o).
Proof.
  revert Q1 Q2.
  induction p as [a|msg|X e k IH]; intros Q1 Q2 H1 H2; simpl in *; [done..|].
  intros x. by apply (IH x (fun t o => Q1 (Entry e x :: t) o)
                          (fun t o => Q2 (Entry e x :: t) o)).
Qed.

Lemma StronglySorted_weaken {A : Type} (R R' : A -> A -> Prop) (l : list A) :
  (forall x y, R x y -> R' x y) -> StronglySorted R l -> StronglySorted R' l.
Proof.
  intros HR. induction 1 as [|x l Hl IH Hx]; constructor; [done|].
  eapply Forall_impl; [exact Hx|]. intros y. apply HR.
Qed.

(** ** The claims of the specification *)

Section Claims.
Context {ext : External}.

(** Unfolds the monad of programs under [wp]. *)
Ltac wp_red :=
  cbn [wp bind mbind Prog_bind mret Prog_ret call flat_map app
       unlockCalls unlockCall publishAnswers publishAnswer selectAnswers
       selectAnswer registerCalls registerCall anchorAnswers anchorAnswer
       executingStates executingState fetchCalls fetchCall importCalls
       importCall verifyCalls verifyCall confirmCalls confirmCall sentEvents
       sentEvent courierCalls courierCallOf fst snd].

(** Walks through a program to show a property of all its entries. *)
Ltac always_go :=
  repeat first
    [ apply always_ret
    | apply always_panic
    | apply always_call; intros; solve [eauto | done]
    | solve [eauto]
    | apply always_vis; [intros; solve [eauto | done]|intros]
    | apply always_bind; [|intros]
    | match goal with
      | |- always _ (match ?x with _ => _ end) => destruct x
      | |- always _ (if ?b then _ else _) => destruct b
      end ].

(** *** The calls each helper makes *)

Section Always.
Context (P : entry -> Prop).

Lemma unlockInputs_always (pkg : sendPackage) :
  (forall op x, P (Entry (UnlockInput op) x)) -> always P (unlockInputs pkg).
Proof.
  intros HP. unfold unlockInputs.
  destruct (sendPackage.AnchorTx pkg) as [anchorTx|]; [|always_go].
  destruct (AnchorTransaction.FundedPsbt anchorTx) as [psbt|]; [|always_go].
  induction (FundedPsbt.LockedUTXOs psbt); simpl; always_go.
Qed.

Lemma fetchInputProof_always (input : PrevID) :
  (forall id x, P (Entry (FetchProof id) x)) ->
  always P (fetchInputProof input).
Proof. intros HP. unfold fetchInputProof. always_go. Qed.

Lemma updateAssetProofFile_additional_always (rest : list PrevID)
    (proofSuffix : Proof) :
  (forall id x, P (Entry (FetchProof id) x)) ->
  always P (updateAssetProofFile_additional rest proofSuffix).
Proof.
  intros HP. pose proof fetchInputProof_always.
  revert proofSuffix. induction rest; intros; simpl; always_go.
Qed.

Lemma updateAssetProofFile_always (inputs : list PrevID)
    (proofSuffix : Proof) (newScriptKey : ScriptKey)
    (confEvent : option TxConfirmation) :
  (forall id x, P (Entry (FetchProof id) x)) ->
  always P (updateAssetProofFile inputs proofSuffix newScriptKey confEvent).
Proof.
  intros HP. pose proof fetchInputProof_always.
  pose proof updateAssetProofFile_additional_always.
  unfold updateAssetProofFile. always_go.
Qed.

Lemma storeProofs_passive_always (todo : list VPacket) (idx : nat)
    (sendPkg : sendPackage) (files : list AnnotatedProof)
    (suffixes : list Proof) :
  (forall id x, P (Entry (FetchProof id) x)) ->
  always P (storeProofs_passive todo idx sendPkg files suffixes).
Proof.
  intros HP. pose proof updateAssetProofFile_always.
  revert idx sendPkg files suffixes.
  induction todo; intros; simpl; always_go.
Qed.

Lemma storeProofs_outputs_always (parcel : OutboundParcel)
    (todo : list TransferOutput) (sendPkg : sendPackage) :
  (forall id x, P (Entry (FetchProof id) x)) ->
  (forall blob x, P (Entry (Verify blob) x)) ->
  (forall replace proofs x, P (Entry (ImportProofs replace proofs) x)) ->
  (forall proofs x, P (Entry (WatchProofs proofs) x)) ->
  always P (storeProofs_outputs parcel todo sendPkg).
Proof.
  intros HF HV HI HW. pose proof updateAssetProofFile_always.
  revert sendPkg. induction todo; intros; simpl; always_go.
Qed.

Lemma storeProofs_always (sendPkg : sendPackage) :
  (forall id x, P (Entry (FetchProof id) x)) ->
  (forall blob x, P (Entry (Verify blob) x)) ->
  (forall replace proofs x, P (Entry (ImportProofs replace proofs) x)) ->
  (forall proofs x, P (Entry (WatchProofs proofs) x)) ->
  always P (storeProofs sendPkg).
Proof.
  intros HF HV HI HW. pose proof storeProofs_passive_always.
  pose proof storeProofs_outputs_always.
  unfold storeProofs. always_go.
Qed.

Lemma importLocalAddresses_always (parcel : option OutboundParcel) :
  (forall key x, P (Entry (ImportTaprootOutput key) x)) ->
  always P (importLocalAddresses parcel).
Proof.
  intros HP. unfold importLocalAddresses.
  destruct parcel as [parcel|]; [|always_go].
  induction (OutboundParcel.Outputs parcel); simpl; always_go.
Qed.

Lemma logPacket_always (vPkt : VPacket) : always P (logPacket vPkt).
Proof. unfold logPacket. always_go. Qed.

Lemma stateStep_logPackets_always (todo : list VPacket) :
  always P (stateStep_logPackets todo).
Proof.
  pose proof logPacket_always. induction todo; simpl; always_go.
Qed.

Lemma stateStep_sign_always (todo signed : list VPacket) :
  (forall vPkt x, P (Entry (SignVirtualPacket vPkt) x)) ->
  always P (stateStep_sign todo signed).
Proof.
  intros HP. pose proof logPacket_always.
  revert signed. induction todo; intros; simpl; always_go.
Qed.

Lemma publishSubscriberEvent_always (p : ChainPorter)
    (event : AssetSendEvent) :
  (forall sub ev x, P (Entry (SubscriberSend sub ev) x)) ->
  always P (publishSubscriberEvent p event).
Proof.
  intros HP. unfold publishSubscriberEvent.
  induction (map_to_list _) as [|[id sub] subs IH]; simpl; always_go.
Qed.

Lemma newAssetSendEvent_always (executedState : SendState)
    (pkg : sendPackage) :
  (forall x, P (Entry TimeNow x)) ->
  always P (newAssetSendEvent executedState pkg).
Proof. intros HP. unfold newAssetSendEvent. always_go. Qed.

Lemma newAssetSendErrorEvent_always (err : error) (executedState : SendState)
    (pkg : sendPackage) :
  (forall x, P (Entry TimeNow x)) ->
  always P (newAssetSendErrorEvent err executedState pkg).
Proof. intros HP. unfold newAssetSendErrorEvent. always_go. Qed.

End Always.

(** *** What a log of quiet entries tells *)

Lemma quiet_calls (t : list entry) :
  Forall quiet t ->
  unlockCalls t = [] ∧ publishAnswers t = [] ∧ anchorAnswers t = []
  ∧ registerCalls t = [] ∧ selectAnswers t = [] ∧ executingStates t = [].
Proof.
  induction 1 as [|en t (Hu & Hp & Ha & Hr & Hs & He) _ IH]; [done|].
  destruct IH as (IHu & IHp & IHa & IHr & IHs & IHe).
  unfold unlockCalls, publishAnswers, anchorAnswers, registerCalls,
    selectAnswers, executingStates in *. simpl.
  by rewrite Hu, Hp, Ha, Hr, Hs, He, IHu, IHp, IHa, IHr, IHs, IHe.
Qed.

(** Splits the readings of a log that is a concatenation and erases those
    of quiet parts. *)
Ltac log_simpl :=
  repeat match goal with
  | Hq : Forall quiet ?t |- _ =>
      let Hu := fresh in let Hp := fresh in let Ha := fresh in
      let Hr := fresh in let Hs := fresh in let He := fresh in
      destruct (quiet_calls t Hq) as (Hu & Hp & Ha & Hr & Hs & He);
      clear Hq
  end;
  unfold unlockCalls, publishAnswers, anchorAnswers, registerCalls,
    selectAnswers, executingStates in *;
  rewrite ?flat_map_app; cbn [flat_map app unlockCall publishAnswer
    anchorAnswer registerCall selectAnswer executingState];
  repeat match goal with
  | Heq : flat_map _ ?t = _ |- _ => rewrite !Heq
  end;
  rewrite ?app_nil_l, ?app_nil_r.

(** [unlockInputs] calls [UnlockInput] on every locked outpoint of the
    package, in order, whatever the wallet answers, and nothing else. *)
Lemma unlockInputs_range_wp (ops : list OutPoint) :
  wp (unlockInputs_range ops) (fun t o =>
    o = Done tt ∧ unlockCalls t = ops ∧ publishAnswers t = []
    ∧ anchorAnswers t = [] ∧ registerCalls t = [] ∧ selectAnswers t = []
    ∧ executingStates t = []).
Proof.
  induction ops as [|op ops IH]; simpl; [done|].
  intros x. eapply wp_mono; [|exact IH]. simpl.
  intros t o (-> & Hu & Hp & Ha & Hr & Hs & He).
  unfold unlockCalls, publishAnswers, anchorAnswers, registerCalls,
    selectAnswers, executingStates in *. simpl.
  by rewrite Hu, Hp, Ha, Hr, Hs, He.
Qed.

Lemma unlockInputs_wp (pkg : sendPackage) :
  wp (unlockInputs pkg) (fun t o =>
    o = Done tt ∧ unlockCalls t = lockedUTXOs pkg ∧ publishAnswers t = []
    ∧ anchorAnswers t = [] ∧ registerCalls t = [] ∧ selectAnswers t = []
    ∧ executingStates t = []).
Proof.
  unfold unlockInputs, lockedUTXOs, lockedBy.
  destruct (sendPackage.AnchorTx pkg) as [anchorTx|]; [|done].
  destruct (AnchorTransaction.FundedPsbt anchorTx) as [psbt|]; [|done].
  apply unlockInputs_range_wp.
Qed.

Lemma quiet_intro (en : entry) :
  unlockCall en = [] -> publishAnswer en = [] -> anchorAnswer en = [] ->
  registerCall en = [] -> selectAnswer en = [] -> executingState en = [] ->
  quiet en.
Proof. by repeat split. Qed.

(** After a failure that unlocks: the rest of [stateStep] is
    [unlockInputs] and the return of the error. *)
Lemma unlock_and_fail_wp (pkg : sendPackage) (err : error)
    (Q : list entry -> outcome (option sendPackage * option error) -> Prop) :
  (forall t, unlockCalls t = lockedUTXOs pkg -> publishAnswers t = [] ->
             anchorAnswers t = [] -> registerCalls t = [] ->
             selectAnswers t = [] -> executingStates t = [] ->
             Q t (Done (None, Some err))) ->
  wp (_ ← unlockInputs pkg; Ret (None, Some err)) Q.
Proof.
  intros HQ. apply (wp_bind (unlockInputs pkg)).
  eapply wp_mono; [|apply unlockInputs_wp].
  intros t o (-> & Hu & Hp & Ha & Hr & Hs & He). simpl.
  rewrite app_nil_r. by apply HQ.
Qed.

(** *** The step of the state [SendStateBroadcast] *)

Lemma stateStep_Broadcast_wp (pkg : sendPackage) :
  sendPackage.SendState pkg = SendStateBroadcast ->
  wp (stateStep pkg) (BroadcastPost pkg).
Proof.
  intros Hstate. unfold stateStep. rewrite Hstate. cbn [N.eqb Pos.eqb
    SendStateVirtualCommitmentSelect SendStateVirtualSign SendStateAnchorSign
    SendStateStorePreBroadcast SendStateBroadcast].
  apply (wp_bind (importLocalAddresses _)).
  eapply wp_mono; [|apply (importLocalAddresses_always quiet)].
  2:{ intros. by apply quiet_intro. }
  intros t [[err|]|msg] Hq.
  - apply unlock_and_fail_wp. intros t' Hu Hp Ha Hr Hs He.
    unfold BroadcastPost. log_simpl. repeat split; try done. left. eauto.
  - destruct (sendPackage.OutboundPkg pkg) as [outboundPkg|].
    2:{ unfold BroadcastPost. wp_red. log_simpl. repeat split; try done.
        right. eauto. }
    wp_red. intros [err|].
    + destruct (errors_Is_ErrDoubleSpend err) eqn:Hdbl.
      * apply unlock_and_fail_wp. intros t' Hu Hp Ha Hr Hs He.
        unfold BroadcastPost. log_simpl. rewrite Hdbl. by repeat split.
      * wp_red. unfold BroadcastPost. log_simpl. rewrite Hdbl. by repeat split.
    + wp_red. intros []. unfold BroadcastPost. log_simpl. by repeat split.
  - unfold BroadcastPost. log_simpl. repeat split; try done. right. eauto.
Qed.

(** *** Every step *)

Lemma wp_true {R : Type} (p : Prog R) : wp p (fun _ _ => True).
Proof. induction p; simpl; eauto. Qed.

Ltac state_red Hstate :=
  unfold stateStep; rewrite ?Hstate;
  cbn [N.eqb Pos.eqb SendStateVirtualCommitmentSelect SendStateVirtualSign
       SendStateAnchorSign SendStateStorePreBroadcast SendStateBroadcast
       SendStateWaitTxConf SendStateStoreProofs SendStateTransferProofs
       SendStateComplete].

Ltac policy_red Hstate :=
  unfold StepPost, unlockPolicy, advances; rewrite ?Hstate;
  cbn [N.eqb Pos.eqb SendStateVirtualCommitmentSelect SendStateVirtualSign
       SendStateAnchorSign SendStateStorePreBroadcast SendStateBroadcast
       SendStateWaitTxConf SendStateStoreProofs SendStateTransferProofs
       SendStateComplete sendPackage.SendState sendPackage.set_SendState].

Lemma stateStep_VirtualCommitmentSelect_wp (pkg : sendPackage) :
  sendPackage.SendState pkg = SendStateVirtualCommitmentSelect ->
  wp (stateStep pkg) (StepPost pkg).
Proof.
  intros Hstate. state_red Hstate.
  destruct (sendPackage.Parcel pkg); wp_red;
    try (policy_red Hstate; by log_simpl).
  intros [fundSendRes|err]; wp_red; policy_red Hstate; log_simpl;
    repeat split; try done. left. done.
Qed.

Lemma stateStep_VirtualSign_wp (pkg : sendPackage) :
  sendPackage.SendState pkg = SendStateVirtualSign ->
  wp (stateStep pkg) (StepPost pkg).
Proof.
  intros Hstate. state_red Hstate.
  destruct (ValidateVPacketVersions _) as [err|].
  { wp_red. policy_red Hstate. by log_simpl. }
  apply (wp_bind (stateStep_sign _ _)).
  eapply wp_mono; [|apply (stateStep_sign_always quiet)].
  2:{ intros. by apply quiet_intro. }
  intros t [[vPackets [err|]]|msg] Hq; wp_red; policy_red Hstate; log_simpl;
    repeat split; try done. left. done.
Qed.

Lemma stateStep_AnchorSign_wp (pkg : sendPackage) :
  sendPackage.SendState pkg = SendStateAnchorSign ->
  wp (stateStep pkg) (StepPost pkg).
Proof.
  intros Hstate. state_red Hstate.
  apply (wp_bind (match manualFeeRate _ with
                  | Some feeRate => Ret (Ok feeRate)
                  | None => call (EstimateFee SendConfTarget)
                  end)).
  apply (wp_mono _ (fun t o => Forall quiet t)).
  2:{ destruct (manualFeeRate _); wp_red; intros; repeat constructor. }
  intros t0 [[feeRate|err]|msg] Hq0; wp_red;
    try (policy_red Hstate; by log_simpl).
  apply (wp_bind (stateStep_logPackets _)).
  eapply wp_mono; [|apply (stateStep_logPackets_always quiet)].
  intros t1 [[]|msg] Hq1; wp_red; try (policy_red Hstate; by log_simpl).
  intros [passiveAssets|err]; wp_red; try (policy_red Hstate; by log_simpl).
  intros [passiveAssets' [err|]]; wp_red;
    try (policy_red Hstate; by log_simpl).
  intros [anchorTx|err]; wp_red; try (policy_red Hstate; by log_simpl).
  destruct (validateReadyForPublish _ _) as [err|].
  - apply unlock_and_fail_wp. intros t' Hu Hp Ha Hr Hs He.
    policy_red Hstate. log_simpl. done.
  - wp_red. policy_red Hstate. log_simpl. repeat split; try done. left. done.
Qed.

Lemma stateStep_StorePreBroadcast_wp (pkg : sendPackage) :
  sendPackage.SendState pkg = SendStateStorePreBroadcast ->
  wp (stateStep pkg) (StepPost pkg).
Proof.
  intros Hstate. state_red Hstate. wp_red.
  intros [currentHeight|err].
  2:{ apply unlock_and_fail_wp. intros t' Hu Hp Ha Hr Hs He.
      policy_red Hstate. by log_simpl. }
  wp_red. intros [parcel|err].
  2:{ apply unlock_and_fail_wp. intros t' Hu Hp Ha Hr Hs He.
      policy_red Hstate. by log_simpl. }
  wp_red. intros now [err|].
  - apply unlock_and_fail_wp. intros t' Hu Hp Ha Hr Hs He.
    policy_red Hstate. by log_simpl.
  - wp_red. policy_red Hstate. log_simpl. repeat split; try done. left. done.
Qed.

Lemma stateStep_Broadcast_StepPost (pkg : sendPackage) :
  sendPackage.SendState pkg = SendStateBroadcast ->
  wp (stateStep pkg) (StepPost pkg).
Proof.
  intros Hstate. eapply wp_mono; [|by apply stateStep_Broadcast_wp].
  intros t o (Hr & He & Ha & Hs & Hpub). policy_red Hstate. split; [done|].
  destruct (publishAnswers t) as [|[err|] [|]]; try done.
  - destruct Hpub as [(e & -> & Hu)|(msg & -> & Hu)]; done.
  - by destruct Hpub as [-> Hu].
  - destruct Hpub as [-> Hu]. split; [|done]. left. done.
Qed.

Lemma stateStep_WaitTxConf_wp (pkg : sendPackage) :
  sendPackage.SendState pkg = SendStateWaitTxConf ->
  wp (stateStep pkg) (StepPost pkg).
Proof.
  intros Hstate. state_red Hstate. unfold waitForTransferTxConf.
  destruct (sendPackage.OutboundPkg pkg) as [outboundPkg|];
    [|by policy_red Hstate].
  destruct (MsgTx.TxOut _) as [|txOut0 ?]; [by policy_red Hstate|].
  wp_red. intros [confNtfn|err]; wp_red; [|by policy_red Hstate].
  intros [confEvent|err| |]; wp_red; policy_red Hstate; try done.
  - repeat split; try done. left. done.
  - rewrite ?Hstate. repeat split; try done. right. done.
Qed.

Lemma storeProofs_state_wp (pkg : sendPackage) :
  wp (storeProofs pkg) (fun t o =>
    forall pkg', o = Done (pkg', None) ->
      sendPackage.SendState pkg' = SendStateTransferProofs).
Proof.
  unfold storeProofs.
  apply (wp_bind (storeProofs_passive _ _ _ _ _)).
  eapply wp_mono; [|apply wp_true].
  intros t0 [[sendPkg [[files suffixes]|err]]|msg] _; wp_red; try done.
  intros [err|]; wp_red; [done|].
  apply (wp_bind (if bool_decide _ then _ else _)).
  eapply wp_mono; [|apply wp_true].
  intros t1 [[err|]|msg] _; wp_red; try done.
  destruct (sendPackage.OutboundPkg pkg) as [parcel|]; [|done].
  destruct (bool_decide _).
  { wp_red. intros pkg' [= <-]. done. }
  apply (wp_bind (storeProofs_outputs _ _ _)).
  eapply wp_mono; [|apply wp_true].
  intros t2 [[sendPkg' [err|]]|msg] _; wp_red; try done.
  intros pkg' [= <-]. done.
Qed.

Lemma stateStep_StoreProofs_wp (pkg : sendPackage) :
  sendPackage.SendState pkg = SendStateStoreProofs ->
  wp (stateStep pkg) (StepPost pkg).
Proof.
  intros Hstate. state_red Hstate.
  apply (wp_bind (storeProofs pkg)).
  eapply wp_mono;
    [|apply (wp_conj _ _ _ (storeProofs_always quiet pkg
                              ltac:(intros; by apply quiet_intro)
                              ltac:(intros; by apply quiet_intro)
                              ltac:(intros; by apply quiet_intro)
                              ltac:(intros; by apply quiet_intro))
                           (storeProofs_state_wp pkg))].
  intros t [[pkg' [err|]]|msg] [Hq Hst]; wp_red; policy_red Hstate;
    log_simpl; try done.
  rewrite (Hst pkg' eq_refl). repeat split; try done. left. done.
Qed.

Lemma stateStep_TransferProofs_wp (pkg : sendPackage) :
  sendPackage.SendState pkg = SendStateTransferProofs ->
  wp (stateStep pkg) (StepPost pkg).
Proof.
  intros Hstate. state_red Hstate. wp_red. intros [].
  policy_red Hstate. repeat split; try done. left. done.
Qed.

Lemma stateStep_wp (pkg : sendPackage) : wp (stateStep pkg) (StepPost pkg).
Proof.
  destruct (N.eqb_spec (sendPackage.SendState pkg)
              SendStateVirtualCommitmentSelect) as [H0|H0];
    [by apply stateStep_VirtualCommitmentSelect_wp|].
  destruct (N.eqb_spec (sendPackage.SendState pkg) SendStateVirtualSign)
    as [H1|H1]; [by apply stateStep_VirtualSign_wp|].
  destruct (N.eqb_spec (sendPackage.SendState pkg) SendStateAnchorSign)
    as [H2|H2]; [by apply stateStep_AnchorSign_wp|].
  destruct (N.eqb_spec (sendPackage.SendState pkg) SendStateStorePreBroadcast)
    as [H3|H3]; [by apply stateStep_StorePreBroadcast_wp|].
  destruct (N.eqb_spec (sendPackage.SendState pkg) SendStateBroadcast)
    as [H4|H4]; [by apply stateStep_Broadcast_StepPost|].
  destruct (N.eqb_spec (sendPackage.SendState pkg) SendStateWaitTxConf)
    as [H5|H5]; [by apply stateStep_WaitTxConf_wp|].
  destruct (N.eqb_spec (sendPackage.SendState pkg) SendStateStoreProofs)
    as [H6|H6]; [by apply stateStep_StoreProofs_wp|].
  destruct (N.eqb_spec (sendPackage.SendState pkg) SendStateTransferProofs)
    as [H7|H7]; [by apply stateStep_TransferProofs_wp|].
  apply N.eqb_neq in H0, H1, H2, H3, H4, H5, H6, H7.
  unfold stateStep, StepPost, unlockPolicy.
  rewrite H0, H1, H2, H3, H4, H5, H6, H7. by wp_red.
Qed.

(** *** The loop of [advanceState] *)

Lemma publishSubscriberEvent_wp (p : ChainPorter) (event : AssetSendEvent) :
  wp (publishSubscriberEvent p event) (fun t o => o = Done tt ∧ Forall quiet t).
Proof.
  unfold publishSubscriberEvent.
  induction (map_to_list _) as [|[id sub] subs IH]; simpl; [done|].
  intros []. eapply wp_mono; [|exact IH]. simpl. intros t o [-> Hq].
  split; [done|]. constructor; [by apply quiet_intro|done].
Qed.

(** The way out of [advanceState] after a failed step. *)
Lemma advanceState_failed_wp (p : ChainPorter) (pkg : sendPackage)
    (kit : parcelKit) (err : error) (s : SendState) :
  wp (_ ← call (ErrChanSend kit err);
      event ← newAssetSendErrorEvent err s pkg;
      _ ← publishSubscriberEvent p event;
      Ret (Some tt))
     (fun t o => o = Done (Some tt) ∧ Forall quiet t).
Proof.
  wp_red. intros [] now.
  apply (wp_bind (publishSubscriberEvent _ _)).
  eapply wp_mono; [|apply publishSubscriberEvent_wp].
  intros t o [-> Hq]. simpl. split; [done|].
  repeat (constructor; [by apply quiet_intro|]).
  by rewrite app_nil_r.
Qed.

(** The notification of [advanceState] after a successful step. *)
Lemma advanceState_notify_wp (p : ChainPorter) (updatedPkg : sendPackage)
    (s : SendState) (below : bool) :
  wp (if below
      then event ← newAssetSendEvent s updatedPkg;
           publishSubscriberEvent p event
      else Ret tt)
     (fun t o => o = Done tt ∧ Forall quiet t).
Proof.
  destruct below; [|done]. wp_red. intros now.
  eapply wp_mono; [|apply publishSubscriberEvent_wp].
  intros t o [-> Hq]. split; [done|].
  constructor; [by apply quiet_intro|done].
Qed.

Lemma advanceState_trail_wp (fuel : nat) (p : ChainPorter)
    (pkg : sendPackage) (kit : parcelKit) :
  wp (advanceState fuel p pkg kit) (fun t _ =>
    stateTrail (sendPackage.SendState pkg) (executingStates t)).
Proof.
  assert (Hnil : forall s, stateTrail s []) by (by repeat split; constructor).
  revert pkg. induction fuel as [|fuel IH]; intros pkg; cbn [advanceState];
    destruct (sendPackage.SendState pkg <? SendStateComplete) eqn:Hlt;
    [apply Hnil..| |apply Hnil].
  apply N.ltb_lt in Hlt.
  assert (Hone : stateTrail (sendPackage.SendState pkg)
                   [sendPackage.SendState pkg]).
  { repeat split; repeat constructor. done. }
  wp_red. intros [] [|]; [by wp_red|].
  apply (wp_bind (stateStep pkg)).
  eapply wp_mono; [|apply stateStep_wp].
  intros t1 o1 [He Hpost].
  destruct o1 as [[[pkg'|] [err|]]|msg].
  - eapply wp_mono; [|apply advanceState_failed_wp].
    intros t2 o2 [-> Hq]. by log_simpl.
  - destruct Hpost as [Hadv _].
    apply (wp_bind (newAssetSendEvent _ _ ≫= _)).
    eapply wp_mono; [|apply (advanceState_notify_wp p pkg' _ true)].
    intros t2 o2 [-> Hq]. eapply wp_mono; [|apply IH].
    intros t3 _ (Hhd & Hsorted & Hall). log_simpl.
    repeat split; [|by constructor].
    constructor; [done|].
    destruct (flat_map executingState t3) as [|s0 l]; constructor.
    by subst s0.
  - eapply wp_mono; [|apply advanceState_failed_wp].
    intros t2 o2 [-> Hq]. by log_simpl.
  - done.
  - by log_simpl.
Qed.

#[local] Instance advances_trans : Transitive advances.
Proof.
  intros s1 s2 s3 [H12|[-> ->]] [H23|[H2 ->]]; unfold advances; lia.
Qed.

(** The bound on the rounds of [advanceState] is no part of its result:
    a run that does not stop for want of fuel is the same run with any
    larger bound. *)
Lemma advanceState_fuel {W : Type} (h : handler W) (fuel fuel' : nat)
    (p : ChainPorter) (pkg : sendPackage) (kit : parcelKit) (w : W) :
  (fuel <= fuel')%nat ->
  (run h (advanceState fuel p pkg kit) w).1.1 ≠ Done None ->
  run h (advanceState fuel' p pkg kit) w
  = run h (advanceState fuel p pkg kit) w.
Proof.
  revert fuel' pkg w.
  induction fuel as [|fuel IH]; intros fuel' pkg w Hle Hsome.
  - cbn [advanceState] in *.
    destruct fuel'; cbn [advanceState];
      destruct (sendPackage.SendState pkg <? SendStateComplete); done.
  - destruct fuel' as [|fuel']; [lia|].
    cbn [advanceState] in *.
    destruct (sendPackage.SendState pkg <? SendStateComplete); [|done].
    apply run_bind_ext. intros [] w1 t1 Hlog.
    rewrite (run_bind_outcome h _ _ _ _ _ _ Hlog) in Hsome.
    apply run_bind_ext. intros quit w2 t2 Hquit.
    rewrite (run_bind_outcome h _ _ _ _ _ _ Hquit) in Hsome.
    destruct quit; [done|].
    apply run_bind_ext. intros [updated [err|]] w3 t3 Hstep; [done|].
    rewrite (run_bind_outcome h _ _ _ _ _ _ Hstep) in Hsome.
    destruct updated as [updatedPkg|]; [|done].
    apply run_bind_ext. intros [] w4 t4 Hnotify.
    rewrite (run_bind_outcome h _ _ _ _ _ _ Hnotify) in Hsome.
    apply IH; [lia|done].
Qed.

(** A run of [advanceState] from the state [SendStateBroadcast] in which
    the publication fails. *)
Lemma advanceState_Broadcast_wp (fuel : nat) (p : ChainPorter)
    (pkg : sendPackage) (kit : parcelKit) :
  sendPackage.SendState pkg = SendStateBroadcast ->
  wp (advanceState fuel p pkg kit) (fun t o =>
    forall err, publishAnswers t = [Some err] ->
      o = Done (Some tt) ∧ executingStates t = [SendStateBroadcast]
      ∧ registerCalls t = [] ∧ selectAnswers t = []).
Proof.
  intros Hstate. destruct fuel as [|fuel]; cbn [advanceState];
    rewrite Hstate; cbn [N.ltb N.compare Pos.compare Pos.compare_cont
      SendStateBroadcast SendStateComplete]; [done|].
  wp_red. intros [] [|]; [done|].
  apply (wp_bind (stateStep pkg)).
  eapply wp_mono; [|by apply stateStep_Broadcast_wp].
  intros t1 o1 (Hr & He & Ha & Hs & Hpub).
  destruct (publishAnswers t1) as [|[e|] [|]] eqn:Hp; try done.
  - destruct Hpub as [(e & -> & Hu)|(msg & -> & Hu)].
    + eapply wp_mono; [|apply advanceState_failed_wp].
      intros t2 o2 [-> Hq]. log_simpl. done.
    + log_simpl. done.
  - destruct Hpub as [-> Hu].
    eapply wp_mono; [|apply advanceState_failed_wp].
    intros t2 o2 [-> Hq]. log_simpl. done.
  - destruct Hpub as [-> Hu].
    apply (wp_bind (newAssetSendEvent _ _ ≫= _)).
    eapply wp_mono; [|apply (advanceState_notify_wp p _ _ true)].
    intros t2 o2 [-> Hq]. eapply wp_mono; [|apply wp_true].
    intros t3 o3 _. log_simpl. done.
Qed.

(** C4.  A step that returns without error hands back a package whose
    [SendState] is not below that of the package it was given.  In a run
    of [advanceState], the states the machine executes one after the other
    never go down: of two states of the run, the later one is above the
    earlier one, or both are [SendStateWaitTxConf] (the step that waits
    for the confirmation is the only one that can be run again, when it
    returned without a confirmation); no step is run in
    [SendStateComplete]. *)
Theorem SendState_never_decreases {W : Type} (h : handler W) (w : W)
    (pkg : sendPackage) (fuel : nat) (p : ChainPorter) (kit : parcelKit) :
  (forall pkg' w' t,
     run h (stateStep pkg) w = (Done (Some pkg', None), w', t) ->
     sendPackage.SendState pkg <= sendPackage.SendState pkg')
  ∧ StronglySorted N.le
      (executingStates (run h (advanceState fuel p pkg kit) w).2)
  ∧ StronglySorted advances
      (executingStates (run h (advanceState fuel p pkg kit) w).2)
  ∧ Forall (fun s => s < SendStateComplete)
      (executingStates (run h (advanceState fuel p pkg kit) w).2).
Proof.
  split.
  - intros pkg' w' t Hrun.
    destruct (wp_run_eq h _ _ w w' _ t (stateStep_wp pkg) Hrun)
      as [_ [[Hlt|[_ ->]] _]]; lia.
  - pose proof (wp_run h _ _ w (advanceState_trail_wp fuel p pkg kit))
      as (_ & Hsorted & Hall).
    apply Sorted_StronglySorted in Hsorted; [|apply advances_trans].
    repeat split; [|done..].
    eapply StronglySorted_weaken; [|exact Hsorted].
    intros s s' [Hlt|[_ ->]]; lia.
Qed.

(** C2.  In the state [SendStateBroadcast], when [PublishTransaction]
    fails, [stateStep] returns the error (and no package); if the error
    is a double spend it has called [UnlockInput] on every outpoint locked
    by the anchor transaction of the package, if it is any other error it
    has called [UnlockInput] on none.  No confirmation is registered for,
    and the run of [advanceState] that made the step ends there: the only
    state it executed is [SendStateBroadcast], and it neither registers
    for nor waits for a confirmation. *)
Theorem Broadcast_publish_failure {W : Type} (h : handler W) (w w' : W)
    (pkg : sendPackage) (o : outcome (option sendPackage * option error))
    (t : list entry) (err : error) :
  sendPackage.SendState pkg = SendStateBroadcast ->
  run h (stateStep pkg) w = (o, w', t) ->
  publishAnswers t = [Some err] ->
  o = Done (None, Some (ErrWrap "unable to broadcast transaction" err))
  ∧ unlockCalls t
    = (if errors_Is_ErrDoubleSpend err then lockedUTXOs pkg else [])
  ∧ registerCalls t = []
  ∧ forall fuel p kit,
      publishAnswers (run h (advanceState fuel p pkg kit) w).2 = [Some err] ->
      (run h (advanceState fuel p pkg kit) w).1.1 = Done (Some tt)
      ∧ executingStates (run h (advanceState fuel p pkg kit) w).2
        = [SendStateBroadcast]
      ∧ registerCalls (run h (advanceState fuel p pkg kit) w).2 = []
      ∧ selectAnswers (run h (advanceState fuel p pkg kit) w).2 = [].
Proof.
  intros Hstate Hrun Hpub.
  destruct (wp_run_eq h _ _ w w' o t (stateStep_Broadcast_wp pkg Hstate) Hrun)
    as (Hr & He & Ha & Hs & Hpost).
  rewrite Hpub in Hpost. destruct Hpost as [-> Hu].
  split; [done|]. split; [done|]. split; [done|].
  intros fuel p kit Hadv.
  exact (wp_run h _ _ w (advanceState_Broadcast_wp fuel p pkg kit Hstate)
           err Hadv).
Qed.

(** C1, as the code has it.  When [stateStep] returns an error, the
    outpoints it has called [UnlockInput] on are: none in the states
    [SendStateVirtualCommitmentSelect] and [SendStateVirtualSign]; in
    [SendStateAnchorSign] those locked by the anchor transaction that
    [AnchorVirtualTransactions] has just returned, and none if it has not
    returned one; in [SendStateStorePreBroadcast] all those locked by the
    anchor transaction of the package; in [SendStateBroadcast] all of
    them when importing the local addresses failed (nothing was
    published) or when the publication failed with a double spend, and
    none when it failed with another error; none in any later state. *)
Theorem error_unlocks {W : Type} (h : handler W) (w w' : W)
    (pkg : sendPackage) (r : option sendPackage) (err : error)
    (t : list entry) :
  run h (stateStep pkg) w = (Done (r, Some err), w', t) ->
  let state := sendPackage.SendState pkg in
  (state < SendStateAnchorSign -> unlockCalls t = [])
  ∧ (state = SendStateAnchorSign ->
     unlockCalls t
     = match anchorAnswers t with
       | [Ok anchorTx] => lockedBy anchorTx
       | _ => []
       end)
  ∧ (state = SendStateStorePreBroadcast -> unlockCalls t = lockedUTXOs pkg)
  ∧ (state = SendStateBroadcast ->
     unlockCalls t
     = match publishAnswers t with
       | [] => lockedUTXOs pkg
       | [Some perr] =>
           if errors_Is_ErrDoubleSpend perr then lockedUTXOs pkg else []
       | _ => []
       end)
  ∧ (SendStateBroadcast < state -> unlockCalls t = []).
Proof.
  intros Hrun state.
  destruct (wp_run_eq h _ _ w w' _ t (stateStep_wp pkg) Hrun) as [_ Hpost].
  assert (Hu : unlockCalls t = unlockPolicy pkg t) by (by destruct r).
  rewrite Hu. unfold unlockPolicy. fold state.
  unfold SendStateAnchorSign, SendStateStorePreBroadcast, SendStateBroadcast.
  repeat split; intros Hs.
  - destruct (N.eqb_spec state 2); [lia|].
    destruct (N.eqb_spec state 3); [lia|].
    destruct (N.eqb_spec state 4); [lia|]. done.
  - by rewrite Hs.
  - by rewrite Hs.
  - by rewrite Hs.
  - destruct (N.eqb_spec state 2); [lia|].
    destruct (N.eqb_spec state 3); [lia|].
    destruct (N.eqb_spec state 4); [lia|]. done.
Qed.

(** *** The proof files *)

Lemma noInputMatches_inputsForAsset (inputs : list TransferInput)
    (parsedSuffix : Proof) :
  noInputMatches inputs parsedSuffix ->
  inputsForAsset inputs parsedSuffix = [].
Proof.
  unfold noInputMatches, inputsForAsset.
  generalize (Proof_Witnesses parsedSuffix) as ws. intros ws Hno.
  induction inputs as [|inp inputs IH]; [done|]. simpl.
  rewrite IH by (intros ? ? ? ?; apply Hno; [by right|done]).
  rewrite app_nil_r.
  assert (Hinp : forall witness, witness ∈ ws ->
            Witness.PrevID witness ≠ Some (TransferInput.PrevID inp))
    by (intros ? ?; apply Hno; [by left|done]).
  clear -Hinp. induction ws as [|witness ws IHw]; [done|].
  simpl. rewrite IHw by (intros ? ?; apply Hinp; by right).
  rewrite app_nil_r. specialize (Hinp witness ltac:(by left)).
  destruct (Witness.PrevID witness) as [prevID|]; [|done].
  destruct (decide _) as [Heq|]; [|done]. by rewrite Heq in Hinp.
Qed.

(** C9.  [updateAssetProofFile] reads [inputs[0]] without a test: called
    with an empty list, once the suffix has taken the confirmation data,
    it panics with an index out of range.  [storeProofs] makes that call:
    when the loop over the outputs comes to an output whose suffix decodes
    and has no witness for any input of the parcel, the list it passes is
    empty and the loop panics; for a package in [SendStateStoreProofs]
    without passive assets whose parcel has inputs and such a first
    output, the step itself panics once the (empty) import of passive
    proofs has returned. *)
Theorem updateAssetProofFile_needs_inputs {W : Type} (h : handler W) (w : W)
    (pkg : sendPackage) (parcel : OutboundParcel) (out : TransferOutput)
    (todo : list TransferOutput) (confEvent : TxConfirmation)
    (parsedSuffix enriched : Proof) :
  sendPackage.TransferTxConfEvent pkg = Some confEvent ->
  Proof_Decode (TransferOutput.ProofSuffix out) = Ok parsedSuffix ->
  noInputMatches (OutboundParcel.Inputs parcel) parsedSuffix ->
  UpdateTransitionProof (proofParams confEvent) parsedSuffix
    = (enriched, None) ->
  run h (updateAssetProofFile [] parsedSuffix (TransferOutput.ScriptKey out)
           (Some confEvent)) w
    = (Panicked "index out of range [0] with length 0", w, [])
  ∧ run h (storeProofs_outputs parcel (out :: todo) pkg) w
    = (Panicked "index out of range [0] with length 0", w, [])
  ∧ (sendPackage.SendState pkg = SendStateStoreProofs ->
     sendPackage.OutboundPkg pkg = Some parcel ->
     sendPackage.PassiveAssets pkg = [] ->
     OutboundParcel.Inputs parcel ≠ [] ->
     OutboundParcel.Outputs parcel = out :: todo ->
     (h _ (ImportProofs false []) w).1 = None ->
     (run h (stateStep pkg) w).1.1
     = Panicked "index out of range [0] with length 0").
Proof.
  intros Hconf Hdecode Hno Hupdate.
  assert (Hupd : forall w0,
            run h (updateAssetProofFile [] parsedSuffix
                     (TransferOutput.ScriptKey out) (Some confEvent)) w0
            = (Panicked "index out of range [0] with length 0", w0, [])).
  { intros w0. unfold updateAssetProofFile. fold (proofParams confEvent).
    by rewrite Hupdate. }
  assert (Hloop : forall sendPkg w0,
            sendPackage.TransferTxConfEvent sendPkg = Some confEvent ->
            run h (storeProofs_outputs parcel (out :: todo) sendPkg) w0
            = (Panicked "index out of range [0] with length 0", w0, [])).
  { intros sendPkg w0 Hc. cbn [storeProofs_outputs]. rewrite Hdecode.
    rewrite (noInputMatches_inputsForAsset _ _ Hno), Hc.
    by rewrite run_bind, Hupd. }
  split; [done|]. split; [by apply Hloop|].
  intros Hstate Hpkg Hpassive Hinputs Houtputs Himport.
  unfold stateStep. rewrite Hstate. simpl.
  unfold storeProofs. rewrite Hpassive, Hpkg. cbn [storeProofs_passive].
  destruct (OutboundParcel.Inputs parcel) as [|inp inputs] eqn:Hin; [done|].
  rewrite !run_bind. cbn [run mbind Prog_bind bind mret Prog_ret call].
  destruct (h _ (ImportProofs false []) w) as [answer w1]. simpl in Himport.
  subst answer. cbn [run bind bool_decide decide_rel length]. simpl.
  rewrite Houtputs.
  rewrite !run_bind.
  by rewrite (Hloop (sendPackage.set_FinalProofs (Some ∅) pkg) w1 Hconf).
Qed.

(** *** [storeProofs] for a parcel without inputs *)

Lemma readOnly_calls (t : list entry) :
  Forall readOnly t ->
  importCalls t = [] ∧ verifyCalls t = [] ∧ confirmCalls t = [].
Proof.
  induction 1 as [|en t (Hi & Hv & Hc) _ (IHi & IHv & IHc)]; [done|].
  unfold importCalls, verifyCalls, confirmCalls in *. simpl.
  by rewrite Hi, Hv, Hc, IHi, IHv, IHc.
Qed.

Lemma fetchesOf_calls (inputs : list PrevID) (t : list entry) :
  Forall (fetchesOf inputs) t ->
  Forall (fun c => ∃ input, input ∈ inputs ∧ locatorOfInput input c.1)
    (fetchCalls t).
Proof.
  induction 1 as [|en t Hen _ IH]; [constructor|].
  unfold fetchCalls in *. simpl. apply Forall_app. split; [|done].
  apply Forall_forall. intros c Hc. by apply Hen.
Qed.

Lemma fetchInputProof_fetchesOf (inputs : list PrevID) (input : PrevID) :
  input ∈ inputs -> always (fetchesOf inputs) (fetchInputProof input).
Proof.
  intros Hin. unfold fetchInputProof.
  destruct (btcec_ParsePubKey _) as [scriptKey|err] eqn:Hkey;
    [|apply always_ret].
  apply always_bind.
  - apply always_call. intros x c Hc. simpl in Hc.
    apply list_elem_of_singleton in Hc as ->.
    exists input. split; [done|]. by exists scriptKey.
  - intros [blob|err]; [|apply always_ret].
    destruct (File_Decode blob); apply always_ret.
Qed.

Lemma updateAssetProofFile_additional_fetchesOf (inputs rest : list PrevID)
    (proofSuffix : Proof) :
  rest ⊆ inputs ->
  always (fetchesOf inputs) (updateAssetProofFile_additional rest proofSuffix).
Proof.
  revert proofSuffix. induction rest as [|input rest IH]; intros suffix Hsub;
    simpl; [apply always_ret|].
  apply always_bind.
  - apply fetchInputProof_fetchesOf. apply Hsub. by left.
  - intros [file|err]; [|apply always_ret].
    apply IH. intros x Hx. apply Hsub. by right.
Qed.

Lemma updateAssetProofFile_fetchesOf (inputs inputs0 : list PrevID)
    (proofSuffix : Proof) (newScriptKey : ScriptKey)
    (confEvent : option TxConfirmation) :
  inputs0 ⊆ inputs ->
  always (fetchesOf inputs)
    (updateAssetProofFile inputs0 proofSuffix newScriptKey confEvent).
Proof.
  intros Hsub. unfold updateAssetProofFile.
  destruct confEvent as [confEvent|]; [|apply always_panic].
  destruct (UpdateTransitionProof _ _) as [suffix [err|]]; [apply always_ret|].
  destruct inputs0 as [|firstInput additional]; [apply always_panic|].
  apply always_bind.
  - apply fetchInputProof_fetchesOf. apply Hsub. by left.
  - intros [file|err]; [|apply always_ret].
    apply always_bind.
    + apply updateAssetProofFile_additional_fetchesOf.
      intros x Hx. apply Hsub. by right.
    + intros [suffix' [err|]]; [apply always_ret|].
      destruct (AppendProof _ _); [|apply always_ret].
      destruct (File_Encode _); apply always_ret.
Qed.

Lemma storeProofs_passive_fetchesOf (inputs : list PrevID)
    (todo : list VPacket) (idx : nat) (sendPkg : sendPackage)
    (files : list AnnotatedProof) (suffixes : list Proof) :
  passiveInputs todo ⊆ inputs ->
  always (fetchesOf inputs)
    (storeProofs_passive todo idx sendPkg files suffixes).
Proof.
  revert idx sendPkg files suffixes.
  induction todo as [|vPkt todo IH]; intros idx sendPkg files suffixes Hsub;
    simpl; [apply always_ret|].
  destruct (VPacket.Outputs vPkt) as [|passiveOut outs]; [apply always_panic|].
  apply always_bind.
  - apply updateAssetProofFile_fetchesOf.
    intros x Hx. apply Hsub. unfold passiveInputs. simpl.
    apply elem_of_app. by left.
  - intros [suffix [ap|err]]; [|apply always_ret].
    apply IH. intros x Hx. apply Hsub. unfold passiveInputs. simpl.
    apply elem_of_app. by right.
Qed.

Lemma updateAssetProofFile_locator_wp (inputs : list PrevID)
    (proofSuffix : Proof) (newScriptKey : ScriptKey)
    (confEvent : option TxConfirmation) :
  wp (updateAssetProofFile inputs proofSuffix newScriptKey confEvent)
    (fun t o => forall suffix ap, o = Done (suffix, Ok ap) ->
       Locator.ScriptKey (AnnotatedProof.Locator ap)
       = ScriptKey.PubKey newScriptKey).
Proof.
  unfold updateAssetProofFile.
  destruct confEvent as [confEvent|]; [|done].
  destruct (UpdateTransitionProof _ _) as [suffix [err|]]; [done|].
  destruct inputs as [|firstInput additional]; [done|].
  apply (wp_bind (fetchInputProof _)). eapply wp_mono; [|apply wp_true].
  intros t0 [[file|err]|msg] _; wp_red; try done.
  apply (wp_bind (updateAssetProofFile_additional _ _)).
  eapply wp_mono; [|apply wp_true].
  intros t1 [[suffix' [err|]]|msg] _; wp_red; try done.
  destruct (AppendProof _ _); [|done].
  destruct (File_Encode _); [|done].
  wp_red. by intros ? ? [= _ <-].
Qed.

Lemma storeProofs_passive_result_wp (todo : list VPacket) (idx : nat)
    (sendPkg : sendPackage) (files : list AnnotatedProof)
    (suffixes : list Proof) :
  wp (storeProofs_passive todo idx sendPkg files suffixes) (fun t o =>
    forall pkg' r, o = Done (pkg', r) ->
      sendPackage.FinalProofs pkg' = sendPackage.FinalProofs sendPkg
      ∧ sendPackage.SendState pkg' = sendPackage.SendState sendPkg
      ∧ sendPackage.OutboundPkg pkg' = sendPackage.OutboundPkg sendPkg
      ∧ match r with
        | Ok (files', _) =>
            ∃ new, files' = files ++ new ∧ Forall2 fileOfPassive new todo
        | Err err => passiveStageError err
        end).
Proof.
  revert idx sendPkg files suffixes.
  induction todo as [|vPkt todo IH]; intros idx sendPkg files suffixes;
    cbn [storeProofs_passive].
  { intros pkg' r [= <- <-]. repeat split; try done.
    exists []. by rewrite app_nil_r. }
  destruct (VPacket.Outputs vPkt) as [|passiveOut outs] eqn:Houts; [done|].
  apply (wp_bind (updateAssetProofFile _ _ _ _)).
  eapply wp_mono; [|apply updateAssetProofFile_locator_wp].
  intros t0 [[suffix [ap|err]]|msg] Hloc; wp_red; try done.
  - eapply wp_mono; [|apply IH].
    intros t1 o1 Hpost pkg' r ->.
    destruct (Hpost pkg' r eq_refl) as (HF & HS & HO & Hr).
    repeat split; try done.
    destruct r as [[files' suffixes']|err]; [|done].
    destruct Hr as (new & -> & Hnew). exists (ap :: new).
    rewrite <- app_assoc. split; [done|]. constructor; [|done].
    exists passiveOut. rewrite Houts. split; [done|]. by eapply Hloc.
  - intros pkg' r [= <- <-]. repeat split; try done. eexists. by left.
Qed.

Ltac arch_simpl :=
  unfold fetchCalls, importCalls, verifyCalls, confirmCalls in *;
  rewrite ?flat_map_app;
  cbn [flat_map app fetchCall importCall verifyCall confirmCall];
  repeat match goal with
  | Heq : flat_map _ ?t = _ |- _ => rewrite !Heq
  end;
  rewrite ?app_nil_l, ?app_nil_r.

Lemma storeProofs_noInputs_wp (pkg : sendPackage)
    (parcel : OutboundParcel) :
  sendPackage.OutboundPkg pkg = Some parcel ->
  OutboundParcel.Inputs parcel = [] ->
  wp (storeProofs pkg) (NoInputsPost pkg).
Proof.
  intros Hpkg Hinputs. unfold storeProofs. rewrite Hpkg, Hinputs.
  apply (wp_bind (storeProofs_passive _ _ _ _ _)).
  eapply wp_mono;
    [|apply wp_conj;
       [apply (storeProofs_passive_always readOnly); by intros
       |apply wp_conj;
          [apply (storeProofs_passive_fetchesOf
                    (passiveInputs (sendPackage.PassiveAssets pkg)));
           by intros ? ?
          |apply storeProofs_passive_result_wp]]].
  intros t0 o0 (Hro & Hfetch & Hres).
  apply readOnly_calls in Hro as (Hi & Hv & Hc).
  apply fetchesOf_calls in Hfetch.
  destruct o0 as [[sendPkg r]|msg].
  2:{ cbn [wp]. split; [done|]. split; [done|]. split; [by left|done]. }
  destruct (Hres sendPkg r eq_refl) as (HF & HS & HO & Hr).
  destruct r as [[files suffixes]|err]; wp_red.
  2:{ rewrite app_nil_r. split; [done|]. split; [done|]. split; [by left|].
      intros pkg' err' [= <- <-]. done. }
  destruct Hr as (new & Hfiles & Hnew). simpl in Hfiles. subst new.
  assert (Himp : forall t1, importCalls t1 = [] ->
            importCalls (t0 ++ Entry (ImportProofs false files) None :: t1)
            = [(false, files)]).
  { intros t1 Ht1. by arch_simpl. }
  assert (Hfet : forall X (e : porterE X) (x : X) t1,
            fetchCall (Entry e x) = [] -> fetchCalls t1 = [] ->
            fetchCalls (t0 ++ Entry e x :: t1) = fetchCalls t0).
  { intros X e x t1 He Ht1. unfold fetchCalls in *.
    rewrite flat_map_app. cbn [flat_map]. by rewrite He, Ht1, app_nil_r. }
  intros [err|]; wp_red.
  { split; [by arch_simpl|]. split; [by rewrite Hfet|].
    split; [right; exists files; split; [by arch_simpl|done]|].
    intros pkg' err' [= <- <-]. split; [done|]. split; [|done].
    eexists. right. by left. }
  destruct (bool_decide (0 < length suffixes)%nat); wp_red.
  - intros [err|]; wp_red.
    + split; [by arch_simpl|]. split; [by rewrite Hfet|].
      split; [right; exists files; split; [by arch_simpl|done]|].
      intros pkg' err' [= <- <-]. split; [done|]. split; [|done].
      eexists. right. by right.
    + split; [by arch_simpl|]. split; [by rewrite Hfet|].
      split; [right; exists files; split; [by arch_simpl|done]|].
      intros pkg' err' [= <- <-]. split; [done|]. split; [done|].
      exists files. by arch_simpl.
  - split; [by arch_simpl|]. split; [by rewrite Hfet|].
    split; [right; exists files; split; [by arch_simpl|done]|].
    intros pkg' err' [= <- <-]. split; [done|]. split; [done|].
    exists files. by arch_simpl.
Qed.

(** *** The updated proof file *)

Lemma fetchInputProof_exact_wp (input : PrevID) :
  wp (fetchInputProof input) (fun t o =>
    forall file, o = Done (Ok file) ->
      ∃ c, fetchCalls t = [c] ∧ fetched input c file).
Proof.
  unfold fetchInputProof.
  destruct (btcec_ParsePubKey _) as [scriptKey|err] eqn:Hkey; [|done].
  wp_red. intros [blob|err]; [|done].
  destruct (File_Decode blob) as [file|err] eqn:Hdecode; [|done].
  wp_red. intros ? [= <-]. eexists. split; [done|].
  exists blob. split; [by exists scriptKey|done].
Qed.

Lemma updateAssetProofFile_additional_exact_wp (rest : list PrevID)
    (proofSuffix : Proof) :
  wp (updateAssetProofFile_additional rest proofSuffix) (fun t o =>
    forall suffix, o = Done (suffix, None) ->
      ∃ files, Forall3 fetched rest (fetchCalls t) files
        ∧ suffix = Proof.set_AdditionalInputs
                     (Proof.AdditionalInputs proofSuffix ++ files)
                     proofSuffix).
Proof.
  revert proofSuffix.
  induction rest as [|input rest IH]; intros proofSuffix;
    cbn [updateAssetProofFile_additional].
  { intros ? [= <-]. exists []. split; [constructor|].
    destruct proofSuffix. unfold Proof.set_AdditionalInputs. simpl.
    by rewrite app_nil_r. }
  apply (wp_bind (fetchInputProof input)).
  eapply wp_mono; [|apply fetchInputProof_exact_wp].
  intros t0 [[file|err]|msg] Hfetch; wp_red; try done.
  destruct (Hfetch file eq_refl) as (c & Hc & Hfetched).
  eapply wp_mono; [|apply IH].
  intros t1 o1 Hpost suffix ->.
  destruct (Hpost suffix eq_refl) as (files & Hfiles & ->).
  exists (file :: files). split.
  - unfold fetchCalls in *. rewrite flat_map_app, Hc. by constructor.
  - unfold Proof.set_AdditionalInputs. simpl. by rewrite <- app_assoc.
Qed.

Lemma updateAssetProofFile_exact_wp (firstInput : PrevID)
    (additional : list PrevID) (proofSuffix : Proof)
    (newScriptKey : ScriptKey) (confEvent : option TxConfirmation) :
  wp (updateAssetProofFile (firstInput :: additional) proofSuffix
        newScriptKey confEvent)
    (fun t o => forall suffix annotated, o = Done (suffix, Ok annotated) ->
       ∃ conf enriched trunk files extended,
         confEvent = Some conf
         ∧ UpdateTransitionProof (proofParams conf) proofSuffix
           = (enriched, None)
         ∧ Forall3 fetched (firstInput :: additional) (fetchCalls t)
             (trunk :: files)
         ∧ suffix = Proof.set_AdditionalInputs
                      (Proof.AdditionalInputs enriched ++ files) enriched
         ∧ AppendProof trunk suffix = Ok extended
         ∧ File_Encode extended = Ok (AnnotatedProof.Blob annotated)
         ∧ AnnotatedProof.Locator annotated
           = Locator.mk (Some (PrevID.ID firstInput))
               (ScriptKey.PubKey newScriptKey)
               (Some (Proof_OutPoint suffix))).
Proof.
  unfold updateAssetProofFile.
  destruct confEvent as [conf|]; [|done]. fold (proofParams conf).
  destruct (UpdateTransitionProof _ _) as [enriched [err|]] eqn:Hupdate;
    [done|].
  apply (wp_bind (fetchInputProof firstInput)).
  eapply wp_mono; [|apply fetchInputProof_exact_wp].
  intros t0 [[trunk|err]|msg] Hfetch; wp_red; try done.
  destruct (Hfetch trunk eq_refl) as (c & Hc & Hfetched).
  apply (wp_bind (updateAssetProofFile_additional _ _)).
  eapply wp_mono; [|apply updateAssetProofFile_additional_exact_wp].
  intros t1 [[suffix' [err|]]|msg] Hadd; wp_red; try done.
  destruct (Hadd suffix' eq_refl) as (files & Hfiles & ->).
  destruct (AppendProof _ _) as [extended|err] eqn:Happend; [|done].
  destruct (File_Encode _) as [blob|err] eqn:Hencode; [|done].
  wp_red. intros ? ? [= <- <-].
  exists conf, enriched, trunk, files, extended.
  repeat split; try done.
  unfold fetchCalls in *. rewrite flat_map_app, app_nil_r, Hc.
  by constructor.
Qed.

(** C3.  When [updateAssetProofFile], called with the inputs
    [firstInput :: additional], returns a proof without error: the
    confirmation is there and the suffix has taken its block, height,
    transaction and index; the archive was asked, in the order of the
    list, for the proof file of every input, under the locator of that
    input, and every answer decoded to a file; the files of the
    additional inputs are appended, in that order, to the
    [AdditionalInputs] of the suffix; the blob of the proof is the
    encoding of the file of the first input with that suffix appended;
    and its locator is made of the asset ID of the first input, the public
    key of the new script key and the outpoint of the suffix. *)
Theorem updateAssetProofFile_result {W : Type} (h : handler W) (w w' : W)
    (firstInput : PrevID) (additional : list PrevID) (proofSuffix : Proof)
    (newScriptKey : ScriptKey) (confEvent : option TxConfirmation)
    (suffix : Proof) (annotated : AnnotatedProof) (t : list entry) :
  run h (updateAssetProofFile (firstInput :: additional) proofSuffix
           newScriptKey confEvent) w
    = (Done (suffix, Ok annotated), w', t) ->
  ∃ conf enriched trunk files extended,
    confEvent = Some conf
    ∧ UpdateTransitionProof (proofParams conf) proofSuffix = (enriched, None)
    ∧ Forall3 fetched (firstInput :: additional) (fetchCalls t)
        (trunk :: files)
    ∧ suffix = Proof.set_AdditionalInputs
                 (Proof.AdditionalInputs enriched ++ files) enriched
    ∧ AppendProof trunk suffix = Ok extended
    ∧ File_Encode extended = Ok (AnnotatedProof.Blob annotated)
    ∧ AnnotatedProof.Locator annotated
      = Locator.mk (Some (PrevID.ID firstInput))
          (ScriptKey.PubKey newScriptKey) (Some (Proof_OutPoint suffix)).
Proof.
  intros Hrun.
  exact (wp_run_eq h _ _ w w' _ t
           (updateAssetProofFile_exact_wp firstInput additional proofSuffix
              newScriptKey confEvent) Hrun suffix annotated eq_refl).
Qed.

(** *** The delivery of the proofs *)

Lemma deliver_always (P : entry -> Prop) (p : ChainPorter)
    (pkg : sendPackage) (out : TransferOutput) :
  (forall addr recipient x, P (Entry (NewCourier addr recipient) x)) ->
  (forall c subs x, P (Entry (SetSubscribers c subs) x)) ->
  (forall c proof x, P (Entry (DeliverProof c proof) x)) ->
  (forall c x, P (Entry (Close c) x)) ->
  always P (deliver p pkg out).
Proof. intros HN HS HD HC. unfold deliver. always_go. Qed.





(** *** The confirmation of the parcel *)








(** C10.  [RegisterSubscriber] does not look at [deliverExisting] and
    [deliverFrom]: whatever the two flags, the receiver is put into the
    subscriber map under its ID, nothing else of the porter changes, and
    the error is nil. *)
Theorem RegisterSubscriber_ignores_flags (p : ChainPorter)
    (receiver : EventReceiver)
    (deliverExisting deliverFrom deliverExisting' deliverFrom' : bool) :
  RegisterSubscriber p receiver deliverExisting deliverFrom
    = RegisterSubscriber p receiver deliverExisting' deliverFrom'
  ∧ (RegisterSubscriber p receiver deliverExisting deliverFrom).2 = None
  ∧ ChainPorter.subscribers
      (RegisterSubscriber p receiver deliverExisting deliverFrom).1
    = <[EventReceiver.ID receiver := receiver]> (ChainPorter.subscribers p).
Proof. by unfold RegisterSubscriber. Qed.

(** C6.  When the select of [waitForTransferTxConf] wakes up on the quit
    channel of the porter, the function returns nil and the package is as
    it was, its [SendState] included; run as the step of the state
    [SendStateWaitTxConf], it hands that package back without error. *)
Theorem waitForTransferTxConf_quit {W : Type} (h : handler W) (w w' : W)
    (pkg : sendPackage) (o : outcome (sendPackage * option error))
    (t : list entry) :
  run h (waitForTransferTxConf pkg) w = (o, w', t) ->
  selectAnswers t = [SelQuit] ->
  o = Done (pkg, None)
  ∧ (sendPackage.SendState pkg = SendStateWaitTxConf ->
     (run h (stateStep pkg) w).1.1 = Done (Some pkg, None)).
Proof.
  intros Hrun Hsel.
  assert (Ho : o = Done (pkg, None)).
  { revert Hsel. eapply wp_run_eq with (Q := fun t o =>
      selectAnswers t = [SelQuit] -> o = Done (pkg, None)); [|exact Hrun].
    unfold waitForTransferTxConf.
    destruct (sendPackage.OutboundPkg pkg) as [outboundPkg|]; [|done].
    destruct (MsgTx.TxOut _) as [|txOut0 ?]; [done|].
    wp_red. intros [confNtfn|err]; wp_red; [|done].
    intros [confEvent|err| |]; wp_red; try done; congruence. }
  split; [done|]. intros Hstate. subst o.
  unfold stateStep. rewrite Hstate. simpl.
  rewrite run_bind, Hrun. done.
Qed.


(** *** The passive stage of [storeProofs] *)

Lemma fetched_inj (input : PrevID) (c : Locator * result Blob)
    (file file' : File) :
  fetched input c file -> fetched input c file' -> file = file'.
Proof.
  intros (blob & _ & Hc & Hd) (blob' & _ & Hc' & Hd'). congruence.
Qed.

Lemma Forall3_fetched_inj (inputs : list PrevID)
    (calls : list (Locator * result Blob)) (files files' : list File) :
  Forall3 fetched inputs calls files -> Forall3 fetched inputs calls files' ->
  files = files'.
Proof.
  intros Hf. revert files'.
  induction Hf as [|input c file inputs calls files Hc _ IH]; intros files' Hf';
    inversion Hf' as [|? ? file' ? ? files'' Hc' Hrest]; subst; [done|].
  f_equal; [by eapply fetched_inj|by apply IH].
Qed.

Lemma fetchCalls_app (t1 t2 : list entry) :
  fetchCalls (t1 ++ t2) = fetchCalls t1 ++ fetchCalls t2.
Proof. unfold fetchCalls. apply flat_map_app. Qed.

Lemma fetchInputProof_full_wp (input : PrevID) :
  wp (fetchInputProof input) (fun t o =>
    match o with
    | Done (Ok file) => ∃ c, fetchCalls t = [c] ∧ fetched input c file
    | Done (Err _) => fetchFails input (fetchCalls t)
    | Panicked _ => False
    end).
Proof.
  unfold fetchInputProof.
  destruct (btcec_ParsePubKey _) as [scriptKey|err] eqn:Hkey.
  2:{ cbn [wp]. left. by exists err. }
  assert (Hloc : locatorOfInput input
                   (Locator.mk (Some (PrevID.ID input)) scriptKey
                      (Some (PrevID.OutPoint input))))
    by (by exists scriptKey).
  wp_red. intros [blob|err].
  2:{ wp_red. right. eexists. split; [done|]. split; [exact Hloc|].
      by intros file (? & _ & ? & _). }
  destruct (File_Decode blob) as [file|err] eqn:Hdecode; wp_red.
  - eexists. split; [done|]. exists blob. split; [exact Hloc|done].
  - right. eexists. split; [done|]. split; [exact Hloc|].
    intros file (blob' & _ & Hb & Hd). cbn in Hb. congruence.
Qed.

Lemma fetchesFail_here (input : PrevID) (rest : list PrevID)
    (calls : list (Locator * result Blob)) :
  fetchFails input calls -> fetchesFail (input :: rest) calls.
Proof.
  intros Hfail. exists [], input, rest, [], calls, [].
  split; [done|]. split; [done|]. split; [constructor|done].
Qed.

Lemma fetchesFail_later (input : PrevID) (rest : list PrevID)
    (c : Locator * result Blob) (calls : list (Locator * result Blob))
    (file : File) :
  fetched input c file -> fetchesFail rest calls ->
  fetchesFail (input :: rest) (c :: calls).
Proof.
  intros Hc (got & input' & rest' & callsGot & callsLast & files
             & -> & -> & Hgot & Hfail).
  exists (input :: got), input', rest', (c :: callsGot), callsLast,
    (file :: files).
  split; [done|]. split; [done|]. split; [by constructor|done].
Qed.

Lemma updateAssetProofFile_additional_full_wp (rest : list PrevID)
    (proofSuffix : Proof) :
  wp (updateAssetProofFile_additional rest proofSuffix) (fun t o =>
    match o with
    | Done (suffix, None) =>
        ∃ files, Forall3 fetched rest (fetchCalls t) files
          ∧ suffix = Proof.set_AdditionalInputs
                       (Proof.AdditionalInputs proofSuffix ++ files)
                       proofSuffix
    | Done (_, Some _) => fetchesFail rest (fetchCalls t)
    | Panicked _ => False
    end).
Proof.
  revert proofSuffix.
  induction rest as [|input rest IH]; intros proofSuffix;
    cbn [updateAssetProofFile_additional].
  { cbn [wp]. exists []. split; [constructor|].
    destruct proofSuffix. unfold Proof.set_AdditionalInputs. simpl.
    by rewrite app_nil_r. }
  apply (wp_bind (fetchInputProof input)).
  eapply wp_mono; [|apply fetchInputProof_full_wp].
  intros t0 [[file|err]|msg] Hfetch; wp_red; try done.
  2:{ rewrite app_nil_r. by apply fetchesFail_here. }
  destruct Hfetch as (c & Hc & Hfetched).
  eapply wp_mono; [|apply IH].
  intros t1 [[suffix [err|]]|msg] Hpost; [| |done];
    rewrite fetchCalls_app, Hc.
  - by eapply fetchesFail_later.
  - destruct Hpost as (files & Hfiles & ->).
    exists (file :: files). split; [by constructor|].
    unfold Proof.set_AdditionalInputs. simpl. by rewrite <- app_assoc.
Qed.

Lemma updateAssetProofFile_full_wp (inputs : list PrevID)
    (proofSuffix : Proof) (newScriptKey : ScriptKey)
    (confEvent : option TxConfirmation) :
  wp (updateAssetProofFile inputs proofSuffix newScriptKey confEvent)
    (fun t o =>
       match o with
       | Done (suffix, Ok annotated) =>
           updatedFile confEvent inputs proofSuffix newScriptKey
             (fetchCalls t) suffix annotated
       | Done (_, Err _) =>
           updateFails confEvent inputs proofSuffix (fetchCalls t) false
       | Panicked _ =>
           updateFails confEvent inputs proofSuffix (fetchCalls t) true
       end).
Proof.
  unfold updateAssetProofFile, updateFails.
  destruct confEvent as [conf|]; [|done].
  fold (proofParams conf).
  destruct (UpdateTransitionProof _ _) as [enriched [err|]] eqn:Hupdate;
    [done|].
  destruct inputs as [|firstInput additional]; [by left|].
  apply (wp_bind (fetchInputProof firstInput)).
  eapply wp_mono; [|apply fetchInputProof_full_wp].
  intros t0 [[trunk|err]|msg] Hfetch; wp_red; try done.
  2:{ rewrite app_nil_r. right. left. split; [|done].
      by apply fetchesFail_here. }
  destruct Hfetch as (c & Hc & Hfetched).
  apply (wp_bind (updateAssetProofFile_additional _ _)).
  eapply wp_mono; [|apply updateAssetProofFile_additional_full_wp].
  intros t1 [[suffix' [err|]]|msg] Hadd; wp_red; try done.
  { rewrite app_nil_r, fetchCalls_app, Hc. right. left. split; [|done].
    by eapply fetchesFail_later. }
  destruct Hadd as (files & Hfiles & ->).
  assert (Hcalls : fetchCalls (t0 ++ t1 ++ []) = c :: fetchCalls t1).
  { by rewrite app_nil_r, fetchCalls_app, Hc. }
  assert (Hall : Forall3 fetched (firstInput :: additional)
                   (c :: fetchCalls t1) (trunk :: files))
    by (by constructor).
  destruct (AppendProof _ _) as [extended|err] eqn:Happend.
  2:{ wp_red. rewrite Hcalls. right. right. exists trunk, files.
      split; [done|]. split; [done|].
      intros (extended & blob & Ha & _). congruence. }
  destruct (File_Encode _) as [blob|err] eqn:Hencode; wp_red; rewrite Hcalls.
  2:{ right. right. exists trunk, files. split; [done|]. split; [done|].
      intros (extended' & blob & Ha & He). congruence. }
  exists conf, firstInput, enriched, trunk, files, extended.
  by repeat split.
Qed.

Lemma passiveStuck_here (confEvent : option TxConfirmation) (vPkt : VPacket)
    (rest : list VPacket) (calls : list (Locator * result Blob))
    (panics : bool) :
  passiveFails confEvent vPkt calls panics ->
  passiveStuck confEvent (vPkt :: rest) calls panics.
Proof.
  intros Hno. exists [], vPkt, rest, [], calls, [], [].
  split; [done|]. split; [done|]. split; [constructor|done].
Qed.

Lemma passiveStuck_later (confEvent : option TxConfirmation) (vPkt : VPacket)
    (rest : list VPacket) (calls calls' : list (Locator * result Blob))
    (suffix : Proof) (file : AnnotatedProof) (panics : bool) :
  passiveFile confEvent vPkt calls suffix file ->
  passiveStuck confEvent rest calls' panics ->
  passiveStuck confEvent (vPkt :: rest) (calls ++ calls') panics.
Proof.
  intros Hfile (made & vPkt' & rest' & calls1 & calls2 & suffixes & files
                & -> & -> & Hmade & Hno).
  exists (vPkt :: made), vPkt', rest', (calls ++ calls1), calls2,
    (suffix :: suffixes), (file :: files).
  split; [done|]. split; [by rewrite app_assoc|].
  split; [by constructor|done].
Qed.

Lemma storeProofs_passive_full_wp (todo : list VPacket) (idx : nat)
    (sendPkg : sendPackage) (files : list AnnotatedProof)
    (suffixes : list Proof) :
  wp (storeProofs_passive todo idx sendPkg files suffixes) (fun t o =>
    let confEvent := sendPackage.TransferTxConfEvent sendPkg in
    match o with
    | Done (_, Ok (files', suffixes')) =>
        ∃ newSuffixes newFiles,
          files' = files ++ newFiles
          ∧ suffixes' = suffixes ++ newSuffixes
          ∧ passiveFiles confEvent todo (fetchCalls t) newSuffixes newFiles
    | Done (_, Err err) =>
        (∃ inner,
           err = ErrWrap "failed to generate an updated proof file for passive asset" inner)
        ∧ passiveStuck confEvent todo (fetchCalls t) false
    | Panicked _ => passiveStuck confEvent todo (fetchCalls t) true
    end).
Proof.
  revert idx sendPkg files suffixes.
  induction todo as [|vPkt todo IH]; intros idx sendPkg files suffixes;
    cbn [storeProofs_passive].
  { cbn [wp]. exists [], []. rewrite !app_nil_r.
    split; [done|]. split; [done|]. constructor. }
  destruct (VPacket.Outputs vPkt) as [|passiveOut outs] eqn:Houts.
  { cbn [wp]. apply passiveStuck_here. unfold passiveFails.
    by rewrite Houts. }
  apply (wp_bind (updateAssetProofFile _ _ _ _)).
  eapply wp_mono; [|apply updateAssetProofFile_full_wp].
  intros t0 [[suffix [file|err]]|msg] Hfile; wp_red.
  - eapply wp_mono; [|apply IH].
    assert (Hthis : passiveFile (sendPackage.TransferTxConfEvent sendPkg)
                      vPkt (fetchCalls t0) suffix file).
    { exists passiveOut. by rewrite Houts. }
    intros t1 [[pkg' [[files' suffixes']|err]]|msg] Hpost;
      cbn [sendPackage.TransferTxConfEvent sendPackage.set_PassiveAssets]
        in Hpost |- *;
      rewrite fetchCalls_app.
    + destruct Hpost as (newSuffixes & newFiles & -> & -> & Hrest).
      exists (suffix :: newSuffixes), (file :: newFiles).
      rewrite <- !app_assoc. split; [done|]. split; [done|].
      by constructor.
    + destruct Hpost as [Hinner Hstuck]. split; [done|].
      by eapply passiveStuck_later.
    + by eapply passiveStuck_later.
  - rewrite app_nil_r. split; [by eexists|].
    apply passiveStuck_here. unfold passiveFails. by rewrite Houts.
  - apply passiveStuck_here. unfold passiveFails. by rewrite Houts.
Qed.

Lemma only_fetches_length (t : list entry) :
  Forall (fun en => length (fetchCall en) = 1%nat) t ->
  length t = length (fetchCalls t).
Proof.
  induction 1 as [|en t Hen _ IH]; [done|].
  unfold fetchCalls in *. cbn [flat_map length].
  rewrite length_app, Hen, IH. done.
Qed.

Lemma storeProofs_passiveOnly_wp (pkg : sendPackage)
    (parcel : OutboundParcel) :
  sendPackage.OutboundPkg pkg = Some parcel ->
  OutboundParcel.Inputs parcel = [] ->
  wp (storeProofs pkg) (fun t o =>
    let confEvent := sendPackage.TransferTxConfEvent pkg in
    let passive := sendPackage.PassiveAssets pkg in
    (∃ tb files suffixes ierr tw,
       t = tb ++ Entry (ImportProofs false files) ierr :: tw
       ∧ length tb = length (fetchCalls tb)
       ∧ passiveFiles confEvent passive (fetchCalls tb) suffixes files
       ∧ match ierr with
         | Some err =>
             tw = []
             ∧ stoppedWith pkg (ErrWrap "error importing passive proof" err) o
         | None =>
             match suffixes with
             | [] => tw = [] ∧ advancedToTransfer pkg o
             | _ :: _ =>
                 ∃ werr, tw = [Entry (WatchProofs suffixes) werr]
                   ∧ match werr with
                     | Some err =>
                         stoppedWith pkg (ErrWrap "error watching proof" err) o
                     | None => advancedToTransfer pkg o
                     end
             end
         end)
    ∨ (∃ panics,
         length t = length (fetchCalls t)
         ∧ passiveStuck confEvent passive (fetchCalls t) panics
         ∧ if panics then ∃ msg, o = Panicked msg
           else ∃ inner,
                  stoppedWith pkg
                    (ErrWrap "failed to generate an updated proof file for passive asset" inner)
                    o)).
Proof.
  intros Hpkg Hinputs. unfold storeProofs. rewrite Hpkg, Hinputs.
  apply (wp_bind (storeProofs_passive _ _ _ _ _)).
  eapply wp_mono;
    [|apply wp_conj;
       [apply (storeProofs_passive_always
                 (fun en => length (fetchCall en) = 1%nat)); by intros
       |apply wp_conj;
          [apply storeProofs_passive_result_wp
          |apply storeProofs_passive_full_wp]]].
  intros t0 o0 (Hfetch & Hres & Hfull).
  apply only_fetches_length in Hfetch. cbn zeta in Hfull.
  destruct o0 as [[sendPkg r]|msg].
  2:{ cbn [wp]. right. exists true. split; [done|]. split; [done|].
      by eexists. }
  destruct (Hres sendPkg r eq_refl) as (HF & HS & _ & _).
  destruct r as [[files suffixes]|err]; wp_red.
  2:{ rewrite app_nil_r. destruct Hfull as [[inner ->] Hstuck].
      right. exists false. split; [done|]. split; [done|]. exists inner.
      by exists sendPkg. }
  destruct Hfull as (newSuffixes & newFiles & Hf & Hs & Hbuilt).
  simpl in Hf, Hs. subst files suffixes.
  intros ierr. destruct ierr as [err|]; wp_red.
  { left. exists t0, newFiles, newSuffixes, (Some err), [].
    split; [done|]. split; [done|]. split; [done|]. split; [done|].
    by exists sendPkg. }
  rewrite (bool_decide_eq_true_2 (length [] = 0%nat)) by done.
  destruct newSuffixes as [|suffix newSuffixes].
  { rewrite bool_decide_eq_false_2 by (cbn; lia). wp_red.
    left. exists t0, newFiles, [], None, [].
    split; [done|]. split; [done|]. split; [done|]. split; [done|].
    eexists. split; [done|]. by split. }
  rewrite bool_decide_eq_true_2 by (cbn; lia). wp_red.
  intros werr. destruct werr as [err|]; wp_red; left.
  - exists t0, newFiles, (suffix :: newSuffixes), None,
      [Entry (WatchProofs (suffix :: newSuffixes)) (Some err)].
    split; [done|]. split; [done|]. split; [done|]. exists (Some err).
    split; [done|]. by exists sendPkg.
  - exists t0, newFiles, (suffix :: newSuffixes), None,
      [Entry (WatchProofs (suffix :: newSuffixes)) None].
    split; [done|]. split; [done|]. split; [done|]. exists None.
    split; [done|]. eexists. split; [done|]. by split.
Qed.

(** C8.  For a package whose parcel has no inputs, [storeProofs] verifies
    no proof, fetches proof files for inputs of passive packets only and
    leaves [FinalProofs] as it was.  It first makes, for every passive
    packet in order, the updated proof file of the suffix of the first
    output of the packet, fetching the files of the inputs of the packet
    from the archive and calling nothing else.  If the file of a packet
    cannot be made it stops there, without an import and with the state as
    it was: with the error of the passive stage, or by a panic when the
    packet has no output or no input or the confirmation is missing.
    Otherwise it imports exactly these files, in one call and without
    replacing.  It returns nil with the state [SendStateTransferProofs]
    exactly when that import answers nil and, when there are passive
    packets, the watcher has then taken their updated suffixes without
    error; on an error of the import or of the watcher it returns that
    error wrapped, with the state as it was, and calls nothing more. *)
Theorem storeProofs_without_inputs {W : Type} (h : handler W) (w w' : W)
    (pkg : sendPackage) (parcel : OutboundParcel)
    (o : outcome (sendPackage * option error)) (t : list entry) :
  sendPackage.OutboundPkg pkg = Some parcel ->
  OutboundParcel.Inputs parcel = [] ->
  run h (storeProofs pkg) w = (o, w', t) ->
  let confEvent := sendPackage.TransferTxConfEvent pkg in
  let passive := sendPackage.PassiveAssets pkg in
  verifyCalls t = []
  ∧ Forall (fun c => ∃ input, input ∈ passiveInputs passive
                       ∧ locatorOfInput input c.1)
      (fetchCalls t)
  ∧ (importCalls t = []
     ∨ ∃ files, importCalls t = [(false, files)]
         ∧ Forall2 fileOfPassive files passive)
  ∧ (forall pkg' err, o = Done (pkg', err) ->
       sendPackage.FinalProofs pkg' = sendPackage.FinalProofs pkg
       ∧ match err with
         | None =>
             sendPackage.SendState pkg' = SendStateTransferProofs
             ∧ ∃ files, importCalls t = [(false, files)]
         | Some e =>
             passiveStageError e
             ∧ sendPackage.SendState pkg' = sendPackage.SendState pkg
         end)
  ∧ ((∃ tb files suffixes ierr tw,
        t = tb ++ Entry (ImportProofs false files) ierr :: tw
        ∧ length tb = length (fetchCalls tb)
        ∧ passiveFiles confEvent passive (fetchCalls tb) suffixes files
        ∧ match ierr with
          | Some err =>
              tw = []
              ∧ stoppedWith pkg (ErrWrap "error importing passive proof" err)
                  o
          | None =>
              match suffixes with
              | [] => tw = [] ∧ advancedToTransfer pkg o
              | _ :: _ =>
                  ∃ werr, tw = [Entry (WatchProofs suffixes) werr]
                    ∧ match werr with
                      | Some err =>
                          stoppedWith pkg
                            (ErrWrap "error watching proof" err) o
                      | None => advancedToTransfer pkg o
                      end
              end
          end)
     ∨ (∃ panics,
          length t = length (fetchCalls t)
          ∧ passiveStuck confEvent passive (fetchCalls t) panics
          ∧ if panics then ∃ msg, o = Panicked msg
            else ∃ inner,
                   stoppedWith pkg
                     (ErrWrap "failed to generate an updated proof file for passive asset" inner)
                     o)).
Proof.
  intros Hpkg Hinputs Hrun confEvent passive.
  destruct (wp_run_eq h _ _ w w' o t
              (storeProofs_noInputs_wp pkg parcel Hpkg Hinputs) Hrun)
    as (Hverify & Hfetch & Himport & Hres).
  split; [exact Hverify|]. split; [exact Hfetch|].
  split; [exact Himport|]. split; [exact Hres|].
  exact (wp_run_eq h _ _ w w' o t
           (storeProofs_passiveOnly_wp pkg parcel Hpkg Hinputs) Hrun).
Qed.

(** ** Further properties of the porter *)

(** *** The subscribers *)

Lemma NewChainPorter_wellKeyed : wellKeyed NewChainPorter.
Proof. intros id sub Hsub. cbn in Hsub. by rewrite lookup_empty in Hsub. Qed.

(** The set of subscribers is kept as a set of receivers: when every
    subscriber is filed under its own ID, it is so after a registration
    and after a removal. *)
Theorem subscribers_wellKeyed (p : ChainPorter) (receiver : EventReceiver)
    (deliverExisting deliverFrom : bool) :
  wellKeyed p ->
  wellKeyed (RegisterSubscriber p receiver deliverExisting deliverFrom).1
  ∧ wellKeyed (RemoveSubscriber p receiver).1.1.
Proof.
  intros Hp. split.
  - intros id sub. unfold RegisterSubscriber. cbn [fst ChainPorter.subscribers].
    intros [[<- <-]|[_ Hsub]]%lookup_insert_Some; [done|by apply Hp].
  - unfold RemoveSubscriber.
    destruct (ChainPorter.subscribers p !! EventReceiver.ID receiver);
      [|done].
    intros id sub. cbn [fst ChainPorter.subscribers].
    intros [_ Hsub]%lookup_delete_Some. by apply Hp.
Qed.

(** [RemoveSubscriber] returns nil exactly when the ID of the receiver is
    registered; it then stops the receiver and takes its ID, and only its
    ID, out of the map.  For an ID that is not registered it returns the
    error, stops nobody and leaves the porter as it is. *)
Theorem RemoveSubscriber_registered (p : ChainPorter)
    (subscriber : EventReceiver) :
  let id := EventReceiver.ID subscriber in
  let r := RemoveSubscriber p subscriber in
  (r.2 = None <-> is_Some (ChainPorter.subscribers p !! id))
  ∧ (r.2 = None ->
     r.1.2 = [subscriber]
     ∧ ChainPorter.subscribers r.1.1 !! id = None
     ∧ ∀ id', id' ≠ id ->
         ChainPorter.subscribers r.1.1 !! id' = ChainPorter.subscribers p !! id')
  ∧ (r.2 ≠ None ->
     r = (p, [], Some (ErrNew "subscriber with ID not found"))).
Proof.
  intros id r. subst id r. unfold RemoveSubscriber.
  destruct (ChainPorter.subscribers p !! EventReceiver.ID subscriber)
    as [sub|] eqn:Hsub; cbn [fst snd ChainPorter.subscribers].
  - split; [by split; eauto|]. split; [|done]. intros _.
    split; [done|]. split; [by rewrite lookup_delete_eq|].
    intros id' Hid'. by rewrite lookup_delete_ne.
  - split; [split; [done|by intros [? ?]]|]. split; [done|]. done.
Qed.

(** A receiver that was registered can be removed, once: the removal
    returns nil and stops it, the map is the one before the registration
    without its ID (the porter before the registration, when the ID was
    new), and a second removal returns the error. *)
Theorem RegisterSubscriber_then_Remove (p : ChainPorter)
    (receiver : EventReceiver) (deliverExisting deliverFrom : bool) :
  let registered :=
    (RegisterSubscriber p receiver deliverExisting deliverFrom).1 in
  let r := RemoveSubscriber registered receiver in
  r.2 = None ∧ r.1.2 = [receiver]
  ∧ ChainPorter.subscribers r.1.1
    = delete (EventReceiver.ID receiver) (ChainPorter.subscribers p)
  ∧ (ChainPorter.subscribers p !! EventReceiver.ID receiver = None ->
     r.1.1 = p)
  ∧ RemoveSubscriber r.1.1 receiver
    = (r.1.1, [], Some (ErrNew "subscriber with ID not found")).
Proof.
  intros registered r. subst registered r.
  unfold RegisterSubscriber, RemoveSubscriber.
  cbn [fst snd ChainPorter.subscribers]. rewrite lookup_insert_eq.
  cbn [fst snd ChainPorter.subscribers]. rewrite delete_insert_eq.
  rewrite lookup_delete_eq.
  repeat split. intros Hnew. destruct p as [subs]. f_equal.
  by apply delete_id.
Qed.

Lemma publishSubscriberEvent_range_wp (subs : list (N * EventReceiver))
    (event : AssetSendEvent) :
  wp (publishSubscriberEvent_range subs event) (fun t o =>
    o = Done tt
    ∧ t = (fun kv => Entry (SubscriberSend kv.2 event) tt) <$> subs).
Proof.
  induction subs as [|[id sub] subs IH]; [done|].
  cbn [publishSubscriberEvent_range]. wp_red. intros [].
  eapply wp_mono; [|exact IH]. intros t o [-> ->]. done.
Qed.

Lemma subscriberSends_fmap (subs : list (N * EventReceiver))
    (event : AssetSendEvent) :
  subscriberSends ((fun kv => Entry (SubscriberSend kv.2 event) tt) <$> subs)
  = (fun kv => (kv.2, event)) <$> subs.
Proof.
  induction subs as [|kv subs IH]; [done|].
  unfold subscriberSends in *. cbn. by rewrite IH.
Qed.

Lemma publishSubscriberEvent_run {W : Type} (h : handler W) (w : W)
    (p : ChainPorter) (event : AssetSendEvent) :
  (run h (publishSubscriberEvent p event) w).1.1 = Done tt
  ∧ (run h (publishSubscriberEvent p event) w).2
    = (fun kv => Entry (SubscriberSend kv.2 event) tt)
        <$> map_to_list (ChainPorter.subscribers p).
Proof.
  apply (wp_run h _ _ w (publishSubscriberEvent_range_wp
           (map_to_list (ChainPorter.subscribers p)) event)).
Qed.

Lemma filter_none {A : Type} (P : A -> Prop) `{!∀ x, Decision (P x)}
    (l : list A) :
  Forall (fun x => ¬ P x) l -> filter P l = [].
Proof. induction 1 as [|x l Hx _ IH]; [done|]. by rewrite filter_cons_False. Qed.

(** Who is notified follows the registrations: a receiver that has been
    registered is sent a published event exactly once, and after its
    removal it is sent none. *)
Theorem publishSubscriberEvent_after_Register {W : Type} (h : handler W)
    (w : W) (p : ChainPorter) (receiver : EventReceiver)
    (deliverExisting deliverFrom : bool) (event : AssetSendEvent) :
  wellKeyed p ->
  let registered :=
    (RegisterSubscriber p receiver deliverExisting deliverFrom).1 in
  let removed := (RemoveSubscriber registered receiver).1.1 in
  filter (fun se => se.1 = receiver)
    (subscriberSends (run h (publishSubscriberEvent registered event) w).2)
  = [(receiver, event)]
  ∧ filter (fun se => se.1 = receiver)
      (subscriberSends (run h (publishSubscriberEvent removed event) w).2)
    = [].
Proof.
  intros Hp registered removed.
  assert (Hrest : filter (fun se : EventReceiver * AssetSendEvent =>
                            se.1 = receiver)
            ((fun kv => (kv.2, event)) <$>
             map_to_list (delete (EventReceiver.ID receiver)
                            (ChainPorter.subscribers p))) = []).
  { apply filter_none, Forall_fmap, Forall_forall.
    intros [id sub] [Hid Hsub]%elem_of_map_to_list%lookup_delete_Some.
    simpl. intros ->. by apply Hid, (Hp id receiver). }
  split.
  - destruct (publishSubscriberEvent_run h w registered event) as [_ Ht].
    rewrite Ht, subscriberSends_fmap. apply Permutation_singleton_r.
    subst registered. unfold RegisterSubscriber.
    cbn [fst ChainPorter.subscribers].
    rewrite <- insert_delete_eq, map_to_list_insert
      by apply lookup_delete_eq.
    rewrite fmap_cons, filter_cons_True by done. by rewrite Hrest.
  - destruct (publishSubscriberEvent_run h w removed event) as [_ Ht].
    rewrite Ht, subscriberSends_fmap.
    subst removed registered. unfold RegisterSubscriber, RemoveSubscriber.
    cbn [fst snd ChainPorter.subscribers]. rewrite lookup_insert_eq.
    cbn [fst snd ChainPorter.subscribers]. by rewrite delete_insert_eq.
Qed.

Lemma Stop_range_all (todo : list (N * EventReceiver))
    (subscribers : gmap N EventReceiver) (stopped : list EventReceiver) :
  NoDup todo.*1 ->
  (∀ id sub, (id, sub) ∈ todo ->
     subscribers !! id = Some sub ∧ EventReceiver.ID sub = id) ->
  (∀ id, is_Some (subscribers !! id) -> id ∈ todo.*1) ->
  Stop_range todo subscribers stopped = (∅, stopped ++ todo.*2).
Proof.
  revert subscribers stopped.
  induction todo as [|[id sub] todo IH]; intros m stopped Hnd Hin Hdom.
  - simpl. rewrite app_nil_r. f_equal. apply map_empty. intros id.
    apply eq_None_not_Some. intros His.
    specialize (Hdom _ His). by apply elem_of_nil in Hdom.
  - cbn [Stop_range]. destruct (Hin id sub) as [Hm Hid]; [by left|].
    rewrite Hm, Hid. apply NoDup_cons in Hnd as [Hnotin Hnd].
    rewrite IH; [by rewrite <- app_assoc|done| |].
    + intros id' sub' Hel.
      destruct (Hin id' sub') as [Hm' Hid']; [by right|].
      split; [|done]. rewrite lookup_delete_ne; [done|]. intros <-.
      apply Hnotin, list_elem_of_fmap. by exists (id, sub').
    + intros id' [x [Hne Hx]%lookup_delete_Some].
      assert (Hel : id' ∈ ((id, sub) :: todo).*1) by (apply Hdom; by exists x).
      rewrite fmap_cons in Hel. by apply elem_of_cons in Hel as [Heq|Hel].
Qed.

(** The first call of [Stop] on a porter whose subscribers are each filed
    under their own ID returns nil with the quit channel closed and no
    subscriber left, and has stopped every subscriber once; a second call
    changes nothing and stops nobody. *)
Theorem Stop_stops_every_subscriber (s : Stoppable.t) :
  wellKeyed (Stoppable.porter s) ->
  Stoppable.stopOnce s = false ->
  let r := Stop s in
  r.2 = None
  ∧ r.1.1 = Stoppable.mk NewChainPorter true true
  ∧ r.1.2 ≡ₚ (map_to_list (ChainPorter.subscribers (Stoppable.porter s))).*2
  ∧ Stop r.1.1 = (r.1.1, [], None).
Proof.
  intros Hkeyed Honce r. subst r. unfold Stop. rewrite Honce.
  rewrite Stop_range_all.
  - done.
  - apply NoDup_fst_map_to_list.
  - intros id sub Hel%elem_of_map_to_list. split; [done|]. by apply Hkeyed.
  - intros id [sub Hsub]. apply list_elem_of_fmap. exists (id, sub).
    split; [done|]. by apply elem_of_map_to_list.
Qed.

(** *** The wallet: locks and imports *)

Lemma unlockInputs_range_log (ops : list OutPoint) :
  wp (unlockInputs_range ops) (fun t o =>
    o = Done tt ∧ unlockCalls t = ops ∧ length t = length ops).
Proof.
  induction ops as [|op ops IH]; [done|].
  cbn [unlockInputs_range]. wp_red. intros x.
  eapply wp_mono; [|exact IH]. intros t o (-> & Hu & Hl).
  unfold unlockCalls in *. cbn. by rewrite Hu, Hl.
Qed.

(** [unlockInputs] returns after one call of [UnlockInput] on each UTXO
    the funded PSBT of the anchor transaction has locked, in the order of
    the list, and no other call: an unlock that fails does not keep it
    from the next one.  Without an anchor transaction, or without a funded
    PSBT in it, it makes no call. *)
Theorem unlockInputs_unlocks_every_lock {W : Type} (h : handler W) (w : W)
    (pkg : sendPackage) :
  let r := run h (unlockInputs pkg) w in
  r.1.1 = Done tt
  ∧ unlockCalls r.2 = lockedUTXOs pkg
  ∧ length r.2 = length (lockedUTXOs pkg)
  ∧ (sendPackage.AnchorTx pkg = None -> r.2 = [])
  ∧ (∀ anchorTx, sendPackage.AnchorTx pkg = Some anchorTx ->
       AnchorTransaction.FundedPsbt anchorTx = None -> r.2 = []).
Proof.
  intros r. subst r. unfold unlockInputs, lockedUTXOs, lockedBy.
  destruct (sendPackage.AnchorTx pkg) as [anchorTx|]; [|done].
  destruct (AnchorTransaction.FundedPsbt anchorTx) as [psbt|] eqn:Hpsbt.
  - destruct (wp_run h _ _ w (unlockInputs_range_log
                (FundedPsbt.LockedUTXOs psbt))) as (Ho & Hu & Hl).
    repeat split; try done. intros ? [= <-]. by rewrite Hpsbt.
  - done.
Qed.

Lemma importLocalAddresses_range_wp (parcel : OutboundParcel)
    (todo : list TransferOutput) :
  wp (importLocalAddresses_range parcel todo)
     (ImportPost parcel (localOutputs todo)).
Proof.
  induction todo as [|out todo IH].
  { unfold ImportPost. cbn. split; [done|]. split; [done|]. left. done. }
  cbn [importLocalAddresses_range]. unfold localOutputs in *.
  rewrite filter_cons.
  destruct (TransferOutput.ScriptKeyLocal out) eqn:Hlocal; cbn [negb].
  2:{ rewrite decide_False by done. exact IH. }
  rewrite decide_True by done.
  assert (Hstop : ∀ (o : outcome (option error)),
            match o with
            | Done None => False
            | Done (Some err) => anchorOutputKeyOf parcel out = Some (Err err)
            | Panicked _ => anchorOutputKeyOf parcel out = None
            end ->
            ImportPost parcel (out :: filter (fun out => TransferOutput.ScriptKeyLocal out = true) todo) [] o).
  { intros o Ho. unfold ImportPost. cbn. split; [done|].
    split; [apply prefix_nil|]. left. split; [done|].
    destruct o as [[err|]|msg]; [by exists out|done|by exists out]. }
  unfold anchorOutputKeyOf in Hstop.
  destruct (MsgTx.TxOut _ !! _) as [anchorOutput|] eqn:Hanchor.
  2:{ by apply (Hstop (Panicked _)). }
  destruct (ExtractWitnessProgramInfo _) as [witProgram|err] eqn:Hwit.
  2:{ by apply (Hstop (Done (Some err))). }
  destruct (schnorr_ParsePubKey witProgram) as [anchorOutputKey|err] eqn:Hkey.
  2:{ by apply (Hstop (Done (Some err))). }
  clear Hstop. wp_red. intros answer.
  assert (Hgo : importAccepted answer = true ->
            wp (importLocalAddresses_range parcel todo) (fun t o =>
              ImportPost parcel
                (out :: filter (fun out => TransferOutput.ScriptKeyLocal out = true) todo)
                (Entry (ImportTaprootOutput anchorOutputKey) answer :: t) o)).
  { intros Hacc. eapply wp_mono; [|exact IH].
    intros t o (Hlen & Hpre & Hshape). unfold ImportPost, importKeyCalls in *.
    cbn. split; [by rewrite Hlen|]. split.
    { unfold anchorOutputKeyOf at 1. rewrite Hanchor, Hwit, Hkey.
      by apply prefix_cons. }
    destruct Hshape as [[Hall Ho]|(init & key & err & Himp & Hinit & Hrej & ->)].
    - left. split; [by constructor|].
      destruct o as [[err|]|msg]; cbn; [done|by rewrite Ho|done].
    - right. exists ((anchorOutputKey, answer) :: init), key, err.
      rewrite Himp. split; [done|]. split; [by constructor|]. done. }
  destruct answer as [err|]; [|by apply Hgo].
  destruct (strings_Contains (Error err) "already exists") eqn:Hexists;
    [by apply Hgo|].
  wp_red. unfold ImportPost. cbn. split; [done|]. split.
  { unfold anchorOutputKeyOf at 1. rewrite Hanchor, Hwit, Hkey.
    apply prefix_cons, prefix_nil. }
  right. by exists [], anchorOutputKey, err.
Qed.

(** [importLocalAddresses] calls nothing but [ImportTaprootOutput], on the
    Taproot keys of the anchor outputs of the local outputs of the parcel,
    in their order and never for an output that is not local.  It goes on
    after an answer that is nil or says the key already exists, and then
    returns nil once every local output is imported; it stops at the first
    other answer and returns that error as it is.  It also stops, before
    the import, at a local output whose anchor output yields no key (with
    that error) or does not exist (the index panics). *)
Theorem importLocalAddresses_imports_local_outputs {W : Type}
    (h : handler W) (w : W) (parcel : OutboundParcel) :
  let r := run h (importLocalAddresses (Some parcel)) w in
  let locals := localOutputs (OutboundParcel.Outputs parcel) in
  let imports := importKeyCalls r.2 in
  length r.2 = length imports
  ∧ ((fun c : PublicKey * option error => Some (Ok c.1)) <$> imports)
      `prefix_of` (anchorOutputKeyOf parcel <$> locals)
  ∧ (r.1.1 = Done None ->
     length imports = length locals
     ∧ Forall (fun c => importAccepted c.2 = true) imports)
  ∧ (∀ err, r.1.1 = Done (Some err) ->
       (∃ init key,
          imports = init ++ [(key, Some err)]
          ∧ Forall (fun c => importAccepted c.2 = true) init
          ∧ importAccepted (Some err) = false)
       ∨ (Forall (fun c => importAccepted c.2 = true) imports
          ∧ ∃ out, locals !! length imports = Some out
                   ∧ anchorOutputKeyOf parcel out = Some (Err err)))
  ∧ (∀ msg, r.1.1 = Panicked msg ->
       Forall (fun c => importAccepted c.2 = true) imports
       ∧ ∃ out, locals !! length imports = Some out
                ∧ anchorOutputKeyOf parcel out = None).
Proof.
  intros r locals imports. subst r locals imports.
  cbn [importLocalAddresses].
  destruct (wp_run h _ _ w (importLocalAddresses_range_wp parcel
              (OutboundParcel.Outputs parcel))) as (Hlen & Hpre & Hshape).
  split; [done|]. split; [done|].
  destruct Hshape as [[Hall Ho]|(init & key & err & Himp & Hinit & Hrej & Ho)].
  - split; [|split].
    + intros Hnil. by rewrite Hnil in Ho.
    + intros err Herr. rewrite Herr in Ho. right. done.
    + intros msg Hmsg. rewrite Hmsg in Ho. done.
  - rewrite Ho. split; [done|]. split; [|done].
    intros ? [= <-]. left. by exists init, key.
Qed.

(** *** The wait for the confirmation *)

Lemma waitForTransferTxConf_wp (pkg : sendPackage)
    (outboundPkg : OutboundParcel) (txOut0 : TxOut) (txOuts : list TxOut) :
  sendPackage.OutboundPkg pkg = Some outboundPkg ->
  MsgTx.TxOut (OutboundParcel.AnchorTx outboundPkg) = txOut0 :: txOuts ->
  wp (waitForTransferTxConf pkg) (fun t o =>
    (∃ answer rest,
       t = Entry (RegisterConfirmationsNtfn
                    (TxHash (OutboundParcel.AnchorTx outboundPkg))
                    (TxOut.PkScript txOut0) 1
                    (OutboundParcel.AnchorTxHeightHint outboundPkg) true)
             answer :: rest
       ∧ registerCalls rest = [])
    ∧ ∃ pkg' err, o = Done (pkg', err)
        ∧ ((∃ confEvent,
              selectAnswers t = [SelConfirmed confEvent]
              ∧ pkg' = sendPackage.set_SendState SendStateStoreProofs
                         (sendPackage.set_TransferTxConfEvent
                            (Some confEvent) pkg)
              ∧ err = None)
           ∨ (pkg' = pkg
              ∧ (∀ confEvent, SelConfirmed confEvent ∉ selectAnswers t)
              ∧ (err = None <-> selectAnswers t = [SelQuit])))).
Proof.
  intros Hpkg Houts. unfold waitForTransferTxConf. rewrite Hpkg, Houts.
  wp_red. intros [confNtfn|rerr]; wp_red.
  2:{ split; [by eexists _, _|]. eexists _, _. split; [done|]. right.
      split; [done|]. split; [intros ? []%elem_of_nil|]. by split. }
  intros sel.
  destruct sel as [confEvent|serr| |]; wp_red;
    (split; [by eexists _, _|]); eexists _, _; (split; [done|]).
  - left. by exists confEvent.
  - right. split; [done|]. split; [|by split].
    intros ? [=]%list_elem_of_singleton.
  - right. split; [done|]. split; [|by split].
    intros ? [=]%list_elem_of_singleton.
  - right. split; [done|]. split; [|by split].
    intros ? [=]%list_elem_of_singleton.
Qed.

(** For a parcel whose anchor transaction has an output, the first call
    of [waitForTransferTxConf] registers, for one confirmation with the
    block included, the hash of the anchor transaction with the script of
    its first output and the height hint of the parcel, and it registers
    once.  The wait may never end; whenever [waitForTransferTxConf]
    returns, the package is changed only if the wait received a
    confirmation: it then holds that confirmation and the state
    [SendStateStoreProofs], and the error is nil.  In every other case of
    a return the package is as it was, and the error is nil only when the
    wait ended on the quit channel. *)
Theorem waitForTransferTxConf_changes_on_confirmation {W : Type}
    (h : handler W) (w : W) (pkg : sendPackage) (outboundPkg : OutboundParcel)
    (txOut0 : TxOut) (txOuts : list TxOut) :
  sendPackage.OutboundPkg pkg = Some outboundPkg ->
  MsgTx.TxOut (OutboundParcel.AnchorTx outboundPkg) = txOut0 :: txOuts ->
  let r := run h (waitForTransferTxConf pkg) w in
  (∃ answer rest,
     r.2 = Entry (RegisterConfirmationsNtfn
                    (TxHash (OutboundParcel.AnchorTx outboundPkg))
                    (TxOut.PkScript txOut0) 1
                    (OutboundParcel.AnchorTxHeightHint outboundPkg) true)
             answer :: rest
     ∧ registerCalls rest = [])
  ∧ ∀ pkg' err, r.1.1 = Done (pkg', err) ->
      (∃ confEvent,
         selectAnswers r.2 = [SelConfirmed confEvent]
         ∧ pkg' = sendPackage.set_SendState SendStateStoreProofs
                    (sendPackage.set_TransferTxConfEvent (Some confEvent)
                       pkg)
         ∧ err = None)
      ∨ (pkg' = pkg
         ∧ (∀ confEvent, SelConfirmed confEvent ∉ selectAnswers r.2)
         ∧ (err = None <-> selectAnswers r.2 = [SelQuit])).
Proof.
  intros Hpkg Houts r. subst r.
  destruct (wp_run h _ _ w
              (waitForTransferTxConf_wp pkg outboundPkg txOut0 txOuts
                 Hpkg Houts))
    as (Hreg & pkg0 & err0 & Ho & Hcases).
  split; [exact Hreg|].
  intros pkg' err Hdone. rewrite Ho in Hdone.
  injection Hdone as <- <-. exact Hcases.
Qed.

(** *** Single steps *)

(** [stateStep] never returns a nil package with a nil error: when the
    error is nil there is a package for [advanceState] to go on with. *)
Theorem stateStep_returns_package_or_error {W : Type} (h : handler W)
    (w : W) (pkg : sendPackage) :
  (run h (stateStep pkg) w).1.1 ≠ Done (None, None).
Proof.
  destruct (wp_run h _ _ w (stateStep_wp pkg)) as [_ Hpost].
  intros Ho. by rewrite Ho in Hpost.
Qed.

(** A package whose state is [SendStateComplete] or beyond is no work for
    [stateStep]: it makes no call and returns the package as it is with
    the error of an unknown state. *)
Theorem stateStep_unknown_state {W : Type} (h : handler W) (w : W)
    (pkg : sendPackage) :
  SendStateComplete <= sendPackage.SendState pkg ->
  run h (stateStep pkg) w
  = (Done (Some pkg, Some (ErrNew "unknown state")), w, []).
Proof.
  intros Hstate. unfold stateStep, SendStateComplete in *.
  repeat match goal with
  | |- context [sendPackage.SendState pkg =? ?s] =>
      destruct (N.eqb_spec (sendPackage.SendState pkg) s) as [Heq|_];
      [unfold s in Heq; lia|]
  end.
  done.
Qed.

(** The state [SendStateVirtualCommitmentSelect] is for address parcels:
    for a pre-signed or a pending parcel the step asks no wallet and
    returns the error, with no package. *)
Theorem stateStep_needs_address_parcel {W : Type} (h : handler W) (w : W)
    (pkg : sendPackage) :
  sendPackage.SendState pkg = SendStateVirtualCommitmentSelect ->
  (∀ kit destAddrs transferFeeRate,
     sendPackage.Parcel pkg ≠ AddressParcel kit destAddrs transferFeeRate) ->
  run h (stateStep pkg) w
  = (Done (None, Some (ErrNew "unable to cast parcel to address parcel")),
     w, []).
Proof.
  intros Hstate Hparcel. state_red Hstate.
  destruct (sendPackage.Parcel pkg) as [kit destAddrs rate| |]; [|done..].
  by destruct (Hparcel kit destAddrs rate).
Qed.

Ltac successor_done Hstate :=
  let pkg' := fresh "pkg'" in
  intros pkg' [= <-]; left;
  cbn [sendPackage.SendState sendPackage.set_SendState];
  rewrite ?Hstate; reflexivity.

Lemma stateStep_successor_wp (pkg : sendPackage) :
  wp (stateStep pkg) (SuccessorPost pkg).
Proof.
  unfold SuccessorPost.
  destruct (N.eqb_spec (sendPackage.SendState pkg)
              SendStateVirtualCommitmentSelect) as [Hstate|H0].
  { state_red Hstate. destruct (sendPackage.Parcel pkg); wp_red; try done.
    intros [fundSendRes|err]; wp_red; [|done]. successor_done Hstate. }
  destruct (N.eqb_spec (sendPackage.SendState pkg) SendStateVirtualSign)
    as [Hstate|H1].
  { state_red Hstate. destruct (ValidateVPacketVersions _); [done|].
    apply (wp_bind (stateStep_sign _ _)). eapply wp_mono; [|apply wp_true].
    intros t [[vPackets [err|]]|msg] _; wp_red; try done.
    successor_done Hstate. }
  destruct (N.eqb_spec (sendPackage.SendState pkg) SendStateAnchorSign)
    as [Hstate|H2].
  { state_red Hstate.
    apply (wp_bind (match manualFeeRate _ with
                    | Some feeRate => Ret (Ok feeRate)
                    | None => call (EstimateFee SendConfTarget)
                    end)).
    eapply wp_mono; [|apply wp_true].
    intros t0 [[feeRate|err]|msg] _; wp_red; try done.
    apply (wp_bind (stateStep_logPackets _)).
    eapply wp_mono; [|apply wp_true].
    intros t1 [[]|msg] _; wp_red; try done.
    intros [passiveAssets|err]; wp_red; try done.
    intros [passiveAssets' [err|]]; wp_red; try done.
    intros [anchorTx|err]; wp_red; try done.
    destruct (validateReadyForPublish _ _) as [err|].
    - apply unlock_and_fail_wp. intros; done.
    - wp_red. successor_done Hstate. }
  destruct (N.eqb_spec (sendPackage.SendState pkg) SendStateStorePreBroadcast)
    as [Hstate|H3].
  { state_red Hstate. wp_red. intros [currentHeight|err].
    2:{ apply unlock_and_fail_wp. intros; done. }
    wp_red. intros [parcel|err].
    2:{ apply unlock_and_fail_wp. intros; done. }
    wp_red. intros now [err|].
    - apply unlock_and_fail_wp. intros; done.
    - wp_red. successor_done Hstate. }
  destruct (N.eqb_spec (sendPackage.SendState pkg) SendStateBroadcast)
    as [Hstate|H4].
  { state_red Hstate. apply (wp_bind (importLocalAddresses _)).
    eapply wp_mono; [|apply wp_true].
    intros t [[err|]|msg] _; try done.
    { apply unlock_and_fail_wp. intros; done. }
    destruct (sendPackage.OutboundPkg pkg); [|done].
    wp_red. intros [err|].
    - destruct (errors_Is_ErrDoubleSpend err); [|done].
      apply unlock_and_fail_wp. intros; done.
    - wp_red. intros []. successor_done Hstate. }
  destruct (N.eqb_spec (sendPackage.SendState pkg) SendStateWaitTxConf)
    as [Hstate|H5].
  { state_red Hstate. unfold waitForTransferTxConf.
    destruct (sendPackage.OutboundPkg pkg) as [outboundPkg|]; [|done].
    destruct (MsgTx.TxOut _) as [|txOut0 ?]; [done|].
    wp_red. intros [confNtfn|err]; wp_red; [|done].
    intros [confEvent|err| |]; wp_red; try done.
    - successor_done Hstate.
    - intros pkg' [= <-]. right. done. }
  destruct (N.eqb_spec (sendPackage.SendState pkg) SendStateStoreProofs)
    as [Hstate|H6].
  { state_red Hstate. apply (wp_bind (storeProofs pkg)).
    eapply wp_mono; [|apply storeProofs_state_wp].
    intros t [[pkg1 [err|]]|msg] Hst; wp_red; try done.
    intros pkg' [= <-]. left. by rewrite (Hst pkg1 eq_refl), ?Hstate. }
  destruct (N.eqb_spec (sendPackage.SendState pkg) SendStateTransferProofs)
    as [Hstate|H7].
  { state_red Hstate. wp_red. intros []. successor_done Hstate. }
  unfold stateStep.
  repeat match goal with
  | |- context [sendPackage.SendState pkg =? ?s] =>
      destruct (N.eqb_spec (sendPackage.SendState pkg) s); [done|]
  end.
  done.
Qed.

(** No state is skipped: a step that returns without error has moved the
    package to the state that follows the one it was in; the one
    exception is the wait for the confirmation when the porter is
    stopping, which returns the package as it was. *)
Theorem stateStep_moves_to_next_state {W : Type} (h : handler W) (w : W)
    (pkg pkg' : sendPackage) :
  (run h (stateStep pkg) w).1.1 = Done (Some pkg', None) ->
  sendPackage.SendState pkg' = sendPackage.SendState pkg + 1
  ∨ (sendPackage.SendState pkg = SendStateWaitTxConf ∧ pkg' = pkg
     ∧ selectAnswers (run h (stateStep pkg) w).2 = [SelQuit]).
Proof.
  intros Ho. by apply (wp_run h _ _ w (stateStep_successor_wp pkg)).
Qed.

Lemma flat_map_nil_Forall {A B : Type} (f : A -> list B) (l : list A) :
  Forall (fun a => f a = []) l -> flat_map f l = [].
Proof. induction 1 as [|a l Ha _ IH]; [done|]. simpl. by rewrite Ha, IH. Qed.

(** The readings of the log of a step, unfolded. *)
Ltac wp_red2 :=
  wp_red;
  cbn [subscriberSends subscriberSend errChanSends errChanSend importKeyCalls
       importKeyCall estimateCalls estimateCall anchorParams anchorParam
       signCalls signCall pendingLogs pendingLog publishCalls publishCall
       broadcastResps broadcastResp flat_map app].

Lemma unlockInputs_only_unlocks (pkg : sendPackage) :
  always (fun en => ∃ op x, en = Entry (UnlockInput op) x) (unlockInputs pkg).
Proof. apply unlockInputs_always. intros op x. by exists op, x. Qed.

Lemma unlock_then_return_wp {A : Type} (pkg : sendPackage) (r : A)
    (Q : list entry -> outcome A -> Prop) :
  (∀ t, Forall (fun en => ∃ op x, en = Entry (UnlockInput op) x) t ->
        Q t (Done r)) ->
  wp (_ ← unlockInputs pkg; Ret r) Q.
Proof.
  intros HQ. apply (wp_bind (unlockInputs pkg)).
  eapply wp_mono;
    [|apply (wp_conj _ _ _ (unlockInputs_wp pkg)
               (unlockInputs_only_unlocks pkg))].
  intros t o [(-> & _) Hun]. wp_red. rewrite app_nil_r. by apply HQ.
Qed.

Lemma only_unlocks_reads (t : list entry) :
  Forall (fun en => ∃ op x, en = Entry (UnlockInput op) x) t ->
  publishCalls t = [] ∧ pendingLogs t = [] ∧ estimateCalls t = []
  ∧ anchorParams t = [] ∧ broadcastResps t = [] ∧ importKeyCalls t = []
  ∧ signCalls t = [] ∧ anchorAnswers t = [] ∧ publishAnswers t = [].
Proof.
  intros Hun. repeat split; apply flat_map_nil_Forall;
    (eapply Forall_impl; [exact Hun|]); by intros en (op & x & ->).
Qed.

Lemma stateStep_StorePreBroadcast_checkpoint_wp (pkg : sendPackage) :
  sendPackage.SendState pkg = SendStateStorePreBroadcast ->
  wp (stateStep pkg) (fun t o =>
    publishCalls t = []
    ∧ ((∃ parcel, (parcel, None) ∈ pendingLogs t)
       <-> ∃ pkg', o = Done (Some pkg', None))
    ∧ ∀ pkg', o = Done (Some pkg', None) ->
        ∃ currentHeight parcel now,
          t = [Entry CurrentHeight (Ok currentHeight);
               Entry (ConvertToTransfer currentHeight
                        (sendPackage.VirtualPackets pkg)
                        (sendPackage.AnchorTx pkg)
                        (sendPackage.PassiveAssets pkg)) (Ok parcel);
               Entry TimeNow now;
               Entry (LogPendingParcel parcel defaultWalletLeaseIdentifier
                        (now + defaultBroadcastCoinLeaseDuration)) None]
          ∧ pkg' = sendPackage.set_SendState SendStateBroadcast
                     (sendPackage.set_OutboundPkg (Some parcel) pkg)).
Proof.
  intros Hstate. state_red Hstate.
  wp_red. intros [currentHeight|err].
  2:{ apply unlock_then_return_wp. intros t Hun.
      destruct (only_unlocks_reads t Hun) as (Hp & Hl & _).
      unfold publishCalls, pendingLogs in *. wp_red2. rewrite Hp, Hl.
      split; [done|]. split; [|done].
      split; [by intros [? []%elem_of_nil]|by intros [? ?]]. }
  wp_red. intros [parcel|err].
  2:{ apply unlock_then_return_wp. intros t Hun.
      destruct (only_unlocks_reads t Hun) as (Hp & Hl & _).
      unfold publishCalls, pendingLogs in *. wp_red2. rewrite Hp, Hl.
      split; [done|]. split; [|done].
      split; [by intros [? []%elem_of_nil]|by intros [? ?]]. }
  wp_red. intros now [err|].
  - apply unlock_then_return_wp. intros t Hun.
    destruct (only_unlocks_reads t Hun) as (Hp & Hl & _).
    unfold publishCalls, pendingLogs in *. wp_red2. rewrite Hp, Hl.
    split; [done|]. split; [|done].
    split; [by intros [? [=]%list_elem_of_singleton]|by intros [? ?]].
  - wp_red2. split; [done|]. split.
    + split; [by eexists|]. intros _. exists parcel. by left.
    + intros pkg' [= <-]. by exists currentHeight, parcel, now.
Qed.

(** The checkpoint: in the state [SendStateStorePreBroadcast] nothing is
    published, and the step returns without error exactly when the export
    log has taken the pending parcel.  The step has then asked for the
    height, had the parcel made of the packets and the anchor transaction
    of the package, and written that parcel with the lease of the wallet
    until the time of the write plus the lease duration; the package it
    returns holds that parcel and the state [SendStateBroadcast]. *)
Theorem stateStep_StorePreBroadcast_checkpoint {W : Type} (h : handler W)
    (w : W) (pkg : sendPackage) :
  sendPackage.SendState pkg = SendStateStorePreBroadcast ->
  let r := run h (stateStep pkg) w in
  publishCalls r.2 = []
  ∧ ((∃ parcel, (parcel, None) ∈ pendingLogs r.2)
     <-> ∃ pkg', r.1.1 = Done (Some pkg', None))
  ∧ ∀ pkg', r.1.1 = Done (Some pkg', None) ->
      ∃ currentHeight parcel now,
        r.2 = [Entry CurrentHeight (Ok currentHeight);
               Entry (ConvertToTransfer currentHeight
                        (sendPackage.VirtualPackets pkg)
                        (sendPackage.AnchorTx pkg)
                        (sendPackage.PassiveAssets pkg)) (Ok parcel);
               Entry TimeNow now;
               Entry (LogPendingParcel parcel defaultWalletLeaseIdentifier
                        (now + defaultBroadcastCoinLeaseDuration)) None]
        ∧ pkg' = sendPackage.set_SendState SendStateBroadcast
                   (sendPackage.set_OutboundPkg (Some parcel) pkg).
Proof.
  intros Hstate r. subst r.
  apply (wp_run h _ _ w (stateStep_StorePreBroadcast_checkpoint_wp pkg Hstate)).
Qed.

Lemma importKeyCalls_length (t : list entry) :
  (length (importKeyCalls t) <= length t)%nat.
Proof.
  induction t as [|[X e x] t IH]; [done|].
  unfold importKeyCalls in *. destruct e; cbn; lia.
Qed.

Lemma only_imports_reads (t : list entry) :
  length t = length (importKeyCalls t) ->
  publishCalls t = [] ∧ broadcastResps t = [].
Proof.
  induction t as [|[X e x] t IH]; [done|].
  pose proof (importKeyCalls_length t).
  unfold importKeyCalls, publishCalls, broadcastResps in *.
  destruct e; cbn; intros Hlen; try lia. apply IH. lia.
Qed.

Lemma stateStep_Broadcast_order_wp (pkg : sendPackage)
    (parcel : OutboundParcel) :
  sendPackage.SendState pkg = SendStateBroadcast ->
  sendPackage.OutboundPkg pkg = Some parcel ->
  wp (stateStep pkg) (fun t o =>
    (publishCalls t = [] ∧ broadcastResps t = []
     ∧ ∀ pkg', o ≠ Done (Some pkg', None))
    ∨ ∃ t1 answer t2,
        t = t1 ++ Entry (PublishTransaction (OutboundParcel.AnchorTx parcel))
                    answer :: t2
        ∧ length t1 = length (importKeyCalls t1)
        ∧ (fun c : PublicKey * option error => Some (Ok c.1))
            <$> importKeyCalls t1
          = anchorOutputKeyOf parcel
              <$> localOutputs (OutboundParcel.Outputs parcel)
        ∧ Forall (fun c => importAccepted c.2 = true) (importKeyCalls t1)
        ∧ publishCalls t2 = []
        ∧ match answer with
          | None =>
              t2 = [Entry (DeliverTxBroadcastResp pkg) tt]
              ∧ o = Done (Some (sendPackage.set_SendState
                                  SendStateWaitTxConf pkg), None)
          | Some err =>
              broadcastResps t2 = []
              ∧ o = Done (None,
                          Some (ErrWrap "unable to broadcast transaction" err))
          end).
Proof.
  intros Hstate Hpkg. state_red Hstate. rewrite Hpkg.
  cbn [importLocalAddresses].
  apply (wp_bind (importLocalAddresses_range _ _)).
  eapply wp_mono; [|apply importLocalAddresses_range_wp].
  pose proof only_imports_reads as Hreads.
  intros t1 [[err|]|msg] (Hlen & Hpre & Hshape).
  - destruct (Hreads t1 Hlen) as [Hp Hb].
    apply unlock_then_return_wp. intros t Hun. left.
    destruct (only_unlocks_reads t Hun) as (Hp' & _ & _ & _ & Hb' & _).
    unfold publishCalls, broadcastResps in *.
    rewrite !flat_map_app, Hp, Hb, Hp', Hb'. done.
  - destruct Hshape as [[Hall Hall']|(? & ? & ? & _ & _ & _ & [=])].
    assert (Hkeys : (fun c : PublicKey * option error => Some (Ok c.1))
                      <$> importKeyCalls t1
                    = anchorOutputKeyOf parcel
                        <$> localOutputs (OutboundParcel.Outputs parcel)).
    { apply prefix_length_eq; [done|]. rewrite !length_fmap. lia. }
    wp_red. intros [err|].
    + destruct (errors_Is_ErrDoubleSpend err).
      * apply unlock_then_return_wp. intros t Hun.
        destruct (only_unlocks_reads t Hun) as (Hp' & _ & _ & _ & Hb' & _).
        right. exists t1, (Some err), t. done.
      * wp_red. right. exists t1, (Some err), []. done.
    + wp_red. intros []. right. exists t1, None. eexists. done.
  - destruct (Hreads t1 Hlen) as [Hp Hb]. left. done.
Qed.

(** In the state [SendStateBroadcast] the anchor transaction of the parcel
    is published at most once, and only after the Taproot key of every
    local output has been imported with an accepted answer, these imports
    being all the calls before it.  The broadcast response is delivered
    exactly when the publication answered nil, and the package then moves
    to [SendStateWaitTxConf]; when it answered an error nothing is
    delivered and the error comes back wrapped.  Without a publication
    the step does not succeed. *)
Theorem stateStep_Broadcast_publishes_after_import {W : Type}
    (h : handler W) (w : W) (pkg : sendPackage) (parcel : OutboundParcel) :
  sendPackage.SendState pkg = SendStateBroadcast ->
  sendPackage.OutboundPkg pkg = Some parcel ->
  let r := run h (stateStep pkg) w in
  (publishCalls r.2 = [] ∧ broadcastResps r.2 = []
   ∧ ∀ pkg', r.1.1 ≠ Done (Some pkg', None))
  ∨ ∃ t1 answer t2,
      r.2 = t1 ++ Entry (PublishTransaction (OutboundParcel.AnchorTx parcel))
                    answer :: t2
      ∧ length t1 = length (importKeyCalls t1)
      ∧ (fun c : PublicKey * option error => Some (Ok c.1))
          <$> importKeyCalls t1
        = anchorOutputKeyOf parcel
            <$> localOutputs (OutboundParcel.Outputs parcel)
      ∧ Forall (fun c => importAccepted c.2 = true) (importKeyCalls t1)
      ∧ publishCalls t2 = []
      ∧ match answer with
        | None =>
            t2 = [Entry (DeliverTxBroadcastResp pkg) tt]
            ∧ r.1.1 = Done (Some (sendPackage.set_SendState
                                    SendStateWaitTxConf pkg), None)
        | Some err =>
            broadcastResps t2 = []
            ∧ r.1.1 = Done (None,
                            Some (ErrWrap "unable to broadcast transaction"
                                    err))
        end.
Proof.
  intros Hstate Hpkg r. subst r.
  apply (wp_run h _ _ w (stateStep_Broadcast_order_wp pkg parcel Hstate Hpkg)).
Qed.








(** *** The loop of the state machine *)


Lemma publish_reads (subs : list (N * EventReceiver)) (event : AssetSendEvent) :
  let t := (fun kv => Entry (SubscriberSend kv.2 event) tt) <$> subs in
  errChanSends t = [] ∧ executingStates t = []
  ∧ subscriberSends t = (fun kv => (kv.2, event)) <$> subs.
Proof.
  induction subs as [|kv subs (He & Hx & Hs)]; [done|].
  unfold errChanSends, executingStates, subscriberSends in *. cbn.
  by rewrite He, Hx, Hs.
Qed.




Lemma run_closed {W R : Type} (h : handler W) (closed : W -> bool)
    (p : Prog R) (w : W) :
  quitMonotone h closed ->
  closed w = true ∨ SelQuit ∈ selectAnswers (run h p w).2 ->
  closed (run h p w).1.2 = true.
Proof.
  intros (Hmono & Hsel & _). revert w.
  induction p as [r|msg|X e k IH]; intros w Hw; simpl in *.
  - destruct Hw as [Hw|Hw]; [done|]. by apply elem_of_nil in Hw.
  - destruct Hw as [Hw|Hw]; [done|]. by apply elem_of_nil in Hw.
  - destruct (h X e w) as [x w1] eqn:Hh. specialize (IH x w1).
    destruct (run h (k x) w1) as [[o w2] t]. simpl in *. apply IH.
    destruct Hw as [Hw|Hw].
    + left. specialize (Hmono X e w Hw). by rewrite Hh in Hmono.
    + unfold selectAnswers in *. simpl in Hw.
      apply elem_of_app in Hw as [Hw|Hw]; [|by right]. left.
      destruct e; simpl in Hw; try by apply elem_of_nil in Hw.
      apply list_elem_of_singleton in Hw. subst x.
      specialize (Hsel confNtfn w). rewrite Hh in Hsel. by apply Hsel.
Qed.

Lemma stateStep_repeat_wp (pkg : sendPackage) :
  wp (stateStep pkg) (fun t o =>
    forall pkg', o = Done (Some pkg', None) ->
      sendPackage.SendState pkg < sendPackage.SendState pkg'
      ∨ SelQuit ∈ selectAnswers t).
Proof.
  destruct (N.eqb_spec (sendPackage.SendState pkg) SendStateWaitTxConf)
    as [Hstate|Hstate].
  - state_red Hstate. unfold waitForTransferTxConf.
    destruct (sendPackage.OutboundPkg pkg) as [outboundPkg|]; [|done].
    destruct (MsgTx.TxOut _) as [|txOut0 ?]; [done|].
    wp_red. intros [confNtfn|err]; wp_red; [|done].
    intros [confEvent|err| |]; wp_red; try done.
    + intros pkg' [= <-]. left. simpl. rewrite ?Hstate. done.
    + intros pkg' _. right. by left.
  - eapply wp_mono; [|apply stateStep_wp].
    intros t o [_ Hpost] pkg' ->. destruct Hpost as [[Hlt|[Heq _]] _]; [|done].
    by left.
Qed.

(** [advanceState] comes to an end.  When the quit channel, once closed,
    stays closed, a run from a package in the state [s] is over within
    [9 - s] rounds of the loop (within one round, when the channel is
    closed from the start): the bound on the rounds is not what ends it.
    A state is executed once, but for the wait for the confirmation,
    which is entered again only after the wait ended on the quit channel,
    and then the loop returns at its next test. *)
Theorem advanceState_returns {W : Type} (h : handler W) (closed : W -> bool)
    (fuel : nat) (p : ChainPorter) (pkg : sendPackage) (kit : parcelKit)
    (w : W) :
  quitMonotone h closed ->
  (closed w = true ∧ (1 <= fuel)%nat)
  ∨ (9 <= fuel + N.to_nat (sendPackage.SendState pkg))%nat ->
  (run h (advanceState fuel p pkg kit) w).1.1 ≠ Done None.
Proof.
  intros Hquit. revert pkg w.
  induction fuel as [|fuel IH]; intros pkg w Hcase; cbn [advanceState];
    destruct (N.ltb_spec (sendPackage.SendState pkg) SendStateComplete)
      as [Hlt|Hge]; try done.
  { unfold SendStateComplete in Hlt. lia. }
  rewrite (run_bind_outcome h _ _ _ _ _ _ (run_call h _ w)).
  rewrite (run_bind_outcome h _ _ _ _ _ _ (run_call h _ _)).
  destruct ((h _ QuitClosed _).1) eqn:Hq; [done|].
  assert (Hfuel : (9 <= S fuel + N.to_nat (sendPackage.SendState pkg))%nat).
  { destruct Hcase as [[Hc _]|Hc]; [|done].
    destruct Hquit as (Hmono & _ & Hsees).
    rewrite (Hsees _ (Hmono _ (LogExecutingState _) w Hc)) in Hq. done. }
  set (w2 := (h bool QuitClosed _).2).
  destruct (run h (stateStep pkg) w2) as [[o3 w3] t3] eqn:Hstep.
  pose proof (wp_run_eq h _ _ _ _ _ _ (stateStep_repeat_wp pkg) Hstep)
    as Hrepeat.
  pose proof (run_closed h closed (stateStep pkg) w2 Hquit) as Hclosed.
  rewrite Hstep in Hclosed. simpl in Hclosed.
  destruct o3 as [[updated [err|]]|msg].
  - rewrite (run_bind_outcome h _ _ _ _ _ _ Hstep).
    pose proof (wp_run h _ _ w3 (advanceState_failed_wp p pkg kit err
                  (sendPackage.SendState pkg))) as [Ho _].
    rewrite Ho. done.
  - rewrite (run_bind_outcome h _ _ _ _ _ _ Hstep).
    destruct updated as [updatedPkg|]; [|done].
    destruct (run h (event ← newAssetSendEvent
                               (sendPackage.SendState pkg) updatedPkg;
                     publishSubscriberEvent p event) w3)
      as [[o4 w4] t4] eqn:Hnotify.
    pose proof (wp_run_eq h _ _ _ _ _ _
                  (advanceState_notify_wp p updatedPkg _ true) Hnotify)
      as [-> _].
    rewrite (run_bind_outcome h _ _ _ _ _ _ Hnotify).
    apply IH.
    destruct (Hrepeat updatedPkg eq_refl) as [Hup|Hsel].
    + right. lia.
    + left. split; [|unfold SendStateComplete in Hlt; lia].
      pose proof (run_closed h closed
                    (event ← newAssetSendEvent
                               (sendPackage.SendState pkg) updatedPkg;
                     publishSubscriberEvent p event) w3 Hquit) as Hc4.
      rewrite Hnotify in Hc4. apply Hc4. left. apply Hclosed. by right.
  - rewrite run_bind, Hstep. done.
Qed.

(** *** The proofs of a confirmed transfer *)

Lemma updateAssetProofFile_reads (inputs : list PrevID) (proofSuffix : Proof)
    (newScriptKey : ScriptKey) (confEvent : option TxConfirmation) :
  wp (updateAssetProofFile inputs proofSuffix newScriptKey confEvent)
     (fun t o =>
        archiveCalls t = []
        ∧ ∀ suffix ap, o = Done (suffix, Ok ap) ->
            Locator.ScriptKey (AnnotatedProof.Locator ap)
            = ScriptKey.PubKey newScriptKey).
Proof.
  apply wp_conj; [|apply updateAssetProofFile_locator_wp].
  eapply wp_mono;
    [|apply (updateAssetProofFile_always (fun en => archiveCallOf en = []));
      by intros].
  intros t o Ht. by apply flat_map_nil_Forall.
Qed.

Ltac archive_red :=
  unfold archiveCalls in *;
  repeat first
    [ rewrite flat_map_app
    | progress cbn [flat_map archiveCallOf app]
    | rewrite app_nil_r
    | match goal with
      | Heq : flat_map archiveCallOf ?t = _ |- _ => rewrite Heq
      end ];
  cbn [verifiedImports].

Lemma storeProofs_outputs_wp (parcel : OutboundParcel)
    (todo : list TransferOutput) (sendPkg : sendPackage)
    (m : gmap SerializedKey AnnotatedProof) :
  sendPackage.FinalProofs sendPkg = Some m ->
  keyedByScriptKey m ->
  wp (storeProofs_outputs parcel todo sendPkg) (fun t o =>
    verifiedImports (archiveCalls t)
    ∧ ∀ pkg', o = Done (pkg', None) ->
        ∃ m', sendPackage.FinalProofs pkg' = Some m'
              ∧ keyedByScriptKey m'
              ∧ dom m' = dom m ∪ outputKeys todo).
Proof.
  revert sendPkg m.
  induction todo as [|out todo IH]; intros sendPkg m Hm Hkeyed;
    cbn [storeProofs_outputs].
  { split; [done|]. intros pkg' [= <-]. exists m. split; [done|].
    split; [done|]. unfold outputKeys.
    by rewrite fmap_nil, list_to_set_nil, (right_id_L ∅ (∪)). }
  destruct (Proof_Decode _) as [parsedSuffix|err]; [|done].
  apply (wp_bind (updateAssetProofFile _ _ _ _)).
  eapply wp_mono; [|apply updateAssetProofFile_reads].
  intros t0 [[suffix [outputProof|err]]|msg] [Ht0 Hloc]; wp_red;
    [|archive_red; done..].
  specialize (Hloc _ _ eq_refl).
  intros [verr|]; wp_red; [archive_red; done|].
  assert (Hgo : wp (storeProofs_outputs parcel todo
                      (FinalProofs_store
                         (ToSerialized (ScriptKey.PubKey
                                          (TransferOutput.ScriptKey out)))
                         outputProof sendPkg))
            (fun t o =>
               verifiedImports (archiveCalls t)
               ∧ ∀ pkg', o = Done (pkg', None) ->
                   ∃ m', sendPackage.FinalProofs pkg' = Some m'
                         ∧ keyedByScriptKey m'
                         ∧ dom m' = dom m ∪ outputKeys (out :: todo))).
  { eapply wp_mono;
      [|apply (IH _ (<[ToSerialized (ScriptKey.PubKey
                                       (TransferOutput.ScriptKey out))
                       := outputProof]> m))].
    - intros t o [Hv Hres]. split; [done|]. intros pkg' Ho.
      destruct (Hres pkg' Ho) as (m' & Hm' & Hk' & Hdom).
      exists m'. split; [done|]. split; [done|]. rewrite Hdom.
      unfold outputKeys. rewrite dom_insert_L, fmap_cons, list_to_set_cons.
      rewrite (comm_L (∪) _ (dom m)). by rewrite <- !(assoc_L (∪)).
    - unfold FinalProofs_store. cbn. by rewrite Hm.
    - intros key proof [[<- <-]|[_ Hin]]%lookup_insert_Some.
      + by rewrite Hloc.
      + by apply Hkeyed. }
  intros [ierr|]; wp_red.
  { archive_red. split; [|done]. split; [done|]. split; [by eexists|done]. }
  destruct (hasTweakedScriptKey _ && _).
  - wp_red. intros [werr|]; wp_red.
    + archive_red. split; [|done]. split; [done|]. split; [by eexists|done].
    + eapply wp_mono; [|exact Hgo]. intros t o [Hv Hres]. archive_red.
      split; [|done]. split; [done|]. split; [by eexists|done].
  - eapply wp_mono; [|exact Hgo]. intros t o [Hv Hres]. archive_red.
    split; [|done]. split; [done|]. split; [by eexists|done].
Qed.

Lemma storeProofs_watch_wp (suffixes : list Proof) :
  wp (if bool_decide (0 < length suffixes)%nat
      then call (WatchProofs suffixes) else Ret None)
     (fun t o =>
        (∃ werr, o = Done werr)
        ∧ ∃ watches, archiveCalls t = watches
            ∧ ∀ more, verifiedImports more -> verifiedImports (watches ++ more)).
Proof.
  destruct (bool_decide _); wp_red.
  - intros werr. split; [by eexists|]. eexists. split; [done|]. by intros.
  - split; [by eexists|]. eexists. split; [done|]. by intros.
Qed.

Lemma storeProofs_archive_wp (pkg : sendPackage) :
  wp (storeProofs pkg) (fun t o =>
    (archiveCalls t = []
     ∨ ∃ files answer rest,
         archiveCalls t = CallImport false files answer :: rest
         ∧ verifiedImports rest)
    ∧ ∀ parcel pkg',
        sendPackage.OutboundPkg pkg = Some parcel ->
        OutboundParcel.Inputs parcel ≠ [] ->
        o = Done (pkg', None) ->
        ∃ m, sendPackage.FinalProofs pkg' = Some m
             ∧ keyedByScriptKey m
             ∧ dom m = outputKeys (OutboundParcel.Outputs parcel)).
Proof.
  unfold storeProofs.
  apply (wp_bind (storeProofs_passive _ _ _ _ _)).
  eapply wp_mono;
    [|apply (storeProofs_passive_always (fun en => archiveCallOf en = []));
      by intros].
  intros t0 o0 Ht0%flat_map_nil_Forall.
  destruct o0 as [[sendPkg [[files suffixes]|err]]|msg]; wp_red;
    [|archive_red; split; [by left|done]..].
  intros [ierr|]; wp_red.
  { archive_red. split; [right; by eexists _, _, _|done]. }
  apply (wp_bind (if bool_decide _ then _ else _)).
  eapply wp_mono; [|apply storeProofs_watch_wp].
  intros t1 o1 [[werr ->] (watches & Hwatches & Hmore)].
  assert (Hnil : verifiedImports watches).
  { rewrite <- (app_nil_r watches). by apply Hmore. }
  destruct werr as [werr|]; wp_red.
  { archive_red. split; [right; by eexists _, _, _|done]. }
  destruct (sendPackage.OutboundPkg pkg) as [parcel|] eqn:Hparcel.
  2:{ wp_red. archive_red. split; [right; by eexists _, _, _|done]. }
  destruct (bool_decide _) eqn:Hempty.
  { wp_red. archive_red. split; [right; by eexists _, _, _|].
    intros parcel' pkg' [= <-] Hinputs. apply bool_decide_eq_true in Hempty.
    by destruct (OutboundParcel.Inputs parcel). }
  apply (wp_bind (storeProofs_outputs _ _ _)).
  eapply wp_mono; [|apply (storeProofs_outputs_wp _ _ _ ∅)]; [|done|done].
  intros t2 o2 [Hv Hres].
  assert (Hall : verifiedImports (watches ++ archiveCalls t2))
    by (by apply Hmore).
  destruct o2 as [[sendPkg' [err|]]|msg]; wp_red.
  - archive_red. split; [right; by eexists _, _, _|done].
  - archive_red. split; [right; by eexists _, _, _|].
    intros parcel' pkg' [= <-] _ [= <-].
    destruct (Hres _ eq_refl) as (m' & Hm' & Hk' & Hdom).
    exists m'. split; [done|]. split; [done|].
    by rewrite Hdom, dom_empty_L, (left_id_L ∅ (∪)).
  - archive_red. split; [right; by eexists _, _, _|done].
Qed.


(** When [storeProofs] returns nil for a parcel with inputs, the final
    proofs of the package are a map whose keys are the serialized script
    keys of the outputs of the parcel, no more and no less, and every
    proof in it has in its locator the script key it is filed under. *)
Theorem storeProofs_files_every_output {W : Type} (h : handler W) (w : W)
    (pkg pkg' : sendPackage) (parcel : OutboundParcel) :
  sendPackage.OutboundPkg pkg = Some parcel ->
  OutboundParcel.Inputs parcel ≠ [] ->
  (run h (storeProofs pkg) w).1.1 = Done (pkg', None) ->
  ∃ m, sendPackage.FinalProofs pkg' = Some m
       ∧ keyedByScriptKey m
       ∧ dom m = outputKeys (OutboundParcel.Outputs parcel).
Proof.
  intros Hparcel Hinputs Ho.
  by apply (wp_run h _ _ w (storeProofs_archive_wp pkg)).
Qed.

Lemma findReceiverProof_keyed (m : gmap SerializedKey AnnotatedProof)
    (key : PublicKey) :
  Inj (=) (=) ToSerialized ->
  keyedByScriptKey m ->
  ToSerialized key ∈ dom m ->
  ∃ proof, findReceiverProof (Some m) key = Some proof
           ∧ Locator.ScriptKey (AnnotatedProof.Locator proof) = key.
Proof.
  intros Hinj Hkeyed [proof0 Hproof0]%elem_of_dom.
  assert (Hkey0 : Locator.ScriptKey (AnnotatedProof.Locator proof0) = key)
    by (apply Hinj; by eapply Hkeyed).
  unfold findReceiverProof. change (default ∅ (Some m)) with m.
  destruct (list_find_elem_of
              (fun kv : SerializedKey * AnnotatedProof =>
                 Locator.ScriptKey (AnnotatedProof.Locator kv.2) = key)
              (map_to_list m) (ToSerialized key, proof0))
    as [[i kv] Hfind]; [by apply elem_of_map_to_list|done|].
  rewrite Hfind. apply list_find_Some in Hfind as (_ & Hkv & _).
  by exists kv.2.
Qed.

Lemma deliver_found_wp (p : ChainPorter) (pkg : sendPackage)
    (out : TransferOutput) (proof : AnnotatedProof) :
  findReceiverProof (sendPackage.FinalProofs pkg)
    (ScriptKey.PubKey (TransferOutput.ScriptKey out)) = Some proof ->
  wp (deliver p pkg out) (fun _ o =>
    o ≠ Done (Some (ErrNew "no proof found for output with script key"))).
Proof.
  intros Hfind. unfold deliver. rewrite Hfind.
  destruct (_ && _); [done|].
  destruct (IsUnSpendable _) as [[|]|err]; [done| |done].
  destruct (isBurnOutput out); [done|].
  destruct (bool_decide _); [done|].
  destruct (ParseCourierAddress _); [|done].
  destruct (Locator.AssetID _); [|done].
  wp_red. intros [courier|err]; wp_red; [|done].
  intros [] [err|] []; [|done].
  by destruct (errors_As_BackoffExecError err).
Qed.

(** The proofs [storeProofs] has stored are found by the delivery: with a
    serialization of keys that is injective, after [storeProofs] returned
    nil for a parcel with inputs, the search of [deliver] through the
    final proofs of the package finds, for every output of the parcel, a
    proof with the script key of the output; so [deliver] never fails
    for want of a proof. *)
Theorem deliver_finds_stored_proof {W W' : Type} (h : handler W) (w : W)
    (h' : handler W') (w' : W') (p : ChainPorter) (pkg pkg' : sendPackage)
    (parcel : OutboundParcel) (out : TransferOutput) :
  Inj (=) (=) ToSerialized ->
  sendPackage.OutboundPkg pkg = Some parcel ->
  OutboundParcel.Inputs parcel ≠ [] ->
  (run h (storeProofs pkg) w).1.1 = Done (pkg', None) ->
  out ∈ OutboundParcel.Outputs parcel ->
  (∃ proof,
     findReceiverProof (sendPackage.FinalProofs pkg')
       (ScriptKey.PubKey (TransferOutput.ScriptKey out)) = Some proof
     ∧ Locator.ScriptKey (AnnotatedProof.Locator proof)
       = ScriptKey.PubKey (TransferOutput.ScriptKey out))
  ∧ (run h' (deliver p pkg' out) w').1.1
    ≠ Done (Some (ErrNew "no proof found for output with script key")).
Proof.
  intros Hinj Hparcel Hinputs Ho Hout.
  destruct (wp_run h _ _ w (storeProofs_archive_wp pkg)) as [_ Hfiles].
  destruct (Hfiles parcel pkg' Hparcel Hinputs Ho) as (m & Hm & Hkeyed & Hdom).
  destruct (findReceiverProof_keyed m
              (ScriptKey.PubKey (TransferOutput.ScriptKey out)) Hinj Hkeyed)
    as (proof & Hfind & Hkey).
  { rewrite Hdom. unfold outputKeys.
    rewrite elem_of_list_to_set, list_elem_of_fmap. by exists out. }
  rewrite <- Hm in Hfind. split; [by exists proof|].
  apply (wp_run h' _ _ w' (deliver_found_wp p pkg' out proof Hfind)).
Qed.

(** *** The delivery of the proofs *)

Lemma ParSlice_always {V : Type} (P : entry -> Prop) (s : list V)
    (f : V -> Prog (option error)) :
  (∀ v, always P (f v)) -> always P (ParSlice s f).
Proof.
  intros Hf. induction s as [|v s IH]; cbn [ParSlice]; [by apply always_ret|].
  apply always_bind; [apply Hf|]. intros e.
  apply always_bind; [apply IH|]. intros es. apply always_ret.
Qed.

Lemma int32_of_uint32_small (x : N) :
  x < 2 ^ 31 -> int32_of_uint32 x = Z.of_N x.
Proof.
  intros Hx. unfold int32_of_uint32.
  rewrite N.mod_small by (eapply N.lt_trans; [exact Hx|done]).
  destruct (Z.ltb_spec (Z.of_N x) (2 ^ 31)) as [_|Hge]; [done|]. lia.
Qed.

Lemma transferReceiverProof_passive_wp (todo : list VPacket)
    (acc : gmap AssetID (list AnnotatedProof)) :
  wp (transferReceiverProof_passive todo acc) (fun t o =>
    length t = length (fetchCalls t)
    ∧ (Some <$> (fetchCalls t).*1) `prefix_of` (passiveLocator <$> todo)
    ∧ ∀ files, o = Done (Ok files) ->
        Some <$> (fetchCalls t).*1 = passiveLocator <$> todo
        ∧ ∀ assetID, default [] (files !! assetID)
                = default [] (acc !! assetID)
                  ++ fetchedFilesOf assetID (fetchCalls t)).
Proof.
  revert acc. induction todo as [|passivePkt todo IH]; intros acc;
    cbn [transferReceiverProof_passive].
  { split; [done|]. split; [done|]. intros files [= <-]. split; [done|].
    intros assetID. cbn. by rewrite app_nil_r. }
  rewrite !fmap_cons.
  destruct (VPacket.Outputs passivePkt) as [|passiveOut outs] eqn:Houts;
    wp_red.
  { split; [done|]. split; [apply prefix_nil|done]. }
  assert (Hloc : passiveLocator passivePkt
                 = Some (Locator.mk (Some (Asset.ID (VOutput.Asset passiveOut)))
                           (ScriptKey.PubKey (VOutput.ScriptKey passiveOut))
                           (Some (Proof_OutPoint
                                    (VOutput.ProofSuffix passiveOut)))))
    by (unfold passiveLocator; by rewrite Houts).
  rewrite Hloc. intros [proofFileBlob|err]; wp_red.
  2:{ split; [done|]. split; [apply prefix_cons, prefix_nil|done]. }
  eapply wp_mono; [|apply IH]. intros t o (Hlen & Hpre & Hres).
  unfold fetchCalls in *. cbn [flat_map fetchCall app length].
  split; [by rewrite Hlen|]. rewrite !fmap_cons.
  split; [by apply prefix_cons|].
  intros files Ho. destruct (Hres files Ho) as [Hlocs Hfiles].
  split; [by rewrite Hlocs|]. intros assetID. rewrite Hfiles.
  cbn [fetchedFilesOf flat_map fst snd Locator.AssetID].
  destruct (decide (Some (Asset.ID (VOutput.Asset passiveOut)) = Some assetID))
    as [[= ->]|Hne].
  - rewrite lookup_insert_eq. cbn [default from_option id].
    by rewrite <- app_assoc.
  - rewrite lookup_insert_ne by congruence. done.
Qed.

Lemma fetchCalls_length (t : list entry) :
  (length (fetchCalls t) <= length t)%nat.
Proof.
  induction t as [|[X e x] t IH]; [done|].
  unfold fetchCalls in *. destruct e; cbn; lia.
Qed.

Lemma only_fetches_reads (t : list entry) :
  length t = length (fetchCalls t) ->
  confirmAnswers t = [] ∧ subscriberSends t = [].
Proof.
  induction t as [|[X e x] t IH]; [done|].
  pose proof (fetchCalls_length t).
  unfold fetchCalls, confirmAnswers, subscriberSends in *.
  destruct e; cbn; intros Hlen; try lia. apply IH. lia.
Qed.

Lemma sends_reads (subs : list (N * EventReceiver)) (event : AssetSendEvent) :
  let t := (fun kv => Entry (SubscriberSend kv.2 event) tt) <$> subs in
  confirmAnswers t = [] ∧ fetchCalls t = [].
Proof.
  induction subs as [|kv subs [Hc Hf]]; [done|].
  unfold confirmAnswers, fetchCalls in *. cbn. by rewrite Hc, Hf.
Qed.

Lemma deliveries_reads (p : ChainPorter) (pkg : sendPackage)
    (outputs : list TransferOutput) :
  wp (ParSlice outputs (deliver p pkg)) (fun t _ =>
    confirmAnswers t = [] ∧ subscriberSends t = [] ∧ fetchCalls t = []
    ∧ errChanSends t = []).
Proof.
  eapply wp_mono;
    [|apply (ParSlice_always
               (fun en => confirmAnswer en = [] ∧ subscriberSend en = []
                          ∧ fetchCall en = [] ∧ errChanSend en = []))].
  - intros t o Ht. cbn beta in Ht.
    repeat split; apply flat_map_nil_Forall;
      (eapply Forall_impl; [exact Ht|]); by intros en (? & ? & ? & ?).
  - intros out. apply deliver_always; by intros.
Qed.

Ltac transfer_red :=
  unfold confirmAnswers, subscriberSends, fetchCalls, errChanSends in *;
  repeat first
    [ rewrite flat_map_app
    | progress cbn [flat_map confirmAnswer subscriberSend fetchCall
                    errChanSend app]
    | rewrite app_nil_r
    | match goal with
      | Heq : flat_map _ ?t = _ |- _ => rewrite Heq
      end ].

Lemma transferReceiverProof_wp (p : ChainPorter) (pkg : sendPackage)
    (parcel : OutboundParcel) :
  sendPackage.OutboundPkg pkg = Some parcel ->
  wp (transferReceiverProof p pkg) (TransferPost p pkg parcel).
Proof.
  intros Hparcel. unfold transferReceiverProof. rewrite Hparcel.
  apply (wp_bind (ParSlice _ _)).
  eapply wp_mono; [|apply deliveries_reads].
  intros t0 o0 (Hc0 & Hs0 & Hf0 & _).
  destruct o0 as [[err|]|msg]; wp_red; unfold TransferPost;
    [transfer_red; by split| |transfer_red; by split].
  apply (wp_bind (transferReceiverProof_passive _ _)).
  eapply wp_mono; [|apply transferReceiverProof_passive_wp].
  intros t1 o1 (Hlen1 & _ & Hres1).
  destruct (only_fetches_reads t1 Hlen1) as [Hc1 Hs1].
  destruct o1 as [[files|err]|msg]; wp_red;
    [|transfer_red; by split..].
  destruct (Hres1 files eq_refl) as [Hlocs Hfiles].
  destruct (sendPackage.TransferTxConfEvent pkg) as [confEvent|] eqn:Hconf;
    [|wp_red; transfer_red; by split].
  destruct (TxConfirmation.BlockHash confEvent) as [blockHash|] eqn:Hhash;
    [|wp_red; transfer_red; by split].
  wp_red. intros [cerr|]; wp_red.
  - transfer_red.
    split; [exists confEvent, blockHash; repeat split; try done;
            apply int32_of_uint32_small|].
    split; [done|]. split; [|done]. intros assetID.
    rewrite Hfiles, lookup_empty. done.
  - intros now. apply (wp_bind (publishSubscriberEvent _ _)).
    eapply wp_mono; [|apply publishSubscriberEvent_range_wp].
    intros t2 o2 [-> ->]. wp_red.
    match goal with
    | |- context [SubscriberSend _ ?ev] =>
        destruct (publish_reads (map_to_list (ChainPorter.subscribers p)) ev)
          as (_ & _ & Hs2);
        destruct (sends_reads (map_to_list (ChainPorter.subscribers p)) ev)
          as (Hc2 & Hf2)
    end.
    transfer_red.
    split; [exists confEvent, blockHash; repeat split; try done;
            apply int32_of_uint32_small|].
    split; [done|]. split; [|split; [done|by exists now]]. intros assetID.
    rewrite Hfiles, lookup_empty. done.
Qed.

(** What [transferReceiverProof] writes to the export log and tells the
    subscribers.  It writes at most one confirmation; without one it sends
    no event and does not return nil.  The confirmation is that of the
    anchor transaction of the parcel in the block of the confirmation
    event of the package (the height as it is, when below [2 ^ 31]), with
    the final proofs of the package and the passive proofs: the archive
    was asked once for the proof file of every passive packet of the
    parcel, in order, and the files it answered are filed by asset, those
    of one asset in the order of the packets.  The function returns nil,
    with the state [SendStateComplete], exactly when the export log
    answered nil, and has then sent each subscriber one event, of that
    state and without error; on an error of the export log it sends no
    event and returns the error wrapped, with the package as it was. *)
Theorem transferReceiverProof_confirms_delivery {W : Type} (h : handler W)
    (w : W) (p : ChainPorter) (pkg : sendPackage) (parcel : OutboundParcel) :
  sendPackage.OutboundPkg pkg = Some parcel ->
  let r := run h (transferReceiverProof p pkg) w in
  match confirmAnswers r.2 with
  | [] => subscriberSends r.2 = [] ∧ ∀ pkg', r.1.1 ≠ Done (pkg', None)
  | [(conf, answer)] =>
      (∃ confEvent blockHash,
         sendPackage.TransferTxConfEvent pkg = Some confEvent
         ∧ TxConfirmation.BlockHash confEvent = Some blockHash
         ∧ conf = AssetConfirmEvent.mk
                    (TxHash (OutboundParcel.AnchorTx parcel)) blockHash
                    (int32_of_uint32 (TxConfirmation.BlockHeight confEvent))
                    (int32_of_uint32 (TxConfirmation.TxIndex confEvent))
                    (sendPackage.FinalProofs pkg)
                    (AssetConfirmEvent.PassiveAssetProofFiles conf)
         ∧ (TxConfirmation.BlockHeight confEvent < 2 ^ 31 ->
            AssetConfirmEvent.BlockHeight conf
            = Z.of_N (TxConfirmation.BlockHeight confEvent)))
      ∧ Some <$> (fetchCalls r.2).*1
        = passiveLocator <$> OutboundParcel.PassiveAssets parcel
      ∧ (∀ assetID,
           default [] (AssetConfirmEvent.PassiveAssetProofFiles conf !! assetID)
           = fetchedFilesOf assetID (fetchCalls r.2))
      ∧ match answer with
        | None =>
            r.1.1
            = Done (sendPackage.set_SendState SendStateComplete pkg, None)
            ∧ ∃ now,
                subscriberSends r.2
                = (fun kv : N * EventReceiver =>
                     (kv.2,
                      AssetSendEvent.mk now SendStateComplete None
                        (sendPackage.Parcel pkg)
                        (sendPackage.VirtualPackets pkg)
                        (sendPackage.PassiveAssets pkg)
                        (sendPackage.AnchorTx pkg)
                        (sendPackage.OutboundPkg pkg)))
                  <$> map_to_list (ChainPorter.subscribers p)
        | Some err =>
            r.1.1
            = Done (pkg,
                    Some (ErrWrap "unable to log parcel delivery confirmation"
                            err))
            ∧ subscriberSends r.2 = []
        end
  | _ => False
  end.
Proof.
  intros Hparcel r. subst r.
  apply (wp_run h _ _ w (transferReceiverProof_wp p pkg parcel Hparcel)).
Qed.

Lemma transferReceiverProof_errChan (p : ChainPorter) (pkg : sendPackage) :
  wp (transferReceiverProof p pkg) (fun t _ => errChanSends t = []).
Proof.
  set (P := fun en => errChanSend en = []).
  assert (∀ outs, always P (ParSlice outs (deliver p pkg)))
    by (intros; apply ParSlice_always; intros; apply deliver_always;
        by intros).
  assert (∀ todo acc, always P (transferReceiverProof_passive todo acc))
    by (induction todo; intros; simpl; always_go).
  assert (∀ ev, always P (publishSubscriberEvent p ev))
    by (intros; apply publishSubscriberEvent_always; by intros).
  assert (∀ s pkg0, always P (newAssetSendEvent s pkg0))
    by (intros; apply newAssetSendEvent_always; by intros).
  assert (Hall : always P (transferReceiverProof p pkg))
    by (unfold transferReceiverProof; always_go).
  eapply wp_mono; [|exact Hall].
  intros t o Ht. unfold errChanSends. apply flat_map_nil_Forall. exact Ht.
Qed.

(** The goroutine of the state [SendStateTransferProofs] tells the
    subscribers, not the caller: it sends nothing on an error channel.
    When [transferReceiverProof] returns an error it goes on to send each
    subscriber one event with that error and the state
    [SendStateTransferProofs], made of the package as
    [transferReceiverProof] left it; when it returns nil, or panics, the
    goroutine adds nothing. *)
Theorem transferReceiverProof_goroutine_reports {W : Type} (h : handler W)
    (w : W) (p : ChainPorter) (pkg : sendPackage) :
  let r := run h (transferReceiverProof_goroutine p pkg) w in
  let r' := run h (transferReceiverProof p pkg) w in
  errChanSends r.2 = []
  ∧ match r'.1.1 with
    | Done (pkg', Some err) =>
        r.1.1 = Done tt
        ∧ ∃ now,
            r.2 = r'.2
                  ++ Entry TimeNow now
                  :: ((fun kv : N * EventReceiver =>
                         Entry (SubscriberSend kv.2
                                  (AssetSendEvent.mk now
                                     SendStateTransferProofs (Some err)
                                     (sendPackage.Parcel pkg')
                                     (sendPackage.VirtualPackets pkg')
                                     (sendPackage.PassiveAssets pkg')
                                     (sendPackage.AnchorTx pkg')
                                     (sendPackage.OutboundPkg pkg'))) tt)
                        <$> map_to_list (ChainPorter.subscribers p))
    | Done (pkg', None) => r.1.1 = Done tt ∧ r.2 = r'.2
    | Panicked msg => r.1.1 = Panicked msg ∧ r.2 = r'.2
    end.
Proof.
  intros r r'. subst r r'.
  pose proof (wp_run h _ _ w (transferReceiverProof_errChan p pkg)) as Herr.
  cbn beta in Herr.
  unfold transferReceiverProof_goroutine. rewrite run_bind.
  destruct (run h (transferReceiverProof p pkg) w)
    as [[[[pkg' [err|]]|msg] w1] t1]; cbn [fst snd] in *.
  - unfold newAssetSendErrorEvent.
    cbn [mbind Prog_bind bind call mret Prog_ret run].
    destruct (h N TimeNow w1) as [now w2].
    destruct (publishSubscriberEvent_run h w2 p
                (AssetSendEvent.mk now SendStateTransferProofs
                   (Some err) (sendPackage.Parcel pkg')
                   (sendPackage.VirtualPackets pkg')
                   (sendPackage.PassiveAssets pkg')
                   (sendPackage.AnchorTx pkg')
                   (sendPackage.OutboundPkg pkg'))) as [Ho Ht].
    destruct (run h (publishSubscriberEvent p _) w2) as [[o2 w3] t2].
    cbn [fst snd] in *. subst o2 t2.
    split; [|split; [done|by exists now]].
    destruct (publish_reads (map_to_list (ChainPorter.subscribers p))
                (AssetSendEvent.mk now SendStateTransferProofs
                   (Some err) (sendPackage.Parcel pkg')
                   (sendPackage.VirtualPackets pkg')
                   (sendPackage.PassiveAssets pkg')
                   (sendPackage.AnchorTx pkg')
                   (sendPackage.OutboundPkg pkg'))) as (He & _).
    unfold errChanSends in *. rewrite flat_map_app, Herr.
    cbn [flat_map errChanSend app]. done.
  - cbn [run]. rewrite app_nil_r. done.
  - done.
Qed.
End Claims.


(** ** The claims on concrete runs *)

Section Witnesses.
Import Example.

(** The example handlers keep the quit channel as Go does: it never closes
    under [allGood], and stays closed under [shuttingDown]. *)
Lemma allGood_quitMonotone : quitMonotone allGood (fun _ => false).
Proof. split; [|split]; [done| |done]. intros confNtfn w. done. Qed.

Lemma shuttingDown_quitMonotone : quitMonotone shuttingDown id.
Proof.
  split; [|split].
  - intros X e w Hw. by destruct e.
  - intros confNtfn w _. done.
  - intros w Hw. done.
Qed.

(** C1, as written, fails: the package is in the state
    [SendStateBroadcast], past the stored checkpoint; importing the
    address of its change output fails, so nothing is published and the
    error is no double spend; yet the step has called [UnlockInput] on
    both outpoints the anchor transaction locked. *)
Lemma post_checkpoint_error_unlocks :
  SendStateStorePreBroadcast < sendPackage.SendState (pkgAt SendStateBroadcast)
  ∧ (run importFails (stateStep (pkgAt SendStateBroadcast)) tt).1.1
    = Done (None,
            Some (ErrWrap "unable to import local addresses"
                    (ErrNew "wallet is locked")))
  ∧ publishAnswers (run importFails (stateStep (pkgAt SendStateBroadcast)) tt).2
    = []
  ∧ unlockCalls (run importFails (stateStep (pkgAt SendStateBroadcast)) tt).2
    = [op1; op2]
  ∧ unlockCalls (run importFails (stateStep (pkgAt SendStateBroadcast)) tt).2
    ≠ [].
Proof. vm_compute. repeat split; discriminate. Qed.

Lemma error_unlocks_witness :
  unlockCalls (run logFails (stateStep (pkgAt SendStateStorePreBroadcast)) tt).2
  = [op1; op2].
Proof.
  refine (proj1 (proj2 (proj2
    (error_unlocks logFails tt tt (pkgAt SendStateStorePreBroadcast) None
       (ErrWrap "unable to write send pkg to disk"
          (ErrNew "database is locked"))
       (run logFails (stateStep (pkgAt SendStateStorePreBroadcast)) tt).2
       _))) _); vm_compute; reflexivity.
Defined.

Lemma Broadcast_publish_failure_witness :
  unlockCalls (run doubleSpend (stateStep (pkgAt SendStateBroadcast)) tt).2
  = [op1; op2]
  ∧ registerCalls (run doubleSpend (stateStep (pkgAt SendStateBroadcast)) tt).2
    = [].
Proof.
  pose proof
    (Broadcast_publish_failure doubleSpend tt tt (pkgAt SendStateBroadcast)
       (run doubleSpend (stateStep (pkgAt SendStateBroadcast)) tt).1.1
       (run doubleSpend (stateStep (pkgAt SendStateBroadcast)) tt).2
       (ErrWrap "rpc error: code = Unknown desc" ErrDoubleSpend)
       ltac:(vm_compute; reflexivity) ltac:(vm_compute; reflexivity)
       ltac:(vm_compute; reflexivity)) as (_ & Hu & Hr & _).
  split; [exact Hu|exact Hr].
Defined.

Lemma updateAssetProofFile_result_witness :
  ∃ trunk files extended,
    Forall3 fetched [input1; input2]
      (fetchCalls
         (run allGood
            (updateAssetProofFile [input1; input2] (proofOf [Byte.x00])
               (key 21) (Some confEvent)) tt).2)
      (trunk :: files)
    ∧ AppendProof trunk
        (Proof.set_AdditionalInputs files
           (Proof.mk [Byte.x00; Byte.x01] []))
      = Ok extended.
Proof.
  assert (Hrun :
    run allGood
      (updateAssetProofFile [input1; input2] (proofOf [Byte.x00]) (key 21)
         (Some confEvent)) tt
    = (Done (Proof.mk [Byte.x00; Byte.x01] [File.mk 0 [[Byte.x00]]],
             Ok (AnnotatedProof.mk
                   (Locator.mk (Some 7) 21 (Some (OutPoint.mk 2 0)))
                   [Byte.x00; Byte.x00; Byte.x01; Byte.x00])),
       tt,
       (run allGood
          (updateAssetProofFile [input1; input2] (proofOf [Byte.x00])
             (key 21) (Some confEvent)) tt).2))
    by (vm_compute; reflexivity).
  destruct (updateAssetProofFile_result allGood tt tt input1 [input2]
              (proofOf [Byte.x00]) (key 21) (Some confEvent) _ _ _ Hrun)
    as (conf & enriched & trunk & files & extended & Hconf & Hupd & Hfetch
        & Hsuffix & Happend & _).
  exists trunk, files, extended. split; [exact Hfetch|].
  injection Hupd as <-. rewrite Hsuffix in Happend. exact Happend.
Defined.

Lemma SendState_never_decreases_witness :
  sendPackage.SendState (pkgAt SendStateWaitTxConf)
    <= sendPackage.SendState (pkgAt SendStateWaitTxConf)
  ∧ StronglySorted advances
      (executingStates
         (run shuttingDown
            (advanceState 5 porter (pkgAt SendStateWaitTxConf) kit) false).2).
Proof.
  assert (Hrun :
    run shuttingDown (stateStep (pkgAt SendStateWaitTxConf)) false
    = (Done (Some (pkgAt SendStateWaitTxConf), None), true,
       (run shuttingDown (stateStep (pkgAt SendStateWaitTxConf)) false).2))
    by (vm_compute; reflexivity).
  destruct (SendState_never_decreases shuttingDown false
              (pkgAt SendStateWaitTxConf) 5 porter kit)
    as (Hstep & _ & Htrail & _).
  split; [exact (Hstep _ _ _ Hrun)|exact Htrail].
Defined.


Lemma waitForTransferTxConf_quit_witness :
  (run shuttingDown (stateStep (pkgAt SendStateWaitTxConf)) false).1.1
  = Done (Some (pkgAt SendStateWaitTxConf), None).
Proof.
  assert (Hrun :
    run shuttingDown (waitForTransferTxConf (pkgAt SendStateWaitTxConf)) false
    = (Done (pkgAt SendStateWaitTxConf, None), true,
       (run shuttingDown
          (waitForTransferTxConf (pkgAt SendStateWaitTxConf)) false).2))
    by (vm_compute; reflexivity).
  assert (Hsel :
    selectAnswers
      (run shuttingDown
         (waitForTransferTxConf (pkgAt SendStateWaitTxConf)) false).2
    = [SelQuit]) by (vm_compute; reflexivity).
  exact (proj2 (waitForTransferTxConf_quit shuttingDown false true
                  (pkgAt SendStateWaitTxConf) _ _ Hrun Hsel) eq_refl).
Defined.


Lemma storeProofs_without_inputs_witness :
  advancedToTransfer pkgPassiveOnly
    (run allGood (storeProofs pkgPassiveOnly) tt).1.1
  ∧ importCalls (run allGood (storeProofs pkgPassiveOnly) tt).2
    = [(false, [finalProof])]
  ∧ ∃ tb files suffixes ierr tw,
      (run allGood (storeProofs pkgPassiveOnly) tt).2
      = tb ++ Entry (ImportProofs false files) ierr :: tw
      ∧ passiveFiles (Some confEvent) [vPacket] (fetchCalls tb) suffixes
          files.
Proof.
  assert (Hrun :
    run allGood (storeProofs pkgPassiveOnly) tt
    = (Done (returned (pkgPassiveOnly, None)
               (run allGood (storeProofs pkgPassiveOnly) tt).1.1),
       tt, (run allGood (storeProofs pkgPassiveOnly) tt).2))
    by (vm_compute; reflexivity).
  assert (Ho :
    (run allGood (storeProofs pkgPassiveOnly) tt).1.1
    = Done (returned (pkgPassiveOnly, None)
              (run allGood (storeProofs pkgPassiveOnly) tt).1.1))
    by (vm_compute; reflexivity).
  assert (Hdone :
    ∀ pkg' err,
      (run allGood (storeProofs pkgPassiveOnly) tt).1.1
      ≠ Done (pkg', Some err))
    by (intros pkg' err He; vm_compute in He; discriminate He).
  assert (Himport :
    importCalls (run allGood (storeProofs pkgPassiveOnly) tt).2
    = [(false, [finalProof])]) by (vm_compute; reflexivity).
  destruct (storeProofs_without_inputs allGood tt tt pkgPassiveOnly
              (OutboundParcel.mk msgTx 799999 [] [] [vPacket]) _ _
              eq_refl eq_refl Hrun) as (_ & _ & _ & _ & Hstage).
  rewrite <- Ho in Hstage.
  destruct Hstage
    as [(tb & files & suffixes & ierr & tw & Ht & _ & Hbuilt & Hcase)
       |(panics & _ & _ & Hcase)].
  - split; [|split; [exact Himport|by exists tb, files, suffixes, ierr, tw]].
    destruct ierr as [err|].
    { destruct Hcase as (_ & pkg' & He & _). destruct (Hdone _ _ He). }
    destruct suffixes as [|suffix suffixes]; [exact (proj2 Hcase)|].
    destruct Hcase as (werr & _ & Hcase).
    destruct werr as [err|]; [|exact Hcase].
    destruct Hcase as (pkg' & He & _). destruct (Hdone _ _ He).
  - exfalso. destruct panics.
    + destruct Hcase as (msg & He). rewrite Ho in He. discriminate He.
    + destruct Hcase as (inner & pkg' & He & _). exact (Hdone _ _ He).
Defined.

Lemma updateAssetProofFile_needs_inputs_witness :
  (run allGood (stateStep pkgStray) tt).1.1
  = Panicked "index out of range [0] with length 0".
Proof.
  assert (Hno : noInputMatches (OutboundParcel.Inputs strayParcel)
                  (proofOf [])).
  { intros inp witness Hinp Hwit.
    apply list_elem_of_singleton in Hinp as ->.
    apply list_elem_of_singleton in Hwit as ->. discriminate. }
  destruct (updateAssetProofFile_needs_inputs (ext := external) allGood tt
              pkgStray strayParcel
              strayOut [] confEvent (proofOf []) (Proof.mk [Byte.x01] [])
              eq_refl eq_refl Hno eq_refl) as (_ & _ & Hstep).
  apply Hstep; try reflexivity. discriminate.
Defined.

(** ** The further properties on concrete runs *)

Import Example2.

Lemma porter_wellKeyed : wellKeyed porter.
Proof.
  intros id sub Hsub. unfold porter in Hsub.
  cbn [ChainPorter.subscribers] in Hsub.
  apply lookup_singleton_Some in Hsub as [<- <-]. reflexivity.
Qed.

Lemma subscribers_wellKeyed_witness :
  wellKeyed (RegisterSubscriber porter (EventReceiver.mk 2) true false).1
  ∧ wellKeyed (RemoveSubscriber porter (EventReceiver.mk 1)).1.1.
Proof.
  split.
  - apply (subscribers_wellKeyed porter (EventReceiver.mk 2) true false
             porter_wellKeyed).
  - apply (subscribers_wellKeyed porter (EventReceiver.mk 1) true false
             porter_wellKeyed).
Defined.

Lemma publishSubscriberEvent_after_Register_witness :
  filter (fun se : EventReceiver * AssetSendEvent =>
            se.1 = EventReceiver.mk 2)
    (subscriberSends
       (run allGood
          (publishSubscriberEvent
             (RegisterSubscriber porter (EventReceiver.mk 2) true false).1
             completeEvent) tt).2)
  = [(EventReceiver.mk 2, completeEvent)].
Proof.
  apply (publishSubscriberEvent_after_Register allGood tt porter
           (EventReceiver.mk 2) true false completeEvent porter_wellKeyed).
Defined.

Lemma Stop_stops_every_subscriber_witness :
  (Stop running).1.1 = Stoppable.mk NewChainPorter true true
  ∧ Stop (Stop running).1.1 = ((Stop running).1.1, [], None).
Proof.
  destruct (Stop_stops_every_subscriber running porter_wellKeyed eq_refl)
    as (_ & Hstopped & _ & Hagain).
  split; [exact Hstopped|exact Hagain].
Defined.

Lemma waitForTransferTxConf_changes_on_confirmation_witness :
  (run allGood (waitForTransferTxConf (pkgAt SendStateWaitTxConf)) tt).1.1
  = Done (sendPackage.set_SendState SendStateStoreProofs
            (pkgAt SendStateWaitTxConf), None)
  ∧ ∃ conf,
      selectAnswers
        (run allGood (waitForTransferTxConf (pkgAt SendStateWaitTxConf)) tt).2
      = [SelConfirmed conf].
Proof.
  assert (Hdone :
    (run allGood (waitForTransferTxConf (pkgAt SendStateWaitTxConf)) tt).1.1
    = Done (sendPackage.set_SendState SendStateStoreProofs
              (pkgAt SendStateWaitTxConf), None))
    by (vm_compute; reflexivity).
  split; [exact Hdone|].
  destruct (waitForTransferTxConf_changes_on_confirmation (ext := external)
              allGood tt (pkgAt SendStateWaitTxConf) parcel
              (TxOut.mk 1000 [Byte.x51]) [] eq_refl eq_refl)
    as (_ & Hreturn).
  destruct (Hreturn _ _ Hdone) as [(conf & Hsel & _)|(Hsame & _)].
  - by exists conf.
  - discriminate Hsame.
Defined.

Lemma stateStep_unknown_state_witness :
  run allGood (stateStep (pkgAt SendStateComplete)) tt
  = (Done (Some (pkgAt SendStateComplete), Some (ErrNew "unknown state")),
     tt, []).
Proof.
  apply (stateStep_unknown_state (ext := external) allGood tt
           (pkgAt SendStateComplete)).
  cbn. lia.
Defined.

Lemma stateStep_needs_address_parcel_witness :
  run allGood (stateStep pkgPreSigned) tt
  = (Done (None, Some (ErrNew "unable to cast parcel to address parcel")),
     tt, []).
Proof.
  apply (stateStep_needs_address_parcel (ext := external) allGood tt
           pkgPreSigned eq_refl).
  intros kit0 destAddrs rate. discriminate.
Defined.

Lemma stateStep_moves_to_next_state_witness :
  sendPackage.SendState
    (sendPackage.set_SendState SendStateVirtualSign
       (sendPackage.set_VirtualPackets [vPacket] pkgNew))
  = sendPackage.SendState pkgNew + 1.
Proof.
  destruct (stateStep_moves_to_next_state (ext := external) allGood tt pkgNew
              (sendPackage.set_SendState SendStateVirtualSign
                 (sendPackage.set_VirtualPackets [vPacket] pkgNew))
              ltac:(vm_compute; reflexivity)) as [Hnext|(Hwait & _)].
  - exact Hnext.
  - discriminate Hwait.
Defined.

Lemma stateStep_StorePreBroadcast_checkpoint_witness :
  publishCalls
    (run allGood (stateStep (pkgAt SendStateStorePreBroadcast)) tt).2 = []
  ∧ ∃ parcel0,
      (parcel0, None)
      ∈ pendingLogs
          (run allGood (stateStep (pkgAt SendStateStorePreBroadcast)) tt).2.
Proof.
  destruct (stateStep_StorePreBroadcast_checkpoint (ext := external) allGood
              tt (pkgAt SendStateStorePreBroadcast) eq_refl)
    as (Hpub & Hiff & _).
  split; [exact Hpub|]. apply Hiff. eexists. vm_compute. reflexivity.
Defined.

Lemma stateStep_Broadcast_publishes_after_import_witness :
  ∃ t1 t2,
    (run allGood (stateStep (pkgAt SendStateBroadcast)) tt).2
    = t1 ++ Entry (PublishTransaction msgTx) None :: t2
    ∧ length t1 = length (importKeyCalls t1)
    ∧ t2 = [Entry (DeliverTxBroadcastResp (pkgAt SendStateBroadcast)) tt].
Proof.
  destruct (stateStep_Broadcast_publishes_after_import (ext := external)
              allGood tt (pkgAt SendStateBroadcast) parcel eq_refl eq_refl)
    as [(Hnone & _)|(t1 & answer & t2 & Hlog & Hlen & _ & _ & _ & Hans)].
  - vm_compute in Hnone. discriminate Hnone.
  - assert (Hanswer : publishAnswers
                        (run allGood (stateStep (pkgAt SendStateBroadcast))
                           tt).2 = [None]) by (vm_compute; reflexivity).
    destruct answer as [err|].
    + destruct Hans as [_ Ho]. vm_compute in Ho. discriminate Ho.
    + destruct Hans as [Ht2 _]. exists t1, t2. by repeat split.
Defined.



Lemma advanceState_returns_witness :
  (run shuttingDown (advanceState 10 porter (pkgAt SendStateWaitTxConf) kit)
     false).1.1 ≠ Done None.
Proof.
  apply (advanceState_returns (ext := external) shuttingDown id 10 porter
           (pkgAt SendStateWaitTxConf) kit false shuttingDown_quitMonotone).
  right. cbn. lia.
Defined.

Lemma storeProofs_files_every_output_witness :
  ∃ m,
    sendPackage.FinalProofs
      (returned (pkgAt SendStateStoreProofs, None)
         (run allGood (storeProofs (pkgAt SendStateStoreProofs)) tt).1.1).1
    = Some m
    ∧ dom m = outputKeys [remoteOut; changeOut].
Proof.
  destruct (storeProofs_files_every_output (ext := external) allGood tt
              (pkgAt SendStateStoreProofs)
              (returned (pkgAt SendStateStoreProofs, None)
                 (run allGood (storeProofs (pkgAt SendStateStoreProofs))
                    tt).1.1).1
              parcel eq_refl ltac:(discriminate)
              ltac:(vm_compute; reflexivity)) as (m & Hm & _ & Hdom).
  exists m. split; [exact Hm|exact Hdom].
Defined.

Lemma deliver_finds_stored_proof_witness :
  (run allGood
     (deliver porter
        (returned (pkgAt SendStateStoreProofs, None)
           (run allGood (storeProofs (pkgAt SendStateStoreProofs)) tt).1.1).1
        remoteOut) tt).1.1
  ≠ Done (Some (ErrNew "no proof found for output with script key")).
Proof.
  assert (Hinj : Inj (=) (=) (@ToSerialized external))
    by (intros x y Hxy; exact Hxy).
  assert (Hinputs : OutboundParcel.Inputs parcel ≠ []) by discriminate.
  assert (Hrun :
    (run allGood (storeProofs (pkgAt SendStateStoreProofs)) tt).1.1
    = Done ((returned (pkgAt SendStateStoreProofs, None)
               (run allGood (storeProofs (pkgAt SendStateStoreProofs))
                  tt).1.1).1, None))
    by (vm_compute; reflexivity).
  assert (Hout : remoteOut ∈ OutboundParcel.Outputs parcel) by left.
  exact (proj2
    (deliver_finds_stored_proof (ext := external) allGood tt allGood tt porter
       (pkgAt SendStateStoreProofs) _ parcel remoteOut Hinj eq_refl Hinputs
       Hrun Hout)).
Defined.

Lemma transferReceiverProof_confirms_delivery_witness :
  ∃ conf,
    confirmAnswers (run allGood (transferReceiverProof porter pkgStored) tt).2
    = [(conf, None)]
    ∧ AssetConfirmEvent.BlockHeight conf = 800000%Z.
Proof.
  pose proof (transferReceiverProof_confirms_delivery (ext := external)
                allGood tt porter pkgStored parcel eq_refl) as Hpost.
  cbv zeta in Hpost.
  destruct (confirmAnswers
              (run allGood (transferReceiverProof porter pkgStored) tt).2)
    as [|[conf [err|]] [|]] eqn:Hconf;
    try (vm_compute in Hconf; discriminate Hconf).
  destruct Hpost as ((confEvent0 & blockHash & Hev & _ & _ & Hheight) & _).
  exists conf. split; [reflexivity|].
  injection Hev as <-. apply Hheight. reflexivity.
Defined.

End Witnesses.
